(** * Fighter game: the per-tick simulation of [src/src/App.tsx]

    A shallow embedding of [updateGame] and of the callbacks it uses
    ([createParticles], [createProjectile], [checkCollision],
    [handleAttack], [initializeFighters]) together with the properties of
    the simulation that are stated in the specification.

    Conventions of the embedding.
    - A JavaScript [number] that is only ever set from integer literals and
      changed by adding or subtracting integers (health, the four timers,
      combo and animation counters, ids, scores) is a [Z].  The other
      numbers (positions, velocities, energy, sizes) are exact rationals
      [Q]; every decimal literal of the source is the same decimal in [Q].
      The rounding of IEEE doubles is not modelled.
    - A property that an object literal does not define reads as
      [undefined]; arithmetic on it gives [NaN] and every comparison with
      [NaN] is false.  This only arises in [checkCollision], whose
      arguments have type [any]: there a number is an [option Q] and
      [None] stands for [NaN].
    - The key set [keysRef.current] is a [gset string].
    - [Date.now()] and [Math.random()] are read from an environment
      [Env.t]; the world counts the random draws made so far.
    - React state cells are the fields of [World.t].  One call of
      [updateGame] queues three updaters, and React runs them at the next
      render, cell by cell: the one passed to [setFighters], then the one
      passed to [setProjectiles], then the one passed to [setParticles].
      A [setProjectiles] or [setParticles] made while an updater runs (by
      [createProjectile] or [createParticles]) is queued behind the filter
      that [updateGame] has queued for that cell: what it appends is added
      to the result of the filter of the tick and is not itself moved,
      aged or tested on that tick.  The other [setX] made inside an
      updater ([setWinner], [setGameState], [setScores]) write cells that
      no updater of the tick reads.  Outside a tick a [setX] takes effect
      at once.  The name [fighters] inside
      [updateGame] is the array captured by the closure, the state of the
      render that created it: it is the [World.fighters] of the world the
      tick starts from, and it is a different array of different objects
      from [newFighters], whose elements are the copies [{...fighter}]. *)

From Stdlib Require Import ZArith QArith Qabs Qminmax Lqa Lia String List.
From stdpp Require Import base decidable list gmap strings.
Import ListNotations.

#[local] Open Scope Z_scope.
#[local] Open Scope string_scope.

(** ** Numbers *)

#[global] Instance Qlt_decision : RelDecision Qlt :=
  fun a b => match Qlt_le_dec a b with
             | left H => left H
             | right H => right (Qle_not_lt _ _ H)
             end.

#[global] Instance Qle_decision : RelDecision Qle :=
  fun a b => match Qlt_le_dec b a with
             | left H => right (Qlt_not_le _ _ H)
             | right H => left H
             end.

(** ** Data model (lines 4-62) *)

Module Facing.
Inductive t := left | right.
End Facing.

Inductive State :=
  idle | walking | jumping | attacking | blocking | hit | special.

Inductive ProjectileType := fireball | ice | lightning.

Inductive GameState := menu | playing | paused | gameOver.

#[global] Instance Facing_eq_dec : EqDecision Facing.t.
Proof. solve_decision. Defined.

#[global] Instance State_eq_dec : EqDecision State.
Proof. solve_decision. Defined.

#[global] Instance ProjectileType_eq_dec : EqDecision ProjectileType.
Proof. solve_decision. Defined.

#[global] Instance GameState_eq_dec : EqDecision GameState.
Proof. solve_decision. Defined.

Module Fighter.

Record t := mk {
  id : Z;
  x : Q;
  y : Q;
  width : Q;
  height : Q;
  velocityX : Q;
  velocityY : Q;
  health : Z;
  maxHealth : Z;
  energy : Q;
  maxEnergy : Q;
  facing : Facing.t;
  state : State;
  color : string;
  name : string;
  isGrounded : bool;
  attackCooldown : Z;
  specialCooldown : Z;
  hitStun : Z;
  blockStun : Z;
  combo : Z;
  animationFrame : Z;
  animationTimer : Z
}.

Definition set_x (v : Q) (r : t) : t :=
  {| id := r.(id); x := v; y := r.(y); width := r.(width);
     height := r.(height); velocityX := r.(velocityX);
     velocityY := r.(velocityY); health := r.(health);
     maxHealth := r.(maxHealth); energy := r.(energy);
     maxEnergy := r.(maxEnergy); facing := r.(facing); state := r.(state);
     color := r.(color); name := r.(name); isGrounded := r.(isGrounded);
     attackCooldown := r.(attackCooldown);
     specialCooldown := r.(specialCooldown); hitStun := r.(hitStun);
     blockStun := r.(blockStun); combo := r.(combo);
     animationFrame := r.(animationFrame);
     animationTimer := r.(animationTimer) |}.
Definition set_y (v : Q) (r : t) : t :=
  {| id := r.(id); x := r.(x); y := v; width := r.(width);
     height := r.(height); velocityX := r.(velocityX);
     velocityY := r.(velocityY); health := r.(health);
     maxHealth := r.(maxHealth); energy := r.(energy);
     maxEnergy := r.(maxEnergy); facing := r.(facing); state := r.(state);
     color := r.(color); name := r.(name); isGrounded := r.(isGrounded);
     attackCooldown := r.(attackCooldown);
     specialCooldown := r.(specialCooldown); hitStun := r.(hitStun);
     blockStun := r.(blockStun); combo := r.(combo);
     animationFrame := r.(animationFrame);
     animationTimer := r.(animationTimer) |}.
Definition set_velocityX (v : Q) (r : t) : t :=
  {| id := r.(id); x := r.(x); y := r.(y); width := r.(width);
     height := r.(height); velocityX := v; velocityY := r.(velocityY);
     health := r.(health); maxHealth := r.(maxHealth); energy := r.(energy);
     maxEnergy := r.(maxEnergy); facing := r.(facing); state := r.(state);
     color := r.(color); name := r.(name); isGrounded := r.(isGrounded);
     attackCooldown := r.(attackCooldown);
     specialCooldown := r.(specialCooldown); hitStun := r.(hitStun);
     blockStun := r.(blockStun); combo := r.(combo);
     animationFrame := r.(animationFrame);
     animationTimer := r.(animationTimer) |}.
Definition set_velocityY (v : Q) (r : t) : t :=
  {| id := r.(id); x := r.(x); y := r.(y); width := r.(width);
     height := r.(height); velocityX := r.(velocityX); velocityY := v;
     health := r.(health); maxHealth := r.(maxHealth); energy := r.(energy);
     maxEnergy := r.(maxEnergy); facing := r.(facing); state := r.(state);
     color := r.(color); name := r.(name); isGrounded := r.(isGrounded);
     attackCooldown := r.(attackCooldown);
     specialCooldown := r.(specialCooldown); hitStun := r.(hitStun);
     blockStun := r.(blockStun); combo := r.(combo);
     animationFrame := r.(animationFrame);
     animationTimer := r.(animationTimer) |}.
Definition set_health (v : Z) (r : t) : t :=
  {| id := r.(id); x := r.(x); y := r.(y); width := r.(width);
     height := r.(height); velocityX := r.(velocityX);
     velocityY := r.(velocityY); health := v; maxHealth := r.(maxHealth);
     energy := r.(energy); maxEnergy := r.(maxEnergy); facing := r.(facing);
     state := r.(state); color := r.(color); name := r.(name);
     isGrounded := r.(isGrounded); attackCooldown := r.(attackCooldown);
     specialCooldown := r.(specialCooldown); hitStun := r.(hitStun);
     blockStun := r.(blockStun); combo := r.(combo);
     animationFrame := r.(animationFrame);
     animationTimer := r.(animationTimer) |}.
Definition set_energy (v : Q) (r : t) : t :=
  {| id := r.(id); x := r.(x); y := r.(y); width := r.(width);
     height := r.(height); velocityX := r.(velocityX);
     velocityY := r.(velocityY); health := r.(health);
     maxHealth := r.(maxHealth); energy := v; maxEnergy := r.(maxEnergy);
     facing := r.(facing); state := r.(state); color := r.(color);
     name := r.(name); isGrounded := r.(isGrounded);
     attackCooldown := r.(attackCooldown);
     specialCooldown := r.(specialCooldown); hitStun := r.(hitStun);
     blockStun := r.(blockStun); combo := r.(combo);
     animationFrame := r.(animationFrame);
     animationTimer := r.(animationTimer) |}.
Definition set_facing (v : Facing.t) (r : t) : t :=
  {| id := r.(id); x := r.(x); y := r.(y); width := r.(width);
     height := r.(height); velocityX := r.(velocityX);
     velocityY := r.(velocityY); health := r.(health);
     maxHealth := r.(maxHealth); energy := r.(energy);
     maxEnergy := r.(maxEnergy); facing := v; state := r.(state);
     color := r.(color); name := r.(name); isGrounded := r.(isGrounded);
     attackCooldown := r.(attackCooldown);
     specialCooldown := r.(specialCooldown); hitStun := r.(hitStun);
     blockStun := r.(blockStun); combo := r.(combo);
     animationFrame := r.(animationFrame);
     animationTimer := r.(animationTimer) |}.
Definition set_state (v : State) (r : t) : t :=
  {| id := r.(id); x := r.(x); y := r.(y); width := r.(width);
     height := r.(height); velocityX := r.(velocityX);
     velocityY := r.(velocityY); health := r.(health);
     maxHealth := r.(maxHealth); energy := r.(energy);
     maxEnergy := r.(maxEnergy); facing := r.(facing); state := v;
     color := r.(color); name := r.(name); isGrounded := r.(isGrounded);
     attackCooldown := r.(attackCooldown);
     specialCooldown := r.(specialCooldown); hitStun := r.(hitStun);
     blockStun := r.(blockStun); combo := r.(combo);
     animationFrame := r.(animationFrame);
     animationTimer := r.(animationTimer) |}.
Definition set_isGrounded (v : bool) (r : t) : t :=
  {| id := r.(id); x := r.(x); y := r.(y); width := r.(width);
     height := r.(height); velocityX := r.(velocityX);
     velocityY := r.(velocityY); health := r.(health);
     maxHealth := r.(maxHealth); energy := r.(energy);
     maxEnergy := r.(maxEnergy); facing := r.(facing); state := r.(state);
     color := r.(color); name := r.(name); isGrounded := v;
     attackCooldown := r.(attackCooldown);
     specialCooldown := r.(specialCooldown); hitStun := r.(hitStun);
     blockStun := r.(blockStun); combo := r.(combo);
     animationFrame := r.(animationFrame);
     animationTimer := r.(animationTimer) |}.
Definition set_attackCooldown (v : Z) (r : t) : t :=
  {| id := r.(id); x := r.(x); y := r.(y); width := r.(width);
     height := r.(height); velocityX := r.(velocityX);
     velocityY := r.(velocityY); health := r.(health);
     maxHealth := r.(maxHealth); energy := r.(energy);
     maxEnergy := r.(maxEnergy); facing := r.(facing); state := r.(state);
     color := r.(color); name := r.(name); isGrounded := r.(isGrounded);
     attackCooldown := v; specialCooldown := r.(specialCooldown);
     hitStun := r.(hitStun); blockStun := r.(blockStun); combo := r.(combo);
     animationFrame := r.(animationFrame);
     animationTimer := r.(animationTimer) |}.
Definition set_specialCooldown (v : Z) (r : t) : t :=
  {| id := r.(id); x := r.(x); y := r.(y); width := r.(width);
     height := r.(height); velocityX := r.(velocityX);
     velocityY := r.(velocityY); health := r.(health);
     maxHealth := r.(maxHealth); energy := r.(energy);
     maxEnergy := r.(maxEnergy); facing := r.(facing); state := r.(state);
     color := r.(color); name := r.(name); isGrounded := r.(isGrounded);
     attackCooldown := r.(attackCooldown); specialCooldown := v;
     hitStun := r.(hitStun); blockStun := r.(blockStun); combo := r.(combo);
     animationFrame := r.(animationFrame);
     animationTimer := r.(animationTimer) |}.
Definition set_hitStun (v : Z) (r : t) : t :=
  {| id := r.(id); x := r.(x); y := r.(y); width := r.(width);
     height := r.(height); velocityX := r.(velocityX);
     velocityY := r.(velocityY); health := r.(health);
     maxHealth := r.(maxHealth); energy := r.(energy);
     maxEnergy := r.(maxEnergy); facing := r.(facing); state := r.(state);
     color := r.(color); name := r.(name); isGrounded := r.(isGrounded);
     attackCooldown := r.(attackCooldown);
     specialCooldown := r.(specialCooldown); hitStun := v;
     blockStun := r.(blockStun); combo := r.(combo);
     animationFrame := r.(animationFrame);
     animationTimer := r.(animationTimer) |}.
Definition set_blockStun (v : Z) (r : t) : t :=
  {| id := r.(id); x := r.(x); y := r.(y); width := r.(width);
     height := r.(height); velocityX := r.(velocityX);
     velocityY := r.(velocityY); health := r.(health);
     maxHealth := r.(maxHealth); energy := r.(energy);
     maxEnergy := r.(maxEnergy); facing := r.(facing); state := r.(state);
     color := r.(color); name := r.(name); isGrounded := r.(isGrounded);
     attackCooldown := r.(attackCooldown);
     specialCooldown := r.(specialCooldown); hitStun := r.(hitStun);
     blockStun := v; combo := r.(combo); animationFrame := r.(animationFrame);
     animationTimer := r.(animationTimer) |}.
Definition set_combo (v : Z) (r : t) : t :=
  {| id := r.(id); x := r.(x); y := r.(y); width := r.(width);
     height := r.(height); velocityX := r.(velocityX);
     velocityY := r.(velocityY); health := r.(health);
     maxHealth := r.(maxHealth); energy := r.(energy);
     maxEnergy := r.(maxEnergy); facing := r.(facing); state := r.(state);
     color := r.(color); name := r.(name); isGrounded := r.(isGrounded);
     attackCooldown := r.(attackCooldown);
     specialCooldown := r.(specialCooldown); hitStun := r.(hitStun);
     blockStun := r.(blockStun); combo := v;
     animationFrame := r.(animationFrame);
     animationTimer := r.(animationTimer) |}.
Definition set_animationFrame (v : Z) (r : t) : t :=
  {| id := r.(id); x := r.(x); y := r.(y); width := r.(width);
     height := r.(height); velocityX := r.(velocityX);
     velocityY := r.(velocityY); health := r.(health);
     maxHealth := r.(maxHealth); energy := r.(energy);
     maxEnergy := r.(maxEnergy); facing := r.(facing); state := r.(state);
     color := r.(color); name := r.(name); isGrounded := r.(isGrounded);
     attackCooldown := r.(attackCooldown);
     specialCooldown := r.(specialCooldown); hitStun := r.(hitStun);
     blockStun := r.(blockStun); combo := r.(combo); animationFrame := v;
     animationTimer := r.(animationTimer) |}.
Definition set_animationTimer (v : Z) (r : t) : t :=
  {| id := r.(id); x := r.(x); y := r.(y); width := r.(width);
     height := r.(height); velocityX := r.(velocityX);
     velocityY := r.(velocityY); health := r.(health);
     maxHealth := r.(maxHealth); energy := r.(energy);
     maxEnergy := r.(maxEnergy); facing := r.(facing); state := r.(state);
     color := r.(color); name := r.(name); isGrounded := r.(isGrounded);
     attackCooldown := r.(attackCooldown);
     specialCooldown := r.(specialCooldown); hitStun := r.(hitStun);
     blockStun := r.(blockStun); combo := r.(combo);
     animationFrame := r.(animationFrame); animationTimer := v |}.

End Fighter.

Module Projectile.

Record t := mk {
  id : Z;
  x : Q;
  y : Q;
  velocityX : Q;
  velocityY : Q;
  damage : Z;
  owner : Z;
  type : ProjectileType;
  color : string;
  animationFrame : Z
}.

Definition set_x (v : Q) (r : t) : t :=
  {| id := r.(id); x := v; y := r.(y); velocityX := r.(velocityX);
     velocityY := r.(velocityY); damage := r.(damage); owner := r.(owner);
     type := r.(type); color := r.(color);
     animationFrame := r.(animationFrame) |}.
Definition set_y (v : Q) (r : t) : t :=
  {| id := r.(id); x := r.(x); y := v; velocityX := r.(velocityX);
     velocityY := r.(velocityY); damage := r.(damage); owner := r.(owner);
     type := r.(type); color := r.(color);
     animationFrame := r.(animationFrame) |}.
Definition set_animationFrame (v : Z) (r : t) : t :=
  {| id := r.(id); x := r.(x); y := r.(y); velocityX := r.(velocityX);
     velocityY := r.(velocityY); damage := r.(damage); owner := r.(owner);
     type := r.(type); color := r.(color); animationFrame := v |}.

End Projectile.

Module Particle.

Record t := mk {
  id : Z;
  x : Q;
  y : Q;
  velocityX : Q;
  velocityY : Q;
  life : Z;
  maxLife : Z;
  color : string;
  size : Q
}.

Definition set_x (v : Q) (r : t) : t :=
  {| id := r.(id); x := v; y := r.(y); velocityX := r.(velocityX);
     velocityY := r.(velocityY); life := r.(life); maxLife := r.(maxLife);
     color := r.(color); size := r.(size) |}.
Definition set_y (v : Q) (r : t) : t :=
  {| id := r.(id); x := r.(x); y := v; velocityX := r.(velocityX);
     velocityY := r.(velocityY); life := r.(life); maxLife := r.(maxLife);
     color := r.(color); size := r.(size) |}.
Definition set_velocityX (v : Q) (r : t) : t :=
  {| id := r.(id); x := r.(x); y := r.(y); velocityX := v;
     velocityY := r.(velocityY); life := r.(life); maxLife := r.(maxLife);
     color := r.(color); size := r.(size) |}.
Definition set_velocityY (v : Q) (r : t) : t :=
  {| id := r.(id); x := r.(x); y := r.(y); velocityX := r.(velocityX);
     velocityY := v; life := r.(life); maxLife := r.(maxLife);
     color := r.(color); size := r.(size) |}.
Definition set_life (v : Z) (r : t) : t :=
  {| id := r.(id); x := r.(x); y := r.(y); velocityX := r.(velocityX);
     velocityY := r.(velocityY); life := v; maxLife := r.(maxLife);
     color := r.(color); size := r.(size) |}.

End Particle.

Record Scores := { player1 : Z; player2 : Z }.

Module World.

Record t := mk {
  gameState : GameState;
  winner : option string;
  fighters : list Fighter.t;
  projectiles : list Projectile.t;
  particles : list Particle.t;
  round : Z;
  scores : Scores;
  draws : nat
}.

Definition set_gameState (v : GameState) (r : t) : t :=
  {| gameState := v; winner := r.(winner); fighters := r.(fighters);
     projectiles := r.(projectiles); particles := r.(particles);
     round := r.(round); scores := r.(scores); draws := r.(draws) |}.
Definition set_winner (v : option string) (r : t) : t :=
  {| gameState := r.(gameState); winner := v; fighters := r.(fighters);
     projectiles := r.(projectiles); particles := r.(particles);
     round := r.(round); scores := r.(scores); draws := r.(draws) |}.
Definition set_fighters (v : list Fighter.t) (r : t) : t :=
  {| gameState := r.(gameState); winner := r.(winner); fighters := v;
     projectiles := r.(projectiles); particles := r.(particles);
     round := r.(round); scores := r.(scores); draws := r.(draws) |}.
Definition set_projectiles (v : list Projectile.t) (r : t) : t :=
  {| gameState := r.(gameState); winner := r.(winner);
     fighters := r.(fighters); projectiles := v; particles := r.(particles);
     round := r.(round); scores := r.(scores); draws := r.(draws) |}.
Definition set_particles (v : list Particle.t) (r : t) : t :=
  {| gameState := r.(gameState); winner := r.(winner);
     fighters := r.(fighters); projectiles := r.(projectiles); particles := v;
     round := r.(round); scores := r.(scores); draws := r.(draws) |}.
Definition set_round (v : Z) (r : t) : t :=
  {| gameState := r.(gameState); winner := r.(winner);
     fighters := r.(fighters); projectiles := r.(projectiles);
     particles := r.(particles); round := v; scores := r.(scores);
     draws := r.(draws) |}.
Definition set_scores (v : Scores) (r : t) : t :=
  {| gameState := r.(gameState); winner := r.(winner);
     fighters := r.(fighters); projectiles := r.(projectiles);
     particles := r.(particles); round := r.(round); scores := v;
     draws := r.(draws) |}.
Definition set_draws (v : nat) (r : t) : t :=
  {| gameState := r.(gameState); winner := r.(winner);
     fighters := r.(fighters); projectiles := r.(projectiles);
     particles := r.(particles); round := r.(round); scores := r.(scores);
     draws := v |}.

End World.

Definition CANVAS_WIDTH : Q := 1200.
Definition CANVAS_HEIGHT : Q := 600.
Definition GROUND_Y : Q := 500.
Definition GRAVITY : Q := 0.8.
Definition JUMP_FORCE : Q := -18.
Definition MOVE_SPEED : Q := 1.2.
Definition ATTACK_DAMAGE : Z := 15.
Definition SPECIAL_DAMAGE : Z := 25.

(** The environment of one tick: the clock and the random generator. *)
Module Env.
Record t := mk { now : Z; random : nat -> Q }.
End Env.

(** The set of keys that are held, [keysRef.current]. *)
Definition Keys := gset string.

Definition has (k : string) (keys : Keys) : bool := bool_decide (k ∈ keys).

(** ** Particles and projectiles (lines 136-168) *)

Definition newParticle (env : Env.t) (x y : Q) (color : string)
    (i d : nat) : Particle.t :=
  {| Particle.id := Env.now env + Z.of_nat i;
     Particle.x := x + (Env.random env d - 0.5) * 20;
     Particle.y := y + (Env.random env (d + 1) - 0.5) * 20;
     Particle.velocityX := (Env.random env (d + 2) - 0.5) * 10;
     Particle.velocityY := (Env.random env (d + 3) - 0.5) * 10;
     Particle.life := 30;
     Particle.maxLife := 30;
     Particle.color := color;
     Particle.size := Env.random env (d + 4) * 4 + 2 |}%Q.

(** The loop [for (let i = 0; i < count; i++)]: [n] iterations are left,
    [i] is the loop counter and [d] the number of random draws so far. *)
Fixpoint particleLoop (env : Env.t) (x y : Q) (color : string)
    (n i d : nat) : list Particle.t :=
  match n with
  | O => []
  | S n' =>
      newParticle env x y color i d
        :: particleLoop env x y color n' (S i) (d + 5)
  end.

Definition createParticles (env : Env.t) (x y : Q) (color : string)
    (count : nat) (w : World.t) : World.t :=
  let newParticles := particleLoop env x y color count 0 (World.draws w) in
  World.set_draws (World.draws w + 5 * count)%nat
    (World.set_particles (World.particles w ++ newParticles) w).

Definition projectileColor (type : ProjectileType) : string :=
  match type with
  | fireball => "#FF6B35"
  | ice => "#00D4FF"
  | lightning => "#FFD700"
  end.

(** The object built by [createProjectile]; the caller appends it to the
    [projectiles] cell. *)
Definition createProjectile (env : Env.t) (fighter : Fighter.t)
    (type : ProjectileType) : Projectile.t :=
  {| Projectile.id := Env.now env;
     Projectile.x :=
       if decide (Fighter.facing fighter = Facing.right)
       then Fighter.x fighter + Fighter.width fighter
       else Fighter.x fighter;
     Projectile.y := Fighter.y fighter + Fighter.height fighter / 2;
     Projectile.velocityX :=
       if decide (Fighter.facing fighter = Facing.right) then 8 else -8;
     Projectile.velocityY := 0;
     Projectile.damage := SPECIAL_DAMAGE;
     Projectile.owner := Fighter.id fighter;
     Projectile.type := type;
     Projectile.color := projectileColor type;
     Projectile.animationFrame := 0 |}%Q.

(** ** Collision (lines 170-175)

    [checkCollision] takes two values of type [any] and reads [x], [y],
    [width] and [height] of each.  A fighter and an attack range define
    all four; a projectile defines only [x] and [y]. *)

Record Rect := {
  rx : Q;
  ry : Q;
  rwidth : option Q;
  rheight : option Q
}.

(** [a + b] where [b] may be [undefined]: the sum is then [NaN]. *)
Definition jsAdd (a : Q) (b : option Q) : option Q :=
  match b with
  | Some b => Some (a + b)%Q
  | None => None
  end.

(** [a < b] on numbers that may be [NaN]. *)
Definition jsLt (a b : option Q) : bool :=
  match a, b with
  | Some a, Some b => bool_decide (a < b)%Q
  | _, _ => false
  end.

Definition jsGt (a b : option Q) : bool := jsLt b a.

Definition checkCollision (rect1 rect2 : Rect) : bool :=
  jsLt (Some (rx rect1)) (jsAdd (rx rect2) (rwidth rect2))
  && jsGt (jsAdd (rx rect1) (rwidth rect1)) (Some (rx rect2))
  && jsLt (Some (ry rect1)) (jsAdd (ry rect2) (rheight rect2))
  && jsGt (jsAdd (ry rect1) (rheight rect1)) (Some (ry rect2)).

Definition rectOfFighter (f : Fighter.t) : Rect :=
  {| rx := Fighter.x f; ry := Fighter.y f;
     rwidth := Some (Fighter.width f); rheight := Some (Fighter.height f) |}.

Definition rectOfProjectile (p : Projectile.t) : Rect :=
  {| rx := Projectile.x p; ry := Projectile.y p;
     rwidth := None; rheight := None |}.

(** ** Melee resolution (lines 177-210) *)

Definition blocks (attacker defender : Fighter.t) : bool :=
  bool_decide (Fighter.state defender = blocking)
  && (bool_decide (Fighter.facing attacker = Facing.right)
        && bool_decide (Fighter.facing defender = Facing.left)
      || bool_decide (Fighter.facing attacker = Facing.left)
           && bool_decide (Fighter.facing defender = Facing.right)).

Definition centerX (f : Fighter.t) : Q :=
  (Fighter.x f + Fighter.width f / 2)%Q.
Definition centerY (f : Fighter.t) : Q :=
  (Fighter.y f + Fighter.height f / 2)%Q.

Definition creditWin (attacker : Fighter.t) (w : World.t) : World.t :=
  let w := World.set_winner (Some (Fighter.name attacker)) w in
  let w := World.set_gameState gameOver w in
  let s := World.scores w in
  if decide (Fighter.id attacker = 1)
  then World.set_scores {| player1 := player1 s + 1; player2 := player2 s |} w
  else World.set_scores {| player1 := player1 s; player2 := player2 s + 1 |} w.

(** [handleAttack attacker defender]: both objects are mutated, so both
    are returned, with the world after the [set...] calls. *)
Definition handleAttack (env : Env.t) (attacker defender : Fighter.t)
    (w : World.t) : Fighter.t * Fighter.t * World.t :=
  if blocks attacker defender then
    let defender := Fighter.set_blockStun 15 defender in
    let defender :=
      Fighter.set_energy (Qmax 0 (Fighter.energy defender - 5)) defender in
    let w :=
      createParticles env (centerX defender) (centerY defender) "#FFD700" 3 w in
    (attacker, defender, w)
  else
    let defender :=
      Fighter.set_health (Z.max 0 (Fighter.health defender - ATTACK_DAMAGE))
        defender in
    let defender := Fighter.set_hitStun 20 defender in
    let defender := Fighter.set_state hit defender in
    let attacker := Fighter.set_combo (Fighter.combo attacker + 1) attacker in
    let knockback : Q :=
      (if decide (Fighter.facing attacker = Facing.right) then 3 else -3)%Q in
    let defender := Fighter.set_velocityX knockback defender in
    let w :=
      createParticles env (centerX defender) (centerY defender) "#FF0000" 8 w in
    if decide (Fighter.health defender <= 0)
    then (attacker, defender, creditWin attacker w)
    else (attacker, defender, w).

(** ** The per-fighter update (lines 340-471)

    The two branches on [newFighter.id === 1] are the same statements
    with different key names and a different projectile type; [controls]
    gives the names of a branch. *)

Record Controls := {
  keyLeft : string;
  keyRight : string;
  keyJump : string;
  keyAttack : string;
  keySpecial : string;
  keyBlock : string;
  signature : ProjectileType
}.

Definition controls (id : Z) : Controls :=
  if decide (id = 1) then
    {| keyLeft := "q"; keyRight := "d"; keyJump := "z"; keyAttack := "f";
       keySpecial := "g"; keyBlock := "s"; signature := ice |}
  else
    {| keyLeft := "arrowleft"; keyRight := "arrowright"; keyJump := "arrowup";
       keyAttack := "n"; keySpecial := "m"; keyBlock := "arrowdown";
       signature := fireball |}.

(** Lines 344-347. *)
Definition updateAnimation (f : Fighter.t) : Fighter.t :=
  let f := Fighter.set_animationTimer (Fighter.animationTimer f + 1) f in
  if decide (Z.rem (Fighter.animationTimer f) 8 = 0)
  then Fighter.set_animationFrame (Fighter.animationFrame f + 1) f
  else f.

(** Lines 350-353. *)
Definition updateTimers (f : Fighter.t) : Fighter.t :=
  let f :=
    if decide (0 < Fighter.attackCooldown f)
    then Fighter.set_attackCooldown (Fighter.attackCooldown f - 1) f else f in
  let f :=
    if decide (0 < Fighter.specialCooldown f)
    then Fighter.set_specialCooldown (Fighter.specialCooldown f - 1) f else f in
  let f :=
    if decide (0 < Fighter.hitStun f)
    then Fighter.set_hitStun (Fighter.hitStun f - 1) f else f in
  if decide (0 < Fighter.blockStun f)
  then Fighter.set_blockStun (Fighter.blockStun f - 1) f else f.

(** Lines 356-358. *)
Definition regenerateEnergy (f : Fighter.t) : Fighter.t :=
  if decide (Fighter.energy f < Fighter.maxEnergy f)%Q
  then Fighter.set_energy
         (Qmin (Fighter.maxEnergy f) (Fighter.energy f + 0.5)) f
  else f.

(** The guard of lines 361 and 366. *)
Definition notStunned (f : Fighter.t) : bool :=
  bool_decide (Fighter.hitStun f = 0) && bool_decide (Fighter.blockStun f = 0).

(** Lines 361-363. *)
Definition resetHit (f : Fighter.t) : Fighter.t :=
  if notStunned f && bool_decide (Fighter.state f = hit)
  then Fighter.set_state idle f
  else f.

(** Lines 380-384, the friction branch. *)
Definition applyFriction (f : Fighter.t) : Fighter.t :=
  let f := Fighter.set_velocityX (Fighter.velocityX f * 0.8) f in
  if decide (Qabs (Fighter.velocityX f) < 0.1)%Q then
    let f := Fighter.set_velocityX 0 f in
    if decide (Fighter.state f = walking) then Fighter.set_state idle f else f
  else f.

Definition movesLeft (c : Controls) (keys : Keys) (f : Fighter.t) : bool :=
  has (keyLeft c) keys && bool_decide (0 < Fighter.x f)%Q.

Definition movesRight (c : Controls) (keys : Keys) (f : Fighter.t) : bool :=
  has (keyRight c) keys
  && bool_decide (Fighter.x f < CANVAS_WIDTH - Fighter.width f)%Q.

(** Lines 371-385. *)
Definition moveInput (c : Controls) (keys : Keys) (f : Fighter.t)
    : Fighter.t :=
  if movesLeft c keys f then
    let f := Fighter.set_velocityX (- MOVE_SPEED) f in
    let f := Fighter.set_facing Facing.left f in
    Fighter.set_state walking f
  else if movesRight c keys f then
    let f := Fighter.set_velocityX MOVE_SPEED f in
    let f := Fighter.set_facing Facing.right f in
    Fighter.set_state walking f
  else applyFriction f.

(** Lines 387-391. *)
Definition jumpInput (c : Controls) (keys : Keys) (f : Fighter.t)
    : Fighter.t :=
  if has (keyJump c) keys && Fighter.isGrounded f then
    let f := Fighter.set_velocityY JUMP_FORCE f in
    let f := Fighter.set_isGrounded false f in
    Fighter.set_state jumping f
  else f.

Definition attackFires (c : Controls) (keys : Keys) (f : Fighter.t) : bool :=
  has (keyAttack c) keys && bool_decide (Fighter.attackCooldown f = 0).

(** Lines 393-396. *)
Definition attackInput (c : Controls) (keys : Keys) (f : Fighter.t)
    : Fighter.t :=
  if attackFires c keys f then
    let f := Fighter.set_state attacking f in
    Fighter.set_attackCooldown 30 f
  else f.

Definition specialFires (c : Controls) (keys : Keys) (f : Fighter.t) : bool :=
  has (keySpecial c) keys
  && bool_decide (30 <= Fighter.energy f)%Q
  && bool_decide (Fighter.specialCooldown f = 0).

(** Lines 398-403; the projectile handed to [createProjectile] is
    returned with the fighter. *)
Definition specialInput (env : Env.t) (c : Controls) (keys : Keys)
    (f : Fighter.t) : Fighter.t * list Projectile.t :=
  if specialFires c keys f then
    let f := Fighter.set_state special f in
    let f := Fighter.set_energy (Fighter.energy f - 30) f in
    let f := Fighter.set_specialCooldown 60 f in
    (f, [createProjectile env f (signature c)])
  else (f, []).

(** Lines 405-407. *)
Definition blockInput (c : Controls) (keys : Keys) (f : Fighter.t)
    : Fighter.t :=
  if has (keyBlock c) keys then Fighter.set_state blocking f else f.

(** Lines 366-448. *)
Definition handleInput (env : Env.t) (keys : Keys) (f : Fighter.t)
    : Fighter.t * list Projectile.t :=
  if notStunned f then
    let c := controls (Fighter.id f) in
    let f := moveInput c keys f in
    let f := jumpInput c keys f in
    let f := attackInput c keys f in
    let '(f, spawned) := specialInput env c keys f in
    (blockInput c keys f, spawned)
  else (f, []).

(** Lines 451-468. *)
Definition applyPhysics (f : Fighter.t) : Fighter.t :=
  let f :=
    if Fighter.isGrounded f then f
    else Fighter.set_velocityY (Fighter.velocityY f + GRAVITY) f in
  let f := Fighter.set_x (Fighter.x f + Fighter.velocityX f) f in
  let f := Fighter.set_y (Fighter.y f + Fighter.velocityY f) f in
  let f :=
    if decide (GROUND_Y - Fighter.height f <= Fighter.y f)%Q then
      let f := Fighter.set_y (GROUND_Y - Fighter.height f) f in
      let f := Fighter.set_velocityY 0 f in
      let f := Fighter.set_isGrounded true f in
      if decide (Fighter.state f = jumping) then Fighter.set_state idle f else f
    else f in
  Fighter.set_x
    (Qmax 0 (Qmin (CANVAS_WIDTH - Fighter.width f) (Fighter.x f))) f.

(** Everything before the input block. *)
Definition beforeInput (f : Fighter.t) : Fighter.t :=
  resetHit (regenerateEnergy (updateTimers (updateAnimation f))).

(** The callback of [prevFighters.map]: the new fighter and the
    projectiles it passed to [createProjectile]. *)
Definition updateFighter (env : Env.t) (keys : Keys) (fighter : Fighter.t)
    : Fighter.t * list Projectile.t :=
  let '(newFighter, spawned) := handleInput env keys (beforeInput fighter) in
  (applyPhysics newFighter, spawned).

(** ** Melee between the two new fighters (lines 474-500) *)

Definition attackRange (f : Fighter.t) : Rect :=
  {| rx := if decide (Fighter.facing f = Facing.right)
           then Fighter.x f + Fighter.width f
           else Fighter.x f - 40;
     ry := Fighter.y f;
     rwidth := Some 40;
     rheight := Some (Fighter.height f) |}%Q.

(** The guard of line 477 (and 489). *)
Definition inHitWindow (f : Fighter.t) : bool :=
  bool_decide (Fighter.state f = attacking)
  && bool_decide (Fighter.attackCooldown f = 29).

(** Lines 477-484: [handleAttack attacker defender] is reached. *)
Definition attackLands (attacker defender : Fighter.t) : bool :=
  inHitWindow attacker
  && checkCollision (attackRange attacker) (rectOfFighter defender).

Definition resolveMelee (env : Env.t) (newFighters : list Fighter.t)
    (w : World.t) : list Fighter.t * World.t :=
  match newFighters with
  | [fighter1; fighter2] =>
      let '(fighter1, fighter2, w) :=
        if attackLands fighter1 fighter2
        then handleAttack env fighter1 fighter2 w
        else (fighter1, fighter2, w) in
      let '(fighter2, fighter1, w) :=
        if attackLands fighter2 fighter1
        then handleAttack env fighter2 fighter1 w
        else (fighter2, fighter1, w) in
      ([fighter1; fighter2], w)
  | _ => (newFighters, w)
  end.

(** ** Projectiles (lines 506-527) *)

(** Lines 508-510. *)
Definition moveProjectile (p : Projectile.t) : Projectile.t :=
  let p := Projectile.set_x (Projectile.x p + Projectile.velocityX p) p in
  let p := Projectile.set_y (Projectile.y p + Projectile.velocityY p) p in
  Projectile.set_animationFrame (Projectile.animationFrame p + 1) p.

(** Lines 516-518, the writes to [targetFighter]. *)
Definition projectileHit (projectile : Projectile.t) (targetFighter : Fighter.t)
    : Fighter.t :=
  let t :=
    Fighter.set_health
      (Z.max 0 (Fighter.health targetFighter - Projectile.damage projectile))
      targetFighter in
  let t := Fighter.set_hitStun 25 t in
  Fighter.set_state hit t.

(** Line 525. *)
Definition onScreen (p : Projectile.t) : bool :=
  bool_decide (-50 < Projectile.x p)%Q
  && bool_decide (Projectile.x p < CANVAS_WIDTH + 50)%Q.

(** Lines 515-521, the branch taken when the projectile collides with
    [targetFighter], the element of index [i] of the captured array
    [fighters]: the target is written in place unless it is [blocking],
    and the projectile is dropped. *)
Definition projectileCollides (env : Env.t) (projectile : Projectile.t)
    (i : nat) (targetFighter : Fighter.t) (fighters : list Fighter.t)
    (w : World.t) : bool * list Fighter.t * World.t :=
  if decide (Fighter.state targetFighter <> blocking) then
    let t := projectileHit projectile targetFighter in
    let w :=
      createParticles env (centerX t) (centerY t)
        (Projectile.color projectile) 10 w in
    (false, <[i := t]> fighters, w)
  else (false, fighters, w).

(** The callback of [prevProjectiles.filter] on a projectile that has
    already been moved.  [fighters] is the captured array. *)
Definition filterProjectile (env : Env.t) (projectile : Projectile.t)
    (fighters : list Fighter.t) (w : World.t)
    : bool * list Fighter.t * World.t :=
  match list_find (fun f => Fighter.id f <> Projectile.owner projectile)
          fighters with
  | Some (i, targetFighter) =>
      if checkCollision (rectOfProjectile projectile)
           (rectOfFighter targetFighter)
      then projectileCollides env projectile i targetFighter fighters w
      else (onScreen projectile, fighters, w)
  | None => (onScreen projectile, fighters, w)
  end.

Fixpoint filterProjectiles (env : Env.t) (prevProjectiles : list Projectile.t)
    (fighters : list Fighter.t) (w : World.t)
    : list Projectile.t * list Fighter.t * World.t :=
  match prevProjectiles with
  | [] => ([], fighters, w)
  | projectile :: rest =>
      let projectile := moveProjectile projectile in
      let '(keep, fighters, w) := filterProjectile env projectile fighters w in
      let '(kept, fighters, w) := filterProjectiles env rest fighters w in
      (if keep then projectile :: kept else kept, fighters, w)
  end.

(** ** Particles (lines 530-539) *)

Definition moveParticle (p : Particle.t) : Particle.t :=
  let p := Particle.set_x (Particle.x p + Particle.velocityX p) p in
  let p := Particle.set_y (Particle.y p + Particle.velocityY p) p in
  let p := Particle.set_velocityX (Particle.velocityX p * 0.98) p in
  let p := Particle.set_velocityY (Particle.velocityY p * 0.98) p in
  Particle.set_life (Particle.life p - 1) p.

Definition updateParticles (prevParticles : list Particle.t)
    : list Particle.t :=
  filter (fun p => 0 < Particle.life p) (map moveParticle prevParticles).

(** ** The tick (lines 336-540) *)

(** The updater passed to [setFighters]: the new fighters, and the world
    [w] after the [set...] calls made while it runs.  In a tick the cells
    [projectiles] and [particles] of [w] are the two queues of appends
    (see [updateGame]), so the list that line 167 appends to is what has
    been queued so far. *)
Definition updateFighters (env : Env.t) (keys : Keys) (w : World.t)
    : list Fighter.t * World.t :=
  let updated := map (updateFighter env keys) (World.fighters w) in
  let w :=
    World.set_projectiles (World.projectiles w ++ concat (map snd updated)) w in
  resolveMelee env (map fst updated) w.

(** The world that the updaters of a tick write to.  Its cells
    [projectiles] and [particles] stand for the queues of the appends made
    by [createProjectile] and [createParticles] while the updaters run:
    they start empty, and the other cells are those of the state. *)
Definition emptyQueues (w : World.t) : World.t :=
  World.set_particles [] (World.set_projectiles [] w).

(** One call of [updateGame] and the render that follows it.  The updater
    of [setFighters] runs first; the filter of [setProjectiles] then runs
    on the projectiles of the previous state, with the captured array
    [fighters], and the projectiles queued by [createProjectile] are
    appended to what it keeps; the filter of [setParticles] runs on the
    particles of the previous state, and the bursts queued by
    [createParticles] are appended to what it keeps. *)
Definition updateGame (env : Env.t) (keys : Keys) (w : World.t) : World.t :=
  if decide (World.gameState w <> playing) then w
  else
    let fighters := World.fighters w in
    let prevProjectiles := World.projectiles w in
    let prevParticles := World.particles w in
    let w := emptyQueues w in
    let '(newFighters, w) := updateFighters env keys w in
    let w := World.set_fighters newFighters w in
    let '(kept, _, w) := filterProjectiles env prevProjectiles fighters w in
    let w := World.set_projectiles (kept ++ World.projectiles w)%list w in
    World.set_particles
      (updateParticles prevParticles ++ World.particles w)%list w.

(** The captured array [fighters] as the tick leaves it: the objects of
    the previous state, after the writes of the projectile pass. *)
Definition capturedAfter (env : Env.t) (keys : Keys) (w : World.t)
    : list Fighter.t :=
  if decide (World.gameState w <> playing) then World.fighters w
  else
    let fighters := World.fighters w in
    let prevProjectiles := World.projectiles w in
    let w := emptyQueues w in
    let '(newFighters, w) := updateFighters env keys w in
    let w := World.set_fighters newFighters w in
    (filterProjectiles env prevProjectiles fighters w).1.2.

(** ** Observations on a world *)

(** The path condition of the attack branch (lines 366 and 393): the
    input block runs and the attack key is read with a cooldown of 0. *)
Definition attackActivates (keys : Keys) (fighter : Fighter.t) : bool :=
  let f := beforeInput fighter in
  let c := controls (Fighter.id f) in
  notStunned f && attackFires c keys (jumpInput c keys (moveInput c keys f)).

Definition healthOf (w : World.t) (i : nat) : option Z :=
  Fighter.health <$> World.fighters w !! i.

Definition cooldownOf (w : World.t) (i : nat) : option Z :=
  Fighter.attackCooldown <$> World.fighters w !! i.

Definition stateOf (w : World.t) (i : nat) : option State :=
  Fighter.state <$> World.fighters w !! i.

(** Fighter [i] activates an attack on the tick that starts from [w]. *)
Definition activates (keys : Keys) (w : World.t) (i : nat) : bool :=
  bool_decide (World.gameState w = playing)
  && match World.fighters w !! i with
     | Some f => attackActivates keys f
     | None => false
     end.

(** ** Rounds (lines 77-134 and 640-657) *)

Definition fighter1 : Fighter.t :=
  {| Fighter.id := 1; Fighter.x := 200; Fighter.y := GROUND_Y - 80;
     Fighter.width := 60; Fighter.height := 80;
     Fighter.velocityX := 0; Fighter.velocityY := 0;
     Fighter.health := 100; Fighter.maxHealth := 100;
     Fighter.energy := 100; Fighter.maxEnergy := 100;
     Fighter.facing := Facing.right; Fighter.state := idle;
     Fighter.color := "#3B82F6"; Fighter.name := "Sub-Zero";
     Fighter.isGrounded := true;
     Fighter.attackCooldown := 0; Fighter.specialCooldown := 0;
     Fighter.hitStun := 0; Fighter.blockStun := 0; Fighter.combo := 0;
     Fighter.animationFrame := 0; Fighter.animationTimer := 0 |}%Q.

Definition fighter2 : Fighter.t :=
  {| Fighter.id := 2; Fighter.x := CANVAS_WIDTH - 260;
     Fighter.y := GROUND_Y - 80;
     Fighter.width := 60; Fighter.height := 80;
     Fighter.velocityX := 0; Fighter.velocityY := 0;
     Fighter.health := 100; Fighter.maxHealth := 100;
     Fighter.energy := 100; Fighter.maxEnergy := 100;
     Fighter.facing := Facing.left; Fighter.state := idle;
     Fighter.color := "#EF4444"; Fighter.name := "Scorpion";
     Fighter.isGrounded := true;
     Fighter.attackCooldown := 0; Fighter.specialCooldown := 0;
     Fighter.hitStun := 0; Fighter.blockStun := 0; Fighter.combo := 0;
     Fighter.animationFrame := 0; Fighter.animationTimer := 0 |}%Q.

Definition initializeFighters (w : World.t) : World.t :=
  let w := World.set_fighters [fighter1; fighter2] w in
  let w := World.set_projectiles [] w in
  let w := World.set_particles [] w in
  World.set_winner None w.

Definition startGame (w : World.t) : World.t :=
  World.set_gameState playing (initializeFighters w).

Definition resetGame (w : World.t) : World.t :=
  let w := World.set_scores {| player1 := 0; player2 := 0 |} w in
  let w := World.set_round 1 w in
  startGame w.

Definition nextRound (w : World.t) : World.t :=
  startGame (World.set_round (World.round w + 1) w).

(** The [Escape] key (lines 607-609). *)
Definition togglePause (w : World.t) : World.t :=
  World.set_gameState
    (if decide (World.gameState w = playing) then paused else playing) w.

(** The state of the first render (lines 69-75). *)
Definition mountWorld : World.t :=
  {| World.gameState := menu; World.winner := None; World.fighters := [];
     World.projectiles := []; World.particles := []; World.round := 1;
     World.scores := {| player1 := 0; player2 := 0 |}; World.draws := 0 |}.

(** The events a world can receive. *)
Inductive step : World.t -> World.t -> Prop :=
  | step_tick env keys w : step w (updateGame env keys w)
  | step_start w : step w (startGame w)
  | step_reset w : step w (resetGame w)
  | step_next w : step w (nextRound w)
  | step_pause w : step w (togglePause w).

Inductive reachable : World.t -> Prop :=
  | reachable_mount : reachable mountWorld
  | reachable_step w w' : reachable w -> step w w' -> reachable w'.

(** A run of ticks, one environment and key set per tick. *)
Fixpoint run (inputs : list (Env.t * Keys)) (w : World.t) : World.t :=
  match inputs with
  | [] => w
  | (env, keys) :: rest => run rest (updateGame env keys w)
  end.

(** Fighter [i] activates no attack on any tick of the run. *)
Fixpoint quiet (i : nat) (inputs : list (Env.t * Keys)) (w : World.t) : Prop :=
  match inputs with
  | [] => True
  | (env, keys) :: rest =>
      activates keys w i = false /\ quiet i rest (updateGame env keys w)
  end.

(** ** Predicates and projections used in the statements *)

Definition vitals (f : Fighter.t) :=
  (Fighter.id f, Fighter.health f, Fighter.maxHealth f, Fighter.maxEnergy f,
   Fighter.width f, Fighter.height f, Fighter.name f).

Definition inBounds (f : Fighter.t) : Prop :=
  (0 <= Fighter.health f <= Fighter.maxHealth f)
  /\ (0 <= Fighter.energy f <= Fighter.maxEnergy f)%Q.

(** The cells that [createParticles] leaves alone. *)
Definition cells (w : World.t) :=
  (World.gameState w, World.winner w, World.scores w, World.round w,
   World.fighters w, World.projectiles w).

(** Projectiles are only made by [createProjectile]. *)
Definition regularProjectile (p : Projectile.t) : Prop :=
  Projectile.damage p = SPECIAL_DAMAGE
  /\ (Projectile.velocityX p = 8%Q \/ Projectile.velocityX p = (-8)%Q)
  /\ Projectile.velocityY p = 0%Q.

Definition worldOk (w : World.t) : Prop :=
  Forall inBounds (World.fighters w)
  /\ Forall regularProjectile (World.projectiles w).

Definition clocks (f : Fighter.t) :=
  (Fighter.attackCooldown f, Fighter.specialCooldown f, Fighter.hitStun f,
   Fighter.blockStun f).

Definition countDown (n : Z) : Z := if decide (0 < n) then n - 1 else n.

(** Position, velocity, facing and state. *)
Definition kinematics (f : Fighter.t) :=
  (Fighter.x f, Fighter.y f, Fighter.velocityX f, Fighter.velocityY f,
   Fighter.facing f, Fighter.isGrounded f, Fighter.state f).

Definition regenerated (f : Fighter.t) : Q :=
  if decide (Fighter.energy f < Fighter.maxEnergy f)%Q
  then Qmin (Fighter.maxEnergy f) (Fighter.energy f + 0.5)
  else Fighter.energy f.

Definition reserves (f : Fighter.t) := (Fighter.energy f, Fighter.maxEnergy f).

(** The cells that the projectile and particle passes leave alone. *)
Definition outcome (w : World.t) :=
  (World.gameState w, World.winner w, World.scores w, World.round w,
   World.fighters w).

(** The cells that tell how the round stands. *)
Definition verdict (w : World.t) :=
  (World.gameState w, World.winner w, World.scores w, World.round w).

Definition opponents (i j : nat) : Prop :=
  (i = 0%nat /\ j = 1%nat) \/ (i = 1%nat /\ j = 0%nat).

(** The fighter is not [attacking]. *)
Definition calm (f : Fighter.t) : Prop := Fighter.state f <> attacking.

(** The specification's overlap of a projectile, a point, with the
    rectangle of a fighter. *)
Definition reaches (p : Projectile.t) (f : Fighter.t) : Prop :=
  (Fighter.x f < Projectile.x p)%Q
  /\ (Projectile.x p < Fighter.x f + Fighter.width f)%Q
  /\ (Fighter.y f < Projectile.y p)%Q
  /\ (Projectile.y p < Fighter.y f + Fighter.height f)%Q.

(** ** Sample fighters and worlds *)

(** A concrete environment and the world of a round that has just
    started, used to instantiate the statements below. *)
Definition env0 : Env.t := Env.mk 0 (fun _ => 0.5%Q).

Definition roundStart : World.t := startGame mountWorld.



(** Fighter 1 with 20 energy, and with 29.5 energy. *)
Definition tiredFighter : Fighter.t := Fighter.set_energy 20 fighter1.

Definition almostReady : Fighter.t := Fighter.set_energy 29.5 fighter1.

(** Both fighters on the ground, fighter 2 within reach of fighter 1. *)
Definition duelWorld : World.t :=
  World.set_fighters [fighter1; Fighter.set_x 270 fighter2] roundStart.

(** The same with fighter 2 blocking, face to face with fighter 1. *)
Definition blockedDuel : World.t :=
  World.set_fighters
    [fighter1; Fighter.set_state blocking (Fighter.set_x 270 fighter2)]
    roundStart.

(** Both fighters have just activated an attack within reach of each
    other. *)
Definition clashWorld : World.t := updateGame env0 {["f"; "n"]} duelWorld.

Definition clashFirst : Fighter.t :=
  Fighter.set_attackCooldown 30
    (Fighter.set_state attacking (Fighter.set_animationTimer 1 fighter1)).

Definition clashSecond : Fighter.t :=
  Fighter.set_attackCooldown 30
    (Fighter.set_state attacking
       (Fighter.set_animationTimer 1 (Fighter.set_x 270 fighter2))).

(** A round starts, fighter 1 fires its special on the first tick and
    nobody moves for 85 more ticks. *)
Definition volley : list (Env.t * Keys) :=
  (env0, {["g"]}) :: repeat (env0, ∅) 85.

Definition volleyWorld : World.t := run volley roundStart.

(** An ice projectile of fighter 1 about to enter the rectangle of
    fighter 2. *)
Definition iceBolt : Projectile.t :=
  Projectile.set_x 940 (createProjectile env0 fighter1 ice).

(** Fighter 2 with 25 health left, and the bolt on its way. *)
Definition lastStand : Fighter.t := Fighter.set_health 25 fighter2.

Definition lastStandWorld : World.t :=
  World.set_projectiles [iceBolt]
    (World.set_fighters [fighter1; lastStand] roundStart).

(** Fighter 2 blocking with its back to fighter 1. *)
Definition guard : Fighter.t :=
  Fighter.set_state blocking (Fighter.set_facing Facing.right fighter2).

Definition guardWorld : World.t :=
  World.set_projectiles [iceBolt]
    (World.set_fighters [fighter1; guard] roundStart).

(** ** Keyboard events (lines 601-625)

    [toLowerCase] is the string method of the language; it is a parameter
    of the two handlers. *)

(** [handleKeyDown]: the key is added to the set in lower case, and the
    [Escape] key toggles the pause. *)
Definition handleKeyDown (toLowerCase : string -> string) (key : string)
    (keys : Keys) (w : World.t) : Keys * World.t :=
  let keys := {[ toLowerCase key ]} ∪ keys in
  (keys, if decide (key = "Escape") then togglePause w else w).

(** [handleKeyUp]: the key is deleted from the set in lower case. *)
Definition handleKeyUp (toLowerCase : string -> string) (key : string)
    (keys : Keys) : Keys :=
  keys ∖ {[ toLowerCase key ]}.

(** ** Further predicates on fighters and worlds *)

(** The four timers are between 0 and the largest value that the code
    assigns to them. *)
Definition timersInRange (f : Fighter.t) : Prop :=
  0 <= Fighter.attackCooldown f <= 30
  /\ 0 <= Fighter.specialCooldown f <= 60
  /\ 0 <= Fighter.hitStun f <= 25
  /\ 0 <= Fighter.blockStun f <= 15.

(** The fighter is inside the canvas and not below the ground line. *)
Definition inArena (f : Fighter.t) : Prop :=
  (0 <= Fighter.x f)%Q
  /\ (Fighter.x f <= CANVAS_WIDTH - Fighter.width f)%Q
  /\ (Fighter.y f + Fighter.height f <= GROUND_Y)%Q.

(** [isGrounded] tells whether the fighter stands on the ground line. *)
Definition groundedIffOnGround (f : Fighter.t) : Prop :=
  (Fighter.isGrounded f = true ->
   (Fighter.y f == GROUND_Y - Fighter.height f)%Q
   /\ (Fighter.velocityY f == 0)%Q)
  /\ (Fighter.isGrounded f = false ->
      (Fighter.y f < GROUND_Y - Fighter.height f)%Q).

(** The state [hit] goes with a stun. *)
Definition hitWhileStunned (f : Fighter.t) : Prop :=
  (0 < Fighter.hitStun f -> Fighter.state f = hit)
  /\ (Fighter.state f = hit ->
      0 < Fighter.hitStun f \/ 0 < Fighter.blockStun f).

(** The fields that [initializeFighters] fixes for a round. *)
Definition standardBuild (f : Fighter.t) : Prop :=
  Fighter.width f = 60%Q /\ Fighter.height f = 80%Q
  /\ Fighter.maxHealth f = 100 /\ Fighter.maxEnergy f = 100%Q
  /\ ((Fighter.id f = 1 /\ Fighter.name f = "Sub-Zero")
      \/ (Fighter.id f = 2 /\ Fighter.name f = "Scorpion")).

Definition sound (f : Fighter.t) : Prop :=
  standardBuild f /\ timersInRange f /\ inArena f
  /\ groundedIffOnGround f /\ hitWhileStunned f.

(** Vertical position and motion. *)
Definition vertical (f : Fighter.t) :=
  (Fighter.y f, Fighter.velocityY f, Fighter.isGrounded f, Fighter.height f).

Definition stuns (f : Fighter.t) := (Fighter.hitStun f, Fighter.blockStun f).

(** The two fighters after [handleAttack attacker defender]. *)
Definition struck (attacker defender : Fighter.t) : Fighter.t :=
  if blocks attacker defender then
    Fighter.set_energy (Qmax 0 (Fighter.energy defender - 5))
      (Fighter.set_blockStun 15 defender)
  else
    Fighter.set_velocityX
      (if decide (Fighter.facing attacker = Facing.right) then 3 else -3)%Q
      (Fighter.set_state hit
         (Fighter.set_hitStun 20
            (Fighter.set_health
               (Z.max 0 (Fighter.health defender - ATTACK_DAMAGE)) defender))).

Definition striker (attacker defender : Fighter.t) : Fighter.t :=
  if blocks attacker defender then attacker
  else Fighter.set_combo (Fighter.combo attacker + 1) attacker.

(** What the input block may do to the timers of a fighter. *)
Definition timerStep (g g' : Fighter.t) : Prop :=
  stuns g' = stuns g
  /\ (Fighter.attackCooldown g' = 30
      \/ Fighter.attackCooldown g' = Fighter.attackCooldown g)
  /\ (Fighter.specialCooldown g' = 60
      \/ Fighter.specialCooldown g' = Fighter.specialCooldown g).

(** None of the six keys of a fighter is held. *)
Definition allReleased (c : Controls) (keys : Keys) : Prop :=
  has (keyLeft c) keys = false /\ has (keyRight c) keys = false
  /\ has (keyJump c) keys = false /\ has (keyAttack c) keys = false
  /\ has (keySpecial c) keys = false /\ has (keyBlock c) keys = false.

(** Two key sets hold the same keys of a fighter. *)
Definition sameControls (c : Controls) (keys1 keys2 : Keys) : Prop :=
  has (keyLeft c) keys1 = has (keyLeft c) keys2
  /\ has (keyRight c) keys1 = has (keyRight c) keys2
  /\ has (keyJump c) keys1 = has (keyJump c) keys2
  /\ has (keyAttack c) keys1 = has (keyAttack c) keys2
  /\ has (keySpecial c) keys1 = has (keySpecial c) keys2
  /\ has (keyBlock c) keys1 = has (keyBlock c) keys2.

(** A round starts; fighter 1 jumps while fighter 2 attacks, then
    fighter 1 walks right and fires, then blocks. *)
Definition skirmish : list (Env.t * Keys) :=
  [(env0, {["z"; "n"]}); (env0, {["d"; "g"]}); (env0, {["s"]})].

Definition skirmishWorld : World.t := run skirmish roundStart.

(** One run of the updater that [updateGame] passes to [setProjectiles],
    seen on the list of projectiles alone. *)
Definition projectilePass (env : Env.t) (fighters : list Fighter.t)
    (w : World.t) (prevProjectiles : list Projectile.t) : list Projectile.t :=
  (filterProjectiles env prevProjectiles fighters w).1.1.

(** The scores after the win of [attacker] (lines 203-206). *)
Definition credit (attacker : Fighter.t) (s : Scores) : Scores :=
  if decide (Fighter.id attacker = 1)
  then {| player1 := player1 s + 1; player2 := player2 s |}
  else {| player1 := player1 s; player2 := player2 s + 1 |}.

(** The tick from [w] to [w'] ends the round with the win of
    [attacker]. *)
Definition knockedOut (attacker : Fighter.t) (w w' : World.t) : Prop :=
  World.gameState w' = gameOver
  /\ World.winner w' = Some (Fighter.name attacker)
  /\ World.scores w' = credit attacker (World.scores w)
  /\ World.round w' = World.round w.

(** The fighters of a world are none, or fighter 1 followed by
    fighter 2. *)
Definition lineup (w : World.t) : Prop :=
  World.fighters w = []
  \/ exists a b, World.fighters w = [a; b]
                 /\ Fighter.id a = 1 /\ Fighter.id b = 2.

(** The scores and the round number are counts, and a game that is over
    names its winner: the loser is at health 0 and the winner has scored. *)
Definition roundRecord (w : World.t) : Prop :=
  0 <= player1 (World.scores w) /\ 0 <= player2 (World.scores w)
  /\ 1 <= World.round w
  /\ (World.gameState w = gameOver ->
      (World.winner w = Some "Sub-Zero" /\ healthOf w 1 = Some 0
       /\ 1 <= player1 (World.scores w))
      \/ (World.winner w = Some "Scorpion" /\ healthOf w 0 = Some 0
          /\ 1 <= player2 (World.scores w))).

(** Thirty ticks of a round in which both fighters walk towards each
    other: fighter 1 attacks on the first tick and stands still on the
    second, the tick of its hit window. *)
Definition exchange : list (Env.t * Keys) :=
  (env0, {["f"; "d"; "arrowleft"]}) :: (env0, {["arrowleft"]})
  :: repeat (env0, {["d"; "arrowleft"]}) 28.

(** Sixteen exchanges and the two ticks of the seventh hit. *)
Definition knockout : list (Env.t * Keys) :=
  concat (repeat exchange 16)
  ++ [(env0, {["f"; "d"; "arrowleft"]}); (env0, {["arrowleft"]})].

Definition knockoutWorld : World.t := run knockout roundStart.

(** ** The bars of the screen (lines 770, 790, 804 and 813) *)

(** The value of a number expression that is not [NaN]. *)
Inductive Width :=
  | Percent (q : Q)
  | plusInfinity
  | minusInfinity.

(** [(value / max) * 100 || 0].  [value] and [max] are [undefined] when
    the fighter is missing; the quotient is then [NaN], as is 0 / 0, and
    [NaN || 0] is 0. *)
Definition barWidth (value max : option Q) : Width :=
  match value, max with
  | Some v, Some m =>
      if Qeq_bool m 0 then
        if decide (0 < v)%Q then plusInfinity
        else if decide (v < 0)%Q then minusInfinity
        else Percent 0
      else Percent (v / m * 100)
  | _, _ => Percent 0
  end.

Definition healthBar (w : World.t) (i : nat) : Width :=
  barWidth ((fun f => inject_Z (Fighter.health f)) <$> World.fighters w !! i)
    ((fun f => inject_Z (Fighter.maxHealth f)) <$> World.fighters w !! i).

Definition energyBar (w : World.t) (i : nat) : Width :=
  barWidth (Fighter.energy <$> World.fighters w !! i)
    (Fighter.maxEnergy <$> World.fighters w !! i).

(** ** Vertical motion (lines 451-463) *)

(** What [applyPhysics] does to the height [y], the speed [velocityY] and
    the flag [isGrounded] of a fighter of height [height]. *)
Definition fall (v : Q * Q * bool * Q) : Q * Q * bool * Q :=
  let '(y, velocityY, isGrounded, height) := v in
  let velocityY := if isGrounded then velocityY else (velocityY + GRAVITY)%Q in
  let y := (y + velocityY)%Q in
  if decide (GROUND_Y - height <= y)%Q
  then ((GROUND_Y - height)%Q, 0%Q, true, height)
  else (y, velocityY, isGrounded, height).

(** The fighter of the standard height has been in the air for [m]
    ticks of a jump. *)
Definition arc (m : Z) (v : Q * Q * bool * Q) : Prop :=
  let '(y, velocityY, isGrounded, height) := v in
  isGrounded = false /\ height = 80%Q
  /\ (velocityY == JUMP_FORCE + GRAVITY * inject_Z m)%Q
  /\ (y == GROUND_Y - 80 + 0.4 * inject_Z (m * (m - 44)))%Q.

(** The fighter of the standard height is back on the ground. *)
Definition landed (v : Q * Q * bool * Q) : Prop :=
  let '(y, velocityY, isGrounded, height) := v in
  isGrounded = true /\ (y == GROUND_Y - 80)%Q.

(** The jump is in its tick [m]: in the air up to tick 43, landed on
    tick 44. *)
Definition jumpPhase (m : Z) (v : Q * Q * bool * Q) : Prop :=
  (1 <= m <= 43 /\ arc m v) \/ (m = 44 /\ landed v).

(** Fighter 1 has activated an attack on the previous tick; fighter 2 is
    within its reach with 10 health left. *)
Definition finishingWorld : World.t :=
  World.set_fighters
    [clashFirst; Fighter.set_health 10 (Fighter.set_x 270 fighter2)]
    roundStart.

(** * Properties *)

(** The steps of the tick and the arithmetic of [Q] are unfolded by name
    only. *)
#[global] Arguments Qplus : simpl never.
#[global] Arguments Qminus : simpl never.
#[global] Arguments Qmult : simpl never.
#[global] Arguments Qdiv : simpl never.
#[global] Arguments Qopp : simpl never.
#[global] Arguments Qabs : simpl never.
#[global] Arguments Qmax : simpl never.
#[global] Arguments Qmin : simpl never.
#[global] Arguments updateAnimation : simpl never.
#[global] Arguments updateTimers : simpl never.
#[global] Arguments regenerateEnergy : simpl never.
#[global] Arguments resetHit : simpl never.
#[global] Arguments applyFriction : simpl never.
#[global] Arguments moveInput : simpl never.
#[global] Arguments jumpInput : simpl never.
#[global] Arguments attackInput : simpl never.
#[global] Arguments specialInput : simpl never.
#[global] Arguments blockInput : simpl never.
#[global] Arguments handleInput : simpl never.
#[global] Arguments applyPhysics : simpl never.
#[global] Arguments beforeInput : simpl never.
#[global] Arguments updateFighter : simpl never.
#[global] Arguments handleAttack : simpl never.
#[global] Arguments resolveMelee : simpl never.
#[global] Arguments createParticles : simpl never.
#[global] Arguments createProjectile : simpl never.
#[global] Arguments creditWin : simpl never.
#[global] Arguments filterProjectile : simpl never.
#[global] Arguments projectileCollides : simpl never.
#[global] Arguments filterProjectiles : simpl never.
#[global] Arguments updateFighters : simpl never.
#[global] Arguments updateGame : simpl never.
#[global] Arguments checkCollision : simpl never.
#[global] Arguments attackLands : simpl never.
#[global] Arguments inHitWindow : simpl never.
#[global] Arguments blocks : simpl never.
#[global] Arguments notStunned : simpl never.
#[global] Arguments movesLeft : simpl never.
#[global] Arguments movesRight : simpl never.
#[global] Arguments attackFires : simpl never.
#[global] Arguments specialFires : simpl never.
#[global] Arguments projectileHit : simpl never.
#[global] Arguments moveProjectile : simpl never.
#[global] Arguments onScreen : simpl never.

(** ** The shape of the per-fighter update *)

Lemma handleInput_fst env keys f :
  (handleInput env keys f).1 =
  if notStunned f then
    let c := controls (Fighter.id f) in
    blockInput c keys
      (specialInput env c keys
         (attackInput c keys (jumpInput c keys (moveInput c keys f)))).1
  else f.
Proof.
  unfold handleInput. destruct (notStunned f); [|reflexivity].
  cbv zeta. destruct (specialInput _ _ _ _); reflexivity.
Qed.

Lemma handleInput_snd env keys f :
  (handleInput env keys f).2 =
  if notStunned f then
    let c := controls (Fighter.id f) in
    (specialInput env c keys
       (attackInput c keys (jumpInput c keys (moveInput c keys f)))).2
  else [].
Proof.
  unfold handleInput. destruct (notStunned f); [|reflexivity].
  cbv zeta. destruct (specialInput _ _ _ _); reflexivity.
Qed.

Lemma updateFighter_fst env keys f :
  (updateFighter env keys f).1 =
  applyPhysics (handleInput env keys (beforeInput f)).1.
Proof. unfold updateFighter. destruct (handleInput _ _ _); reflexivity. Qed.

Lemma updateFighter_snd env keys f :
  (updateFighter env keys f).2 = (handleInput env keys (beforeInput f)).2.
Proof. unfold updateFighter. destruct (handleInput _ _ _); reflexivity. Qed.

(** Case analysis on every test of a small function. *)
Ltac split_tests :=
  repeat match goal with
         | |- context [decide ?P] => destruct (decide P)
         | |- context [bool_decide ?P] => destruct (bool_decide P) eqn:?
         | |- context [has ?k ?ks] => destruct (has k ks) eqn:?
         | |- context [Fighter.isGrounded ?f] =>
             destruct (Fighter.isGrounded f) eqn:?
         end; simpl.

(** *** Fields that no step of the update writes *)

Lemma vitals_updateAnimation f : vitals (updateAnimation f) = vitals f.
Proof. unfold updateAnimation; simpl; split_tests; reflexivity. Qed.

Lemma vitals_updateTimers f : vitals (updateTimers f) = vitals f.
Proof. unfold updateTimers; split_tests; reflexivity. Qed.

Lemma vitals_regenerateEnergy f : vitals (regenerateEnergy f) = vitals f.
Proof. unfold regenerateEnergy; split_tests; reflexivity. Qed.

Lemma vitals_resetHit f : vitals (resetHit f) = vitals f.
Proof. unfold resetHit; destruct (_ && _); reflexivity. Qed.

Lemma vitals_beforeInput f : vitals (beforeInput f) = vitals f.
Proof.
  unfold beforeInput.
  rewrite vitals_resetHit, vitals_regenerateEnergy, vitals_updateTimers.
  apply vitals_updateAnimation.
Qed.

Lemma vitals_moveInput c keys f : vitals (moveInput c keys f) = vitals f.
Proof.
  unfold moveInput, applyFriction.
  destruct (movesLeft c keys f); [reflexivity|].
  destruct (movesRight c keys f); [reflexivity|].
  simpl; split_tests; reflexivity.
Qed.

Lemma vitals_jumpInput c keys f : vitals (jumpInput c keys f) = vitals f.
Proof. unfold jumpInput; destruct (_ && _); reflexivity. Qed.

Lemma vitals_attackInput c keys f : vitals (attackInput c keys f) = vitals f.
Proof. unfold attackInput; destruct (attackFires _ _ _); reflexivity. Qed.

Lemma vitals_specialInput env c keys f :
  vitals (specialInput env c keys f).1 = vitals f.
Proof. unfold specialInput; destruct (specialFires _ _ _); reflexivity. Qed.

Lemma vitals_blockInput c keys f : vitals (blockInput c keys f) = vitals f.
Proof. unfold blockInput; destruct (has _ _); reflexivity. Qed.

Lemma vitals_handleInput env keys f :
  vitals (handleInput env keys f).1 = vitals f.
Proof.
  rewrite handleInput_fst. destruct (notStunned f); [|reflexivity].
  cbv zeta.
  rewrite vitals_blockInput, vitals_specialInput, vitals_attackInput,
    vitals_jumpInput.
  apply vitals_moveInput.
Qed.

Lemma vitals_applyPhysics f : vitals (applyPhysics f) = vitals f.
Proof. unfold applyPhysics; simpl; split_tests; reflexivity. Qed.

Lemma vitals_updateFighter env keys f :
  vitals (updateFighter env keys f).1 = vitals f.
Proof.
  rewrite updateFighter_fst, vitals_applyPhysics, vitals_handleInput.
  apply vitals_beforeInput.
Qed.

Lemma updateFighter_health env keys f :
  Fighter.health (updateFighter env keys f).1 = Fighter.health f.
Proof.
  generalize (vitals_updateFighter env keys f).
  generalize (updateFighter env keys f).1. intros g H.
  unfold vitals in H. congruence.
Qed.

Lemma updateFighter_id env keys f :
  Fighter.id (updateFighter env keys f).1 = Fighter.id f.
Proof.
  generalize (vitals_updateFighter env keys f).
  generalize (updateFighter env keys f).1. intros g H.
  unfold vitals in H. congruence.
Qed.

(** ** C2: health and energy stay within their bounds *)

Ltac frame_bounds :=
  intros f H; destruct H as [Hh He]; split_tests; split; assumption.

Lemma inBounds_updateAnimation f : inBounds f -> inBounds (updateAnimation f).
Proof. unfold updateAnimation; simpl. revert f; frame_bounds. Qed.

Lemma inBounds_updateTimers f : inBounds f -> inBounds (updateTimers f).
Proof. unfold updateTimers. revert f; frame_bounds. Qed.

Lemma inBounds_regenerateEnergy f : inBounds f -> inBounds (regenerateEnergy f).
Proof.
  unfold regenerateEnergy. intros [Hh [He1 He2]].
  destruct (decide _) as [Hlt|]; [|split; [assumption | split; assumption]].
  split; [exact Hh|]. simpl. split.
  - apply Q.min_glb; lra.
  - apply Q.le_min_l.
Qed.

Lemma inBounds_resetHit f : inBounds f -> inBounds (resetHit f).
Proof. unfold resetHit. intros H. destruct (_ && _); exact H. Qed.

Lemma inBounds_moveInput c keys f :
  inBounds f -> inBounds (moveInput c keys f).
Proof.
  unfold moveInput, applyFriction. intros H.
  destruct (movesLeft c keys f); [exact H|].
  destruct (movesRight c keys f); [exact H|].
  simpl. split_tests; exact H.
Qed.

Lemma inBounds_jumpInput c keys f :
  inBounds f -> inBounds (jumpInput c keys f).
Proof. unfold jumpInput. intros H. destruct (_ && _); exact H. Qed.

Lemma inBounds_attackInput c keys f :
  inBounds f -> inBounds (attackInput c keys f).
Proof. unfold attackInput. intros H. destruct (attackFires _ _ _); exact H. Qed.

Lemma inBounds_specialInput env c keys f :
  inBounds f -> inBounds (specialInput env c keys f).1.
Proof.
  unfold specialInput, specialFires. intros [Hh [He1 He2]].
  destruct (has _ _); simpl; [|split; [assumption | split; assumption]].
  destruct (bool_decide (30 <= _)%Q) eqn:E; simpl;
    [|split; [assumption | split; assumption]].
  destruct (bool_decide (_ = 0)); simpl;
    [|split; [assumption | split; assumption]].
  apply bool_decide_eq_true in E.
  split; [exact Hh|]. simpl. split; lra.
Qed.

Lemma inBounds_blockInput c keys f :
  inBounds f -> inBounds (blockInput c keys f).
Proof. unfold blockInput. intros H. destruct (has _ _); exact H. Qed.

Lemma inBounds_applyPhysics f : inBounds f -> inBounds (applyPhysics f).
Proof. unfold applyPhysics. simpl. intros H. split_tests; exact H. Qed.

Lemma inBounds_updateFighter env keys f :
  inBounds f -> inBounds (updateFighter env keys f).1.
Proof.
  intros H. rewrite updateFighter_fst. apply inBounds_applyPhysics.
  assert (Hb : inBounds (beforeInput f)).
  { unfold beforeInput.
    apply inBounds_resetHit, inBounds_regenerateEnergy, inBounds_updateTimers,
      inBounds_updateAnimation, H. }
  rewrite handleInput_fst. destruct (notStunned _); [|exact Hb].
  cbv zeta.
  apply inBounds_blockInput, inBounds_specialInput, inBounds_attackInput,
    inBounds_jumpInput, inBounds_moveInput, Hb.
Qed.

Lemma cells_createParticles env x y color count w :
  cells (createParticles env x y color count w) = cells w.
Proof. reflexivity. Qed.

Lemma projectiles_creditWin a w :
  World.projectiles (creditWin a w) = World.projectiles w.
Proof. unfold creditWin. destruct (decide _); reflexivity. Qed.

Lemma inBounds_handleAttack env a d w :
  inBounds a -> inBounds d ->
  inBounds (handleAttack env a d w).1.1
  /\ inBounds (handleAttack env a d w).1.2.
Proof.
  intros Ha [Hh [He1 He2]]. unfold handleAttack.
  destruct (blocks a d); simpl.
  - split; [exact Ha|]. split; [exact Hh|]. simpl. split.
    + apply Q.le_max_l.
    + apply Q.max_lub; lra.
  - destruct (decide _); simpl; (split; [exact Ha|]);
      (split; [simpl; unfold ATTACK_DAMAGE; lia | split; assumption]).
Qed.

Lemma projectiles_handleAttack env a d w :
  World.projectiles (handleAttack env a d w).2 = World.projectiles w.
Proof.
  unfold handleAttack. destruct (blocks a d); simpl; [reflexivity|].
  destruct (decide _); simpl; [|reflexivity].
  rewrite projectiles_creditWin. reflexivity.
Qed.

Lemma resolveMelee_pair env f1 f2 w :
  resolveMelee env [f1; f2] w =
  let r1 :=
    if attackLands f1 f2 then handleAttack env f1 f2 w else (f1, f2, w) in
  let r2 :=
    if attackLands r1.1.2 r1.1.1
    then handleAttack env r1.1.2 r1.1.1 r1.2
    else (r1.1.2, r1.1.1, r1.2) in
  ([r2.1.2; r2.1.1], r2.2).
Proof.
  unfold resolveMelee.
  destruct (if attackLands f1 f2 then _ else _) as [[a b] w1]; simpl.
  destruct (if attackLands b a then _ else _) as [[b' a'] w2]; reflexivity.
Qed.

Lemma inBounds_resolveMelee env fs w :
  Forall inBounds fs -> Forall inBounds (resolveMelee env fs w).1.
Proof.
  intros H.
  destruct fs as [|f1 [|f2 [|f3 fs]]]; try exact H.
  rewrite resolveMelee_pair. cbv zeta.
  apply Forall_cons in H as [H1 H]. apply Forall_cons in H as [H2 _].
  set (r1 := if attackLands f1 f2 then _ else _).
  assert (B1 : inBounds r1.1.1 /\ inBounds r1.1.2).
  { subst r1. destruct (attackLands f1 f2); [|split; assumption].
    apply inBounds_handleAttack; assumption. }
  destruct B1 as [Ba Bb]. clearbody r1.
  set (r2 := if attackLands _ _ then _ else _).
  assert (B2 : inBounds r2.1.1 /\ inBounds r2.1.2).
  { subst r2. destruct (attackLands _ _); [|split; assumption].
    apply inBounds_handleAttack; assumption. }
  destruct B2. simpl.
  constructor; [assumption|]. constructor; [assumption|]. constructor.
Qed.

Lemma projectiles_resolveMelee env fs w :
  World.projectiles (resolveMelee env fs w).2 = World.projectiles w.
Proof.
  destruct fs as [|f1 [|f2 [|f3 fs]]]; try reflexivity.
  rewrite resolveMelee_pair. cbv zeta. simpl.
  destruct (attackLands f1 f2); simpl.
  - destruct (attackLands _ _); simpl;
      rewrite ?projectiles_handleAttack; reflexivity.
  - destruct (attackLands _ _); simpl;
      rewrite ?projectiles_handleAttack; reflexivity.
Qed.

Lemma regular_createProjectile env f type :
  regularProjectile (createProjectile env f type).
Proof.
  unfold regularProjectile, createProjectile; simpl.
  destruct (decide _); auto.
Qed.

Lemma regular_moveProjectile p :
  regularProjectile p -> regularProjectile (moveProjectile p).
Proof. intros H; exact H. Qed.

Lemma regular_specialInput env c keys f :
  Forall regularProjectile (specialInput env c keys f).2.
Proof.
  unfold specialInput. destruct (specialFires c keys f); cbn [snd].
  - constructor; [|constructor]. apply regular_createProjectile.
  - constructor.
Qed.

Lemma regular_spawned env keys f :
  Forall regularProjectile (updateFighter env keys f).2.
Proof.
  rewrite updateFighter_snd, handleInput_snd.
  destruct (notStunned _); [|constructor].
  apply regular_specialInput.
Qed.

Lemma inBounds_projectileHit p f :
  regularProjectile p -> inBounds f -> inBounds (projectileHit p f).
Proof.
  intros [Hd _] [Hh He]. unfold projectileHit. split; [|exact He]. simpl.
  rewrite Hd. unfold SPECIAL_DAMAGE. lia.
Qed.

Lemma filterProjectile_spec env p fs w :
  regularProjectile p -> Forall inBounds fs ->
  Forall inBounds (filterProjectile env p fs w).1.2
  /\ cells (filterProjectile env p fs w).2 = cells w.
Proof.
  intros Hp Hfs. unfold filterProjectile.
  destruct (list_find _ fs) as [[i t]|] eqn:Hfind;
    [|split; [exact Hfs|reflexivity]].
  destruct (checkCollision _ _); [|split; [exact Hfs|reflexivity]].
  unfold projectileCollides.
  destruct (decide _); [|split; [exact Hfs|reflexivity]].
  cbn [fst snd]. split; [|apply cells_createParticles].
  apply list_find_Some in Hfind as (Hi & _ & _).
  apply Forall_insert; [exact Hfs|].
  apply inBounds_projectileHit; [exact Hp|].
  exact (Forall_lookup_1 _ _ _ _ Hfs Hi).
Qed.

Lemma filterProjectiles_cons env p ps fs w :
  filterProjectiles env (p :: ps) fs w =
  let q := moveProjectile p in
  let r := filterProjectile env q fs w in
  let r' := filterProjectiles env ps r.1.2 r.2 in
  (if r.1.1 then q :: r'.1.1 else r'.1.1, r'.1.2, r'.2).
Proof.
  change (filterProjectiles env (p :: ps) fs w) with
    (let projectile := moveProjectile p in
     let '(keep, fighters, w) := filterProjectile env projectile fs w in
     let '(kept, fighters, w) := filterProjectiles env ps fighters w in
     (if keep then projectile :: kept else kept, fighters, w)).
  cbv zeta.
  destruct (filterProjectile env (moveProjectile p) fs w) as [[keep fs1] w1].
  cbn [fst snd].
  destruct (filterProjectiles env ps fs1 w1) as [[kept fs2] w2]. reflexivity.
Qed.

Lemma filterProjectiles_spec env ps : forall fs w,
  Forall regularProjectile ps -> Forall inBounds fs ->
  Forall regularProjectile (filterProjectiles env ps fs w).1.1
  /\ Forall inBounds (filterProjectiles env ps fs w).1.2
  /\ cells (filterProjectiles env ps fs w).2 = cells w.
Proof.
  induction ps as [|p ps IH]; intros fs w Hps Hfs.
  - cbn. split; [constructor|]. split; [exact Hfs|reflexivity].
  - rewrite filterProjectiles_cons. cbv zeta.
    apply Forall_cons in Hps as [Hp Hps].
    destruct (filterProjectile_spec env (moveProjectile p) fs w) as [H1 H2];
      [apply regular_moveProjectile, Hp | exact Hfs |].
    destruct (IH _ (filterProjectile env (moveProjectile p) fs w).2 Hps H1)
      as (K1 & K2 & K3).
    cbn [fst snd]. split; [|split; [exact K2 | congruence]].
    destruct (filterProjectile env (moveProjectile p) fs w).1.1; [|exact K1].
    constructor; [apply regular_moveProjectile, Hp | exact K1].
Qed.

(** The tick written with projections. *)
Lemma updateGame_playing env keys w :
  World.gameState w = playing ->
  updateGame env keys w =
  let r := updateFighters env keys (emptyQueues w) in
  let w1 := World.set_fighters r.1 r.2 in
  let r2 :=
    filterProjectiles env (World.projectiles w) (World.fighters w) w1 in
  let w2 :=
    World.set_projectiles (r2.1.1 ++ World.projectiles r2.2)%list r2.2 in
  World.set_particles
    (updateParticles (World.particles w) ++ World.particles w2)%list w2.
Proof.
  intros Hp. unfold updateGame.
  destruct (decide _) as [n|_]; [congruence|]. cbv zeta.
  destruct (updateFighters env keys (emptyQueues w)) as [nf w1]. cbn [fst snd].
  destruct (filterProjectiles _ _ _ _) as [[kept fs] w2]; reflexivity.
Qed.

Lemma updateGame_not_playing env keys w :
  World.gameState w <> playing -> updateGame env keys w = w.
Proof.
  intros Hp. unfold updateGame.
  destruct (decide _) as [_|n]; [reflexivity | exfalso; exact (n Hp)].
Qed.

Lemma Forall_concat_spawned env keys fs :
  Forall regularProjectile
    (concat (map snd (map (updateFighter env keys) fs))).
Proof.
  induction fs as [|f fs IH]; [constructor|].
  cbn [map concat]. apply Forall_app. split; [apply regular_spawned|exact IH].
Qed.

Lemma Forall_inBounds_updated env keys fs :
  Forall inBounds fs ->
  Forall inBounds (map fst (map (updateFighter env keys) fs)).
Proof.
  induction 1 as [|f fs Hf _ IH]; [constructor|].
  cbn [map]. constructor; [apply inBounds_updateFighter, Hf|exact IH].
Qed.

Lemma worldOk_updateFighters env keys w :
  worldOk w ->
  Forall inBounds (updateFighters env keys w).1
  /\ Forall regularProjectile (World.projectiles (updateFighters env keys w).2).
Proof.
  intros [Hf Hp]. unfold updateFighters. cbv zeta. split.
  - apply inBounds_resolveMelee, Forall_inBounds_updated, Hf.
  - rewrite projectiles_resolveMelee. cbn.
    apply Forall_app. split; [exact Hp|apply Forall_concat_spawned].
Qed.

Lemma worldOk_updateGame env keys w :
  worldOk w -> worldOk (updateGame env keys w).
Proof.
  intros H.
  destruct (decide (World.gameState w = playing)) as [Hp|Hp];
    [|rewrite updateGame_not_playing; assumption].
  rewrite updateGame_playing by exact Hp. cbv zeta.
  assert (H0 : worldOk (emptyQueues w))
    by (split; [exact (proj1 H) | constructor]).
  destruct (worldOk_updateFighters env keys (emptyQueues w) H0) as [H1 H2].
  set (r := updateFighters env keys (emptyQueues w)) in *.
  set (w1 := World.set_fighters r.1 r.2).
  destruct (filterProjectiles_spec env (World.projectiles w)
              (World.fighters w) w1 (proj2 H) (proj1 H)) as (K1 & K2 & K3).
  set (r2 := filterProjectiles env (World.projectiles w) (World.fighters w) w1)
    in *.
  split.
  - change (Forall inBounds (World.fighters r2.2)).
    replace (World.fighters r2.2) with (World.fighters w1)
      by (revert K3; unfold cells; congruence).
    exact H1.
  - change (Forall regularProjectile (r2.1.1 ++ World.projectiles r2.2)%list).
    apply Forall_app. split; [exact K1|].
    replace (World.projectiles r2.2) with (World.projectiles w1)
      by (revert K3; unfold cells; congruence).
    exact H2.
Qed.

Lemma worldOk_startGame w : worldOk (startGame w).
Proof.
  split; cbn; [|constructor].
  constructor; [|constructor; [|constructor]];
    (split; [cbn; lia | cbn; split; lra]).
Qed.

Lemma worldOk_step w w' : worldOk w -> step w w' -> worldOk w'.
Proof.
  intros H Hs. destruct Hs.
  - apply worldOk_updateGame, H.
  - apply worldOk_startGame.
  - apply (worldOk_startGame _).
  - apply (worldOk_startGame _).
  - exact H.
Qed.

Lemma worldOk_reachable w : reachable w -> worldOk w.
Proof.
  induction 1 as [|w w' _ IH Hs].
  - split; constructor.
  - exact (worldOk_step _ _ IH Hs).
Qed.

Lemma inBounds_capturedAfter env keys w :
  worldOk w -> Forall inBounds (capturedAfter env keys w).
Proof.
  intros H. unfold capturedAfter.
  destruct (decide _); [exact (proj1 H)|]. cbv zeta.
  destruct (updateFighters env keys (emptyQueues w)) as [nf w1].
  apply filterProjectiles_spec; [exact (proj2 H) | exact (proj1 H)].
Qed.

(** C2.  In every reachable world each fighter's health is within
    [0, maxHealth] and its energy within [0, maxEnergy].  The same holds
    of the objects of the captured array after the projectile pass of any
    tick, of a fighter after the writes of a projectile hit, and of both
    fighters after a melee hit or a blocked one: the damage and the block
    cost stop at 0 and the regeneration stops at [maxEnergy]. *)
Theorem health_energy_within_bounds w :
  reachable w ->
  Forall inBounds (World.fighters w)
  /\ (forall env keys, Forall inBounds (capturedAfter env keys w))
  /\ (forall p t,
        In p (World.projectiles w) -> In t (World.fighters w) ->
        inBounds (projectileHit p t))
  /\ (forall env a d w0,
        In a (World.fighters w) -> In d (World.fighters w) ->
        inBounds (handleAttack env a d w0).1.1
        /\ inBounds (handleAttack env a d w0).1.2).
Proof.
  intros H. apply worldOk_reachable in H. destruct H as [Hf Hp].
  split; [exact Hf|]. split; [|split].
  - intros env keys. apply inBounds_capturedAfter. split; assumption.
  - intros p t Ip It. apply inBounds_projectileHit.
    + exact (proj1 (List.Forall_forall _ _) Hp p Ip).
    + exact (proj1 (List.Forall_forall _ _) Hf t It).
  - intros env a d w0 Ia Id. apply inBounds_handleAttack.
    + exact (proj1 (List.Forall_forall _ _) Hf a Ia).
    + exact (proj1 (List.Forall_forall _ _) Hf d Id).
Qed.

Lemma reachable_roundStart : reachable roundStart.
Proof. exact (reachable_step _ _ reachable_mount (step_start _)). Defined.

Lemma health_energy_within_bounds_witness :
  reachable (updateGame env0 {["g"]} roundStart)
  /\ Forall inBounds (World.fighters (updateGame env0 {["g"]} roundStart))
  /\ (forall p t,
        In p (World.projectiles (updateGame env0 {["g"]} roundStart)) ->
        In t (World.fighters (updateGame env0 {["g"]} roundStart)) ->
        inBounds (projectileHit p t)).
Proof.
  assert (R : reachable (updateGame env0 {["g"]} roundStart))
    by exact (reachable_step _ _ reachable_roundStart (step_tick _ _ _)).
  destruct (health_energy_within_bounds _ R) as (A & _ & B & _).
  split; [exact R|]. split; [exact A | exact B].
Defined.

(** ** The four timers *)

Lemma clocks_updateTimers f :
  clocks (updateTimers f) =
  (countDown (Fighter.attackCooldown f), countDown (Fighter.specialCooldown f),
   countDown (Fighter.hitStun f), countDown (Fighter.blockStun f)).
Proof.
  unfold updateTimers, countDown, clocks.
  destruct (decide (0 < Fighter.attackCooldown f)); simpl;
    destruct (decide (0 < Fighter.specialCooldown f)); simpl;
    destruct (decide (0 < Fighter.hitStun f)); simpl;
    destruct (decide (0 < Fighter.blockStun f)); reflexivity.
Qed.

Lemma clocks_updateAnimation f : clocks (updateAnimation f) = clocks f.
Proof. unfold updateAnimation; simpl; split_tests; reflexivity. Qed.

Lemma clocks_regenerateEnergy f : clocks (regenerateEnergy f) = clocks f.
Proof. unfold regenerateEnergy; split_tests; reflexivity. Qed.

Lemma clocks_resetHit f : clocks (resetHit f) = clocks f.
Proof. unfold resetHit; destruct (_ && _); reflexivity. Qed.

Lemma clocks_beforeInput f :
  clocks (beforeInput f) =
  (countDown (Fighter.attackCooldown f), countDown (Fighter.specialCooldown f),
   countDown (Fighter.hitStun f), countDown (Fighter.blockStun f)).
Proof.
  unfold beforeInput.
  rewrite clocks_resetHit, clocks_regenerateEnergy, clocks_updateTimers.
  generalize (clocks_updateAnimation f).
  generalize (updateAnimation f). intros g H. unfold clocks in H. congruence.
Qed.

Lemma clocks_moveInput c keys f : clocks (moveInput c keys f) = clocks f.
Proof.
  unfold moveInput, applyFriction.
  destruct (movesLeft c keys f); [reflexivity|].
  destruct (movesRight c keys f); [reflexivity|].
  simpl; split_tests; reflexivity.
Qed.

Lemma clocks_jumpInput c keys f : clocks (jumpInput c keys f) = clocks f.
Proof. unfold jumpInput; destruct (_ && _); reflexivity. Qed.

Lemma clocks_blockInput c keys f : clocks (blockInput c keys f) = clocks f.
Proof. unfold blockInput; destruct (has _ _); reflexivity. Qed.

Lemma clocks_applyPhysics f : clocks (applyPhysics f) = clocks f.
Proof. unfold applyPhysics; simpl; split_tests; reflexivity. Qed.

Lemma hitStun_beforeInput f :
  Fighter.hitStun (beforeInput f) = countDown (Fighter.hitStun f).
Proof.
  generalize (clocks_beforeInput f). generalize (beforeInput f).
  intros g H. unfold clocks in H. congruence.
Qed.

Lemma blockStun_beforeInput f :
  Fighter.blockStun (beforeInput f) = countDown (Fighter.blockStun f).
Proof.
  generalize (clocks_beforeInput f). generalize (beforeInput f).
  intros g H. unfold clocks in H. congruence.
Qed.

Lemma attackCooldown_beforeInput f :
  Fighter.attackCooldown (beforeInput f) = countDown (Fighter.attackCooldown f).
Proof.
  generalize (clocks_beforeInput f). generalize (beforeInput f).
  intros g H. unfold clocks in H. congruence.
Qed.

Lemma specialCooldown_beforeInput f :
  Fighter.specialCooldown (beforeInput f)
  = countDown (Fighter.specialCooldown f).
Proof.
  generalize (clocks_beforeInput f). generalize (beforeInput f).
  intros g H. unfold clocks in H. congruence.
Qed.

Lemma notStunned_beforeInput f :
  notStunned (beforeInput f) =
  bool_decide (countDown (Fighter.hitStun f) = 0)
  && bool_decide (countDown (Fighter.blockStun f) = 0).
Proof.
  unfold notStunned. rewrite hitStun_beforeInput, blockStun_beforeInput.
  reflexivity.
Qed.

Lemma still_stunned f :
  1 < Fighter.hitStun f \/ 1 < Fighter.blockStun f ->
  notStunned (beforeInput f) = false.
Proof.
  intros H. rewrite notStunned_beforeInput. unfold countDown.
  apply andb_false_iff.
  destruct H as [H|H]; [left|right]; apply bool_decide_eq_false;
    destruct (decide _); lia.
Qed.

(** ** C3: a stunned fighter ignores the keys *)

(** C3, as amended.  A fighter whose [hitStun] or [blockStun] is above 1
    at the start of a tick, so that it is still positive after the
    decrement of that tick, is updated in the same way whatever keys are
    held: the new fighter (position, velocity, state and every other
    field) and the projectiles it creates do not depend on the keys. *)
Theorem stunned_update_ignores_keys env keys1 keys2 f :
  1 < Fighter.hitStun f \/ 1 < Fighter.blockStun f ->
  updateFighter env keys1 f = updateFighter env keys2 f.
Proof.
  intros H. apply still_stunned in H.
  unfold updateFighter, handleInput. rewrite H. reflexivity.
Qed.

Lemma stunned_update_ignores_keys_witness :
  (1 < Fighter.hitStun (Fighter.set_hitStun 20 fighter1)
   \/ 1 < Fighter.blockStun (Fighter.set_hitStun 20 fighter1))
  /\ updateFighter env0 {["d"; "f"]} (Fighter.set_hitStun 20 fighter1)
     = updateFighter env0 ∅ (Fighter.set_hitStun 20 fighter1).
Proof.
  assert (H : 1 < Fighter.hitStun (Fighter.set_hitStun 20 fighter1)
              \/ 1 < Fighter.blockStun (Fighter.set_hitStun 20 fighter1))
    by (left; reflexivity).
  split; [exact H | exact (stunned_update_ignores_keys _ _ _ _ H)].
Defined.

(** C3 as stated fails: with [hitStun = 1] at the start of the tick the
    timer reaches 0 before the input block, and the keys are obeyed. *)
Lemma stun_positive_counterexample :
  ~ (forall env keys1 keys2 f,
       0 < Fighter.hitStun f \/ 0 < Fighter.blockStun f ->
       let f1 := (updateFighter env keys1 f).1 in
       let f2 := (updateFighter env keys2 f).1 in
       (Fighter.x f1 == Fighter.x f2)%Q
       /\ (Fighter.y f1 == Fighter.y f2)%Q
       /\ (Fighter.velocityX f1 == Fighter.velocityX f2)%Q
       /\ (Fighter.velocityY f1 == Fighter.velocityY f2)%Q
       /\ Fighter.state f1 = Fighter.state f2).
Proof.
  intros H.
  specialize (H env0 {["d"]} ∅ (Fighter.set_hitStun 1 fighter1)
                (or_introl eq_refl)).
  vm_compute in H. destruct H as (_ & _ & _ & _ & H). discriminate H.
Qed.

(** ** C4: friction *)

Lemma kinematics_updateAnimation f :
  kinematics (updateAnimation f) = kinematics f.
Proof. unfold updateAnimation; simpl; split_tests; reflexivity. Qed.

Lemma kinematics_updateTimers f : kinematics (updateTimers f) = kinematics f.
Proof. unfold updateTimers; split_tests; reflexivity. Qed.

Lemma kinematics_regenerateEnergy f :
  kinematics (regenerateEnergy f) = kinematics f.
Proof. unfold regenerateEnergy; split_tests; reflexivity. Qed.

Lemma kinematics_beforeHit f :
  kinematics (regenerateEnergy (updateTimers (updateAnimation f)))
  = kinematics f.
Proof.
  rewrite kinematics_regenerateEnergy, kinematics_updateTimers.
  apply kinematics_updateAnimation.
Qed.


Lemma x_beforeInput f : Fighter.x (beforeInput f) = Fighter.x f.
Proof.
  unfold beforeInput. generalize (kinematics_beforeHit f).
  generalize (regenerateEnergy (updateTimers (updateAnimation f))).
  intros g E. unfold kinematics in E. unfold resetHit.
  destruct (_ && _); simpl; congruence.
Qed.

Lemma state_beforeInput f :
  Fighter.state f <> hit -> Fighter.state (beforeInput f) = Fighter.state f.
Proof.
  intros Hs. unfold beforeInput. generalize (kinematics_beforeHit f).
  generalize (regenerateEnergy (updateTimers (updateAnimation f))).
  intros g E. unfold kinematics in E.
  assert (E' : Fighter.state g = Fighter.state f) by congruence.
  unfold resetHit.
  destruct (notStunned g); simpl; [|exact E'].
  destruct (bool_decide (Fighter.state g = hit)) eqn:B; [|exact E'].
  apply bool_decide_eq_true in B. congruence.
Qed.



Lemma moveInput_idle_keys c keys f :
  movesLeft c keys f = false -> movesRight c keys f = false ->
  moveInput c keys f = applyFriction f.
Proof. intros Hl Hr. unfold moveInput. rewrite Hl, Hr. reflexivity. Qed.






Lemma state_applyPhysics f :
  Fighter.state f <> jumping ->
  Fighter.state (applyPhysics f) = Fighter.state f.
Proof.
  intros Hs. unfold applyPhysics; simpl.
  destruct (Fighter.isGrounded f); simpl;
    (destruct (decide (_ <= _)%Q); simpl; [|reflexivity];
     destruct (decide (Fighter.state f = jumping)); [contradiction|reflexivity]).
Qed.

Lemma jumpInput_released c keys f :
  has (keyJump c) keys = false -> jumpInput c keys f = f.
Proof. intros H. unfold jumpInput. rewrite H. reflexivity. Qed.

Lemma attackInput_released c keys f :
  has (keyAttack c) keys = false -> attackInput c keys f = f.
Proof. intros H. unfold attackInput, attackFires. rewrite H. reflexivity. Qed.

Lemma specialInput_released env c keys f :
  has (keySpecial c) keys = false -> specialInput env c keys f = (f, []).
Proof. intros H. unfold specialInput, specialFires. rewrite H. reflexivity. Qed.

Lemma blockInput_released c keys f :
  has (keyBlock c) keys = false -> blockInput c keys f = f.
Proof. intros H. unfold blockInput. rewrite H. reflexivity. Qed.

Lemma id_beforeInput f : Fighter.id (beforeInput f) = Fighter.id f.
Proof.
  generalize (vitals_beforeInput f). generalize (beforeInput f).
  intros g H. unfold vitals in H. congruence.
Qed.

(** The new fighter when the input block runs. *)
Lemma updateFighter_free env keys f :
  notStunned (beforeInput f) = true ->
  (updateFighter env keys f).1 =
  let c := controls (Fighter.id f) in
  applyPhysics
    (blockInput c keys
       (specialInput env c keys
          (attackInput c keys
             (jumpInput c keys (moveInput c keys (beforeInput f))))).1).
Proof.
  intros H. rewrite updateFighter_fst, handleInput_fst, H, id_beforeInput.
  reflexivity.
Qed.

(** The new fighter when the input block is skipped. *)
Lemma updateFighter_stunned env keys f :
  notStunned (beforeInput f) = false ->
  (updateFighter env keys f).1 = applyPhysics (beforeInput f).
Proof.
  intros H. rewrite updateFighter_fst, handleInput_fst, H. reflexivity.
Qed.




(** ** C8: special needs 30 energy *)

Lemma reserves_updateAnimation f : reserves (updateAnimation f) = reserves f.
Proof. unfold updateAnimation; simpl; split_tests; reflexivity. Qed.

Lemma reserves_updateTimers f : reserves (updateTimers f) = reserves f.
Proof. unfold updateTimers; split_tests; reflexivity. Qed.

Lemma energy_beforeInput f : Fighter.energy (beforeInput f) = regenerated f.
Proof.
  unfold beforeInput.
  assert (E : reserves (updateTimers (updateAnimation f)) = reserves f)
    by (rewrite reserves_updateTimers; apply reserves_updateAnimation).
  revert E. generalize (updateTimers (updateAnimation f)). intros g E.
  unfold reserves in E. injection E as E1 E2.
  assert (R : Fighter.energy (regenerateEnergy g) = regenerated f).
  { unfold regenerateEnergy, regenerated. rewrite <- E1, <- E2.
    destruct (decide _); reflexivity. }
  revert R. generalize (regenerateEnergy g). intros g' R.
  unfold resetHit. destruct (_ && _); exact R.
Qed.

Lemma energy_moveInput c keys f :
  Fighter.energy (moveInput c keys f) = Fighter.energy f.
Proof.
  unfold moveInput, applyFriction.
  destruct (movesLeft c keys f); [reflexivity|].
  destruct (movesRight c keys f); [reflexivity|].
  simpl; split_tests; reflexivity.
Qed.

Lemma energy_jumpInput c keys f :
  Fighter.energy (jumpInput c keys f) = Fighter.energy f.
Proof. unfold jumpInput; destruct (_ && _); reflexivity. Qed.

Lemma energy_attackInput c keys f :
  Fighter.energy (attackInput c keys f) = Fighter.energy f.
Proof. unfold attackInput; destruct (attackFires _ _ _); reflexivity. Qed.

Lemma energy_blockInput c keys f :
  Fighter.energy (blockInput c keys f) = Fighter.energy f.
Proof. unfold blockInput; destruct (has _ _); reflexivity. Qed.

Lemma energy_applyPhysics f :
  Fighter.energy (applyPhysics f) = Fighter.energy f.
Proof. unfold applyPhysics; simpl; split_tests; reflexivity. Qed.

Lemma specialInput_low_energy env c keys f :
  (Fighter.energy f < 30)%Q -> specialInput env c keys f = (f, []).
Proof.
  intros H. unfold specialInput, specialFires.
  destruct (has _ _); [|reflexivity]. simpl.
  destruct (bool_decide (30 <= Fighter.energy f)%Q) eqn:B; [|reflexivity].
  apply bool_decide_eq_true in B. lra.
Qed.

Lemma regenerated_below f :
  (Fighter.energy f + 0.5 < 30)%Q -> (regenerated f < 30)%Q.
Proof.
  intros H. unfold regenerated. destruct (decide _); [|lra].
  eapply Qle_lt_trans; [apply Q.le_min_r | exact H].
Qed.

(** C8, as amended.  A fighter whose energy is below 29.5 at the start
    of a tick (20, for one) creates no projectile on that tick whatever
    keys are held, and no energy is deducted: after its update the energy
    is the regenerated value, [min maxEnergy (energy + 0.5)] when it was
    below [maxEnergy], and the same as before otherwise. *)
Theorem low_energy_special_does_nothing env keys f :
  (Fighter.energy f + 0.5 < 30)%Q ->
  (updateFighter env keys f).2 = []
  /\ Fighter.energy (updateFighter env keys f).1 = regenerated f.
Proof.
  intros H. apply regenerated_below in H. rewrite <- energy_beforeInput in *.
  rewrite updateFighter_snd, updateFighter_fst, handleInput_snd,
    handleInput_fst.
  destruct (notStunned (beforeInput f)).
  - cbv zeta.
    rewrite specialInput_low_energy
      by (rewrite energy_attackInput, energy_jumpInput, energy_moveInput;
          exact H).
    cbn [fst snd]. split; [reflexivity|].
    rewrite energy_applyPhysics, energy_blockInput, energy_attackInput,
      energy_jumpInput, energy_moveInput.
    reflexivity.
  - split; [reflexivity|]. apply energy_applyPhysics.
Qed.

Lemma low_energy_special_does_nothing_witness :
  (Fighter.energy tiredFighter + 0.5 < 30)%Q
  /\ (updateFighter env0 {["g"]} tiredFighter).2 = []
  /\ Fighter.energy (updateFighter env0 {["g"]} tiredFighter).1
     = regenerated tiredFighter.
Proof.
  assert (H : (Fighter.energy tiredFighter + 0.5 < 30)%Q)
    by (vm_compute; reflexivity).
  split; [exact H | exact (low_energy_special_does_nothing _ _ _ H)].
Defined.

(** C8 as stated fails: the energy of a fighter with 20 energy that holds
    the special key is 20.5 after the tick. *)
Lemma energy_20_counterexample :
  ~ (forall env keys f,
       (Fighter.energy f < 30)%Q ->
       has (keySpecial (controls (Fighter.id f))) keys = true ->
       (updateFighter env keys f).2 = []
       /\ (Fighter.energy (updateFighter env keys f).1 == Fighter.energy f)%Q).
Proof.
  intros H.
  destruct (H env0 {["g"]} tiredFighter) as [_ E];
    [vm_compute; reflexivity | vm_compute; reflexivity |].
  vm_compute in E. discriminate E.
Qed.

(** With 29.5 energy the regeneration reaches 30 before the special key
    is read: the projectile is created and 30 energy is deducted. *)
Lemma energy_29_5_fires :
  (Fighter.energy almostReady < 30)%Q
  /\ length (updateFighter env0 {["g"]} almostReady).2 = 1%nat
  /\ (Fighter.energy (updateFighter env0 {["g"]} almostReady).1 == 0)%Q.
Proof. vm_compute. repeat split; reflexivity. Qed.

Lemma energy_20_regenerates :
  (Fighter.energy (updateFighter env0 {["g"]} tiredFighter).1 == 20.5)%Q.
Proof. vm_compute. reflexivity. Qed.

(** ** Melee: who can lose health on a tick *)

Lemma attackCooldown_updateFighter env keys f :
  Fighter.attackCooldown (updateFighter env keys f).1 =
  if attackActivates keys f then 30
  else countDown (Fighter.attackCooldown f).
Proof.
  rewrite updateFighter_fst, handleInput_fst. unfold attackActivates.
  cbv zeta.
  assert (P : forall g, Fighter.attackCooldown (applyPhysics g)
                        = Fighter.attackCooldown g).
  { intros g. generalize (clocks_applyPhysics g). generalize (applyPhysics g).
    intros g' H. unfold clocks in H. congruence. }
  rewrite P. destruct (notStunned (beforeInput f)); cbn [andb].
  - set (c := controls (Fighter.id (beforeInput f))).
    assert (M : Fighter.attackCooldown
                  (jumpInput c keys (moveInput c keys (beforeInput f)))
                = countDown (Fighter.attackCooldown f)).
    { rewrite <- attackCooldown_beforeInput.
      generalize (clocks_moveInput c keys (beforeInput f)).
      generalize (clocks_jumpInput c keys (moveInput c keys (beforeInput f))).
      generalize (jumpInput c keys (moveInput c keys (beforeInput f))).
      generalize (moveInput c keys (beforeInput f)).
      intros g1 g2 H1 H2. unfold clocks in *. congruence. }
    revert M. generalize (jumpInput c keys (moveInput c keys (beforeInput f))).
    intros g M.
    assert (B : forall h, Fighter.attackCooldown (blockInput c keys h)
                          = Fighter.attackCooldown h).
    { intros h. unfold blockInput. destruct (has _ _); reflexivity. }
    assert (S : forall h, Fighter.attackCooldown (specialInput env c keys h).1
                          = Fighter.attackCooldown h).
    { intros h. unfold specialInput. destruct (specialFires _ _ _); reflexivity. }
    rewrite B, S. unfold attackInput.
    destruct (attackFires c keys g); [reflexivity | exact M].
  - apply attackCooldown_beforeInput.
Qed.

Lemma inHitWindow_state f :
  inHitWindow f = true ->
  Fighter.state f = attacking /\ Fighter.attackCooldown f = 29.
Proof.
  unfold inHitWindow. intros H. apply andb_true_iff in H as [H1 H2].
  apply bool_decide_eq_true in H1. apply bool_decide_eq_true in H2.
  split; assumption.
Qed.

Lemma attackLands_window a d : attackLands a d = true -> inHitWindow a = true.
Proof. unfold attackLands. intros H. apply andb_true_iff in H. tauto. Qed.

Lemma blocks_state a d : blocks a d = true -> Fighter.state d = blocking.
Proof.
  unfold blocks. intros H. apply andb_true_iff in H as [H _].
  apply bool_decide_eq_true in H. exact H.
Qed.

(** What one call of [handleAttack] does to the two fighters. *)
Lemma handleAttack_fighters env a d w :
  let r := handleAttack env a d w in
  Fighter.attackCooldown r.1.1 = Fighter.attackCooldown a
  /\ Fighter.attackCooldown r.1.2 = Fighter.attackCooldown d
  /\ Fighter.state r.1.1 = Fighter.state a
  /\ Fighter.health r.1.1 = Fighter.health a
  /\ Fighter.state r.1.2 <> attacking
  /\ Fighter.health r.1.2 =
     if blocks a d then Fighter.health d
     else Z.max 0 (Fighter.health d - ATTACK_DAMAGE).
Proof.
  cbv zeta. unfold handleAttack. destruct (blocks a d) eqn:B.
  - cbn [fst snd]. apply blocks_state in B.
    repeat split; try reflexivity. simpl. congruence.
  - destruct (decide _); cbn [fst snd]; repeat split; try reflexivity;
      simpl; congruence.
Qed.

Lemma not_attacking_misses a d :
  Fighter.state a <> attacking -> attackLands a d = false.
Proof.
  intros H. unfold attackLands, inHitWindow.
  destruct (bool_decide (Fighter.state a = attacking)) eqn:B; [|reflexivity].
  apply bool_decide_eq_true in B. contradiction.
Qed.

(** The melee stage on two fighters: the cooldowns are kept, and a
    fighter loses health only to an opponent that is in its hit window
    and still [attacking] when the stage ends. *)
Lemma resolveMelee_effects env ua ub w :
  exists a' b',
    (resolveMelee env [ua; ub] w).1 = [a'; b']
    /\ Fighter.attackCooldown a' = Fighter.attackCooldown ua
    /\ Fighter.attackCooldown b' = Fighter.attackCooldown ub
    /\ (Fighter.health b' = Fighter.health ub
        \/ (Fighter.attackCooldown ua = 29 /\ Fighter.state a' = attacking
            /\ Fighter.health b'
               = Z.max 0 (Fighter.health ub - ATTACK_DAMAGE)))
    /\ (Fighter.health a' = Fighter.health ua
        \/ (Fighter.attackCooldown ub = 29 /\ Fighter.state b' = attacking
            /\ Fighter.health a'
               = Z.max 0 (Fighter.health ua - ATTACK_DAMAGE)))
    /\ (Fighter.state a' = attacking -> Fighter.state ua = attacking)
    /\ (Fighter.state b' = attacking -> Fighter.state ub = attacking).
Proof.
  rewrite resolveMelee_pair. cbv zeta.
  destruct (attackLands ua ub) eqn:L1.
  - (* fighter 1 reaches handleAttack: fighter 2 cannot be attacking *)
    destruct (handleAttack_fighters env ua ub w)
      as (C1 & C2 & S1 & H1 & S2 & H2).
    set (r1 := handleAttack env ua ub w) in *.
    rewrite (not_attacking_misses r1.1.2 r1.1.1 S2). cbn [fst snd].
    exists r1.1.1, r1.1.2. split; [reflexivity|].
    split; [exact C1|]. split; [exact C2|].
    apply attackLands_window, inHitWindow_state in L1 as [L1s L1c].
    split; [destruct (blocks ua ub); [left; exact H2|];
            right; split; [exact L1c|]; split; [congruence | exact H2]|].
    split; [left; exact H1|].
    split; [congruence | intros X; contradiction].
  - cbn [fst snd]. destruct (attackLands ub ua) eqn:L2.
    + destruct (handleAttack_fighters env ub ua w)
        as (C1 & C2 & S1 & H1 & S2 & H2).
      set (r2 := handleAttack env ub ua w) in *.
      exists r2.1.2, r2.1.1. split; [reflexivity|].
      split; [exact C2|]. split; [exact C1|].
      apply attackLands_window, inHitWindow_state in L2 as [L2s L2c].
      split; [left; exact H1|].
      split; [destruct (blocks ub ua); [left; exact H2|];
              right; split; [exact L2c|]; split; [congruence | exact H2]|].
      split; [intros X; contradiction | congruence].
    + cbn [fst snd]. exists ua, ub.
      split; [reflexivity|]. split; [reflexivity|]. split; [reflexivity|].
      split; [left; reflexivity|]. split; [left; reflexivity|].
      split; intros X; exact X.
Qed.

Lemma filterProjectile_cells env p fs w :
  cells (filterProjectile env p fs w).2 = cells w.
Proof.
  unfold filterProjectile.
  destruct (list_find _ fs) as [[i t]|]; [|reflexivity].
  destruct (checkCollision _ _); [|reflexivity].
  unfold projectileCollides. destruct (decide _); reflexivity.
Qed.

Lemma filterProjectiles_cells env ps : forall fs w,
  cells (filterProjectiles env ps fs w).2 = cells w.
Proof.
  induction ps as [|p ps IH]; intros fs w; [reflexivity|].
  rewrite filterProjectiles_cons. cbv zeta. cbn [snd].
  rewrite IH. apply filterProjectile_cells.
Qed.

(** The fighters and the round do not depend on what has been queued:
    the melee reads neither the projectiles nor the particles. *)
Lemma verdict_createParticles env x y color count w :
  verdict (createParticles env x y color count w) = verdict w.
Proof. reflexivity. Qed.

Lemma verdict_creditWin a w w' :
  verdict w = verdict w' -> verdict (creditWin a w) = verdict (creditWin a w').
Proof.
  destruct w, w'. unfold verdict, creditWin. cbn. intros [= -> -> -> ->].
  destruct (decide _); reflexivity.
Qed.

Lemma handleAttack_verdict env a d w w' :
  verdict w = verdict w' ->
  (handleAttack env a d w).1 = (handleAttack env a d w').1
  /\ verdict (handleAttack env a d w).2 = verdict (handleAttack env a d w').2.
Proof.
  intros V. unfold handleAttack. destruct (blocks a d).
  - split; [reflexivity|]. cbn [snd]. rewrite !verdict_createParticles.
    exact V.
  - cbv zeta. destruct (decide (Fighter.health _ <= 0)).
    + split; [reflexivity|]. cbn [snd]. apply verdict_creditWin.
      rewrite !verdict_createParticles. exact V.
    + split; [reflexivity|]. cbn [snd]. rewrite !verdict_createParticles.
      exact V.
Qed.

Lemma resolveMelee_verdict env fs w w' :
  verdict w = verdict w' ->
  (resolveMelee env fs w).1 = (resolveMelee env fs w').1
  /\ verdict (resolveMelee env fs w).2 = verdict (resolveMelee env fs w').2.
Proof.
  intros V.
  destruct fs as [|f1 [|f2 [|f3 fs]]]; try (split; [reflexivity | exact V]).
  rewrite !resolveMelee_pair. cbv zeta.
  assert (S1 : forall a b (w1 w1' : World.t), verdict w1 = verdict w1' ->
    let r := if attackLands a b then handleAttack env a b w1 else (a, b, w1) in
    let r' := if attackLands a b then handleAttack env a b w1' else (a, b, w1') in
    r.1 = r'.1 /\ verdict r.2 = verdict r'.2).
  { intros a b w1 w1' V1. cbv zeta. destruct (attackLands a b).
    - apply handleAttack_verdict, V1.
    - split; [reflexivity | exact V1]. }
  destruct (S1 f1 f2 w w' V) as [E1 V1]. cbv zeta in E1, V1.
  revert E1 V1.
  generalize (if attackLands f1 f2 then handleAttack env f1 f2 w
              else (f1, f2, w)).
  generalize (if attackLands f1 f2 then handleAttack env f1 f2 w'
              else (f1, f2, w')).
  intros [[a' b'] w1'] [[a b] w1] E1 V1. cbn [fst snd] in *.
  injection E1 as -> ->.
  destruct (S1 b' a' w1 w1' V1) as [E2 V2]. cbv zeta in E2, V2.
  revert E2 V2.
  generalize (if attackLands b' a' then handleAttack env b' a' w1
              else (b', a', w1)).
  generalize (if attackLands b' a' then handleAttack env b' a' w1'
              else (b', a', w1')).
  intros [[b2' a2'] w2'] [[b2 a2] w2] E2 V2. cbn [fst snd] in *.
  injection E2 as -> ->. split; [reflexivity | exact V2].
Qed.

Lemma updateFighters_emptyQueues env keys w :
  (updateFighters env keys (emptyQueues w)).1 = (updateFighters env keys w).1
  /\ verdict (updateFighters env keys (emptyQueues w)).2
     = verdict (updateFighters env keys w).2.
Proof.
  unfold updateFighters. cbv zeta.
  change (World.fighters (emptyQueues w)) with (World.fighters w).
  apply resolveMelee_verdict. reflexivity.
Qed.

Lemma outcome_updateGame env keys w :
  World.gameState w = playing ->
  outcome (updateGame env keys w) =
  outcome (World.set_fighters (updateFighters env keys w).1
             (updateFighters env keys w).2).
Proof.
  intros Hp. rewrite (updateGame_playing env keys w Hp). cbv zeta.
  destruct (updateFighters_emptyQueues env keys w) as [E1 E2].
  revert E1 E2.
  generalize (updateFighters env keys (emptyQueues w)).
  generalize (updateFighters env keys w).
  intros [nf wa] [nf0 wb] E1 E2. cbn [fst snd] in *. subst nf0.
  generalize (filterProjectiles_cells env (World.projectiles w)
                (World.fighters w) (World.set_fighters nf wb)).
  generalize (filterProjectiles env (World.projectiles w)
                (World.fighters w) (World.set_fighters nf wb)).
  intros [[kept fs] w2] E. unfold cells in E. unfold outcome.
  unfold verdict in E2. cbn [fst snd] in *.
  change (World.gameState (World.set_fighters nf wb))
    with (World.gameState wb) in E.
  change (World.winner (World.set_fighters nf wb))
    with (World.winner wb) in E.
  change (World.scores (World.set_fighters nf wb))
    with (World.scores wb) in E.
  change (World.round (World.set_fighters nf wb))
    with (World.round wb) in E.
  change (World.fighters (World.set_fighters nf wb)) with nf in E.
  change (World.gameState (World.set_fighters nf wa))
    with (World.gameState wa).
  change (World.winner (World.set_fighters nf wa))
    with (World.winner wa).
  change (World.scores (World.set_fighters nf wa))
    with (World.scores wa).
  change (World.round (World.set_fighters nf wa))
    with (World.round wa).
  change (World.fighters (World.set_fighters nf wa)) with nf.
  change (World.gameState (World.set_particles _ (World.set_projectiles _ w2)))
    with (World.gameState w2).
  change (World.winner (World.set_particles _ (World.set_projectiles _ w2)))
    with (World.winner w2).
  change (World.scores (World.set_particles _ (World.set_projectiles _ w2)))
    with (World.scores w2).
  change (World.round (World.set_particles _ (World.set_projectiles _ w2)))
    with (World.round w2).
  change (World.fighters (World.set_particles _ (World.set_projectiles _ w2)))
    with (World.fighters w2).
  congruence.
Qed.

Lemma fighters_updateGame env keys w :
  World.gameState w = playing ->
  World.fighters (updateGame env keys w) = (updateFighters env keys w).1.
Proof.
  intros Hp. generalize (outcome_updateGame env keys w Hp).
  generalize (updateGame env keys w). intros w' E.
  unfold outcome in E. cbn in E. congruence.
Qed.

(** One tick of a world with two fighters. *)
Lemma tick_two env keys w a b :
  World.gameState w = playing -> World.fighters w = [a; b] ->
  exists a' b',
    World.fighters (updateGame env keys w) = [a'; b']
    /\ Fighter.attackCooldown a'
       = Fighter.attackCooldown (updateFighter env keys a).1
    /\ Fighter.attackCooldown b'
       = Fighter.attackCooldown (updateFighter env keys b).1
    /\ (Fighter.health b' = Fighter.health b
        \/ (Fighter.attackCooldown a' = 29 /\ Fighter.state a' = attacking
            /\ Fighter.health b'
               = Z.max 0 (Fighter.health b - ATTACK_DAMAGE)))
    /\ (Fighter.health a' = Fighter.health a
        \/ (Fighter.attackCooldown b' = 29 /\ Fighter.state b' = attacking
            /\ Fighter.health a'
               = Z.max 0 (Fighter.health a - ATTACK_DAMAGE)))
    /\ (Fighter.state a' = attacking ->
        Fighter.state (updateFighter env keys a).1 = attacking)
    /\ (Fighter.state b' = attacking ->
        Fighter.state (updateFighter env keys b).1 = attacking).
Proof.
  intros Hp Hf. rewrite (fighters_updateGame env keys w Hp).
  unfold updateFighters. cbv zeta. rewrite Hf. cbn [map].
  set (w' := World.set_projectiles _ w).
  destruct (resolveMelee_effects env (updateFighter env keys a).1
              (updateFighter env keys b).1 w')
    as (a' & b' & E & Ca & Cb & Hb & Ha & Sa & Sb).
  rewrite !updateFighter_health in Hb, Ha.
  exists a', b'. split; [exact E|]. split; [exact Ca|]. split; [exact Cb|].
  rewrite Ca, Cb. repeat split; assumption.
Qed.

Lemma run_not_playing inputs : forall w,
  World.gameState w <> playing -> run inputs w = w.
Proof.
  induction inputs as [|[env keys] rest IH]; intros w Hp; [reflexivity|].
  cbn [run]. rewrite (updateGame_not_playing env keys w Hp). apply IH, Hp.
Qed.

Lemma run_app inputs1 inputs2 w :
  run (inputs1 ++ inputs2) w = run inputs2 (run inputs1 w).
Proof.
  revert w. induction inputs1 as [|[env keys] rest IH]; intros w;
    [reflexivity|].
  cbn [run app]. apply IH.
Qed.

(** ** C1: one application of damage per activation *)

Lemma attackCooldown_at_attack c keys f :
  Fighter.attackCooldown (jumpInput c keys (moveInput c keys (beforeInput f)))
  = countDown (Fighter.attackCooldown f).
Proof.
  rewrite <- attackCooldown_beforeInput.
  generalize (clocks_moveInput c keys (beforeInput f)).
  generalize (clocks_jumpInput c keys (moveInput c keys (beforeInput f))).
  generalize (jumpInput c keys (moveInput c keys (beforeInput f))).
  generalize (moveInput c keys (beforeInput f)).
  intros g1 g2 H1 H2. unfold clocks in *. congruence.
Qed.

Lemma no_activation keys f :
  2 <= Fighter.attackCooldown f -> attackActivates keys f = false.
Proof.
  intros H. unfold attackActivates. cbv zeta.
  destruct (notStunned (beforeInput f)); [|reflexivity]. cbn [andb].
  unfold attackFires. rewrite attackCooldown_at_attack.
  destruct (has _ _); [|reflexivity]. cbn [andb].
  apply bool_decide_eq_false. unfold countDown. destruct (decide _); lia.
Qed.

(** One tick, seen from fighter [i] and its opponent [j]. *)
Lemma tick_index env keys w i j f :
  World.gameState w = playing -> length (World.fighters w) = 2%nat ->
  opponents i j -> World.fighters w !! i = Some f ->
  let w' := updateGame env keys w in
  length (World.fighters w') = 2%nat
  /\ cooldownOf w' i
     = Some (Fighter.attackCooldown (updateFighter env keys f).1)
  /\ (healthOf w' j = healthOf w j
      \/ (cooldownOf w' i = Some 29 /\ stateOf w' i = Some attacking
          /\ exists h, healthOf w j = Some h
                       /\ healthOf w' j = Some (Z.max 0 (h - ATTACK_DAMAGE))))
  /\ (stateOf w' i = Some attacking ->
      Fighter.state (updateFighter env keys f).1 = attacking).
Proof.
  intros Hp Hl Ho Hi. cbv zeta.
  destruct (World.fighters w) as [|a [|b [|x l]]] eqn:Hf; try discriminate Hl.
  destruct (tick_two env keys w a b Hp Hf)
    as (a' & b' & E & Ca & Cb & Hb & Ha & Sa & Sb).
  unfold cooldownOf, healthOf, stateOf. rewrite E, Hf.
  split; [reflexivity|].
  destruct Ho as [[-> ->]|[-> ->]]; cbn in Hi; injection Hi as <-; cbn.
  - split; [congruence|]. split; [|intros X; apply Sa; congruence].
    destruct Hb as [Hb|(Hc & Hs & Hh)]; [left; congruence|].
    right. split; [congruence|]. split; [congruence|].
    exists (Fighter.health b). split; [reflexivity | congruence].
  - split; [congruence|]. split; [|intros X; apply Sb; congruence].
    destruct Ha as [Ha|(Hc & Hs & Hh)]; [left; congruence|].
    right. split; [congruence|]. split; [congruence|].
    exists (Fighter.health a). split; [reflexivity | congruence].
Qed.

Lemma length_fighters_updateGame env keys w :
  length (World.fighters w) = 2%nat ->
  length (World.fighters (updateGame env keys w)) = 2%nat.
Proof.
  intros Hl.
  destruct (decide (World.gameState w = playing)) as [Hp|Hp];
    [|rewrite updateGame_not_playing; assumption].
  destruct (World.fighters w) as [|a [|b [|x l]]] eqn:Hf; try discriminate Hl.
  destruct (tick_two env keys w a b Hp Hf) as (a' & b' & E & _).
  rewrite E. reflexivity.
Qed.

(** While the cooldown of fighter [i] is at least 2 at the start of every
    tick, it goes down by one on every tick that is played. *)
Lemma cooldown_run i j inputs : forall w c,
  length (World.fighters w) = 2%nat -> opponents i j ->
  cooldownOf w i = Some c -> Z.of_nat (length inputs) + 1 <= c ->
  let wk := run inputs w in
  length (World.fighters wk) = 2%nat
  /\ exists c', cooldownOf wk i = Some c'
                /\ c - Z.of_nat (length inputs) <= c' <= c
                /\ (World.gameState wk = playing
                    -> c' = c - Z.of_nat (length inputs)).
Proof.
  induction inputs as [|[env keys] rest IH]; intros w c Hl Ho Hc Hk; cbv zeta.
  - cbn. split; [exact Hl|]. exists c. split; [exact Hc|]. split; lia.
  - cbn [run]. cbn [length] in *.
    destruct (decide (World.gameState w = playing)) as [Hp|Hp].
    + unfold cooldownOf in Hc.
      destruct (World.fighters w !! i) as [f|] eqn:Hi; [|discriminate Hc].
      cbn in Hc. injection Hc as Hc.
      destruct (tick_index env keys w i j f Hp Hl Ho Hi) as (Hl' & Hc' & _ & _).
      rewrite attackCooldown_updateFighter, no_activation in Hc' by lia.
      unfold countDown in Hc'. destruct (decide _) as [_|n]; [|lia].
      destruct (IH _ (Fighter.attackCooldown f - 1) Hl' Ho Hc')
        as (L & c' & E & R & P); [lia|].
      split; [exact L|]. exists c'. split; [exact E|]. split; [lia|].
      intros Q. specialize (P Q). lia.
    + rewrite (updateGame_not_playing env keys w Hp).
      rewrite (run_not_playing rest w Hp).
      split; [exact Hl|]. exists c. split; [exact Hc|]. split; [lia|].
      intros Q. contradiction.
Qed.

Lemma activates_spec keys w i :
  activates keys w i = true ->
  World.gameState w = playing
  /\ exists f, World.fighters w !! i = Some f /\ attackActivates keys f = true.
Proof.
  unfold activates. intros H. apply andb_true_iff in H as [H1 H2].
  apply bool_decide_eq_true in H1. split; [exact H1|].
  destruct (World.fighters w !! i) as [f|]; [|discriminate H2].
  exists f. split; [reflexivity | exact H2].
Qed.

Lemma activates_blocked keys w i c :
  cooldownOf w i = Some c -> 2 <= c -> activates keys w i = false.
Proof.
  unfold activates, cooldownOf. intros Hc H.
  destruct (World.fighters w !! i) as [f|]; [|apply andb_false_r].
  cbn in Hc. injection Hc as Hc.
  rewrite no_activation by lia. apply andb_false_r.
Qed.

(** Once the cooldown of fighter [i] is below 30 the opponent loses no
    health until fighter [i] activates an attack again. *)
Lemma settled_tick i j env keys w c :
  length (World.fighters w) = 2%nat -> opponents i j ->
  cooldownOf w i = Some c -> c <= 29 ->
  healthOf (updateGame env keys w) j = healthOf w j
  /\ length (World.fighters (updateGame env keys w)) = 2%nat
  /\ (activates keys w i = false ->
      exists c', cooldownOf (updateGame env keys w) i = Some c' /\ c' <= 29).
Proof.
  intros Hl Ho Hc Hle.
  destruct (decide (World.gameState w = playing)) as [Hp|Hp].
  - unfold cooldownOf in Hc.
    destruct (World.fighters w !! i) as [f|] eqn:Hi; [|discriminate Hc].
    cbn in Hc. injection Hc as Hc.
    destruct (tick_index env keys w i j f Hp Hl Ho Hi) as (Hl' & Hc' & Hh & _).
    rewrite attackCooldown_updateFighter in Hc'.
    split; [|split; [exact Hl'|]].
    + destruct Hh as [E|(C & _)]; [exact E|]. rewrite Hc' in C.
      destruct (attackActivates keys f); [discriminate C|].
      injection C as C. unfold countDown in C. destruct (decide _); lia.
    + intros Ha. unfold activates in Ha. rewrite Hi in Ha.
      rewrite (bool_decide_eq_true_2 _ Hp), andb_true_l in Ha.
      rewrite Ha in Hc'. eexists. split; [exact Hc'|].
      unfold countDown. destruct (decide _); lia.
  - rewrite (updateGame_not_playing env keys w Hp).
    split; [reflexivity|]. split; [exact Hl|].
    intros _. exists c. split; assumption.
Qed.

Lemma settled_run i j inputs : forall w c,
  length (World.fighters w) = 2%nat -> opponents i j ->
  cooldownOf w i = Some c -> c <= 29 -> quiet i inputs w ->
  forall env' keys',
    healthOf (updateGame env' keys' (run inputs w)) j
    = healthOf (run inputs w) j.
Proof.
  induction inputs as [|[env keys] rest IH]; intros w c Hl Ho Hc Hle Hq env' keys'.
  - cbn [run]. apply (settled_tick i j env' keys' w c Hl Ho Hc Hle).
  - cbn [run]. destruct Hq as [Ha Hq].
    destruct (settled_tick i j env keys w c Hl Ho Hc Hle) as (_ & Hl' & Hn).
    destruct (Hn Ha) as (c' & Hc' & Hle').
    exact (IH _ c' Hl' Ho Hc' Hle' Hq env' keys').
Qed.

Lemma quiet_after_activation i j w1 inputs env' keys' :
  length (World.fighters w1) = 2%nat -> opponents i j ->
  cooldownOf w1 i = Some 30 ->
  inputs <> [] -> quiet i inputs w1 ->
  healthOf (updateGame env' keys' (run inputs w1)) j
  = healthOf (run inputs w1) j.
Proof.
  intros Hl Ho Hc Hne Hq.
  destruct inputs as [|[env keys] rest]; [contradiction|].
  cbn [run]. destruct Hq as [_ Hq].
  destruct (decide (World.gameState w1 = playing)) as [Hp|Hp].
  - unfold cooldownOf in Hc.
    destruct (World.fighters w1 !! i) as [f|] eqn:Hi; [|discriminate Hc].
    cbn in Hc. injection Hc as Hc.
    destruct (tick_index env keys w1 i j f Hp Hl Ho Hi) as (Hl' & Hc' & _ & _).
    rewrite attackCooldown_updateFighter, no_activation in Hc' by lia.
    apply (settled_run i j rest _ _ Hl' Ho Hc'); [|exact Hq].
    unfold countDown. destruct (decide _); lia.
  - rewrite (updateGame_not_playing env keys w1 Hp).
    rewrite (run_not_playing rest w1 Hp).
    rewrite (updateGame_not_playing env' keys' w1 Hp). reflexivity.
Qed.

(** The 29 ticks that follow a world in which the cooldown of fighter
    [i] is 30. *)
Lemma hit_window_after_activation i j w1 :
  length (World.fighters w1) = 2%nat ->
  opponents i j ->
  cooldownOf w1 i = Some 30 ->
  forall inputs env' keys',
    (length inputs <= 28)%nat ->
    let wk := run inputs w1 in
    let wk' := updateGame env' keys' wk in
    activates keys' wk i = false
    /\ (World.gameState wk = playing ->
        cooldownOf wk' i = Some (29 - Z.of_nat (length inputs)))
    /\ (inputs <> [] -> healthOf wk' j = healthOf wk j)
    /\ (healthOf wk' j <> healthOf wk j ->
        inputs = []
        /\ stateOf wk' i = Some attacking
        /\ cooldownOf wk' i = Some 29
        /\ exists h, healthOf wk j = Some h
                     /\ healthOf wk' j = Some (Z.max 0 (h - ATTACK_DAMAGE))).
Proof.
  intros Hl1 Ho Hc1 inputs env' keys' Hk. cbv zeta.
  destruct (cooldown_run i j inputs w1 30 Hl1 Ho Hc1)
    as (Hlk & c' & Hck & Hr & Hpk); [lia|].
  set (wk := run inputs w1) in *.
  split; [apply (activates_blocked keys' wk i c' Hck); lia|].
  assert (T : World.gameState wk = playing ->
              cooldownOf (updateGame env' keys' wk) i
              = Some (29 - Z.of_nat (length inputs))
              /\ (healthOf (updateGame env' keys' wk) j = healthOf wk j
                  \/ (cooldownOf (updateGame env' keys' wk) i = Some 29
                      /\ stateOf (updateGame env' keys' wk) i = Some attacking
                      /\ exists h, healthOf wk j = Some h
                           /\ healthOf (updateGame env' keys' wk) j
                              = Some (Z.max 0 (h - ATTACK_DAMAGE))))).
  { intros Hpl. specialize (Hpk Hpl). subst c'.
    unfold cooldownOf in Hck.
    destruct (World.fighters wk !! i) as [g|] eqn:Hg; [|discriminate Hck].
    cbn in Hck. injection Hck as Hck.
    destruct (tick_index env' keys' wk i j g Hpl Hlk Ho Hg)
      as (_ & Hc & Hh & _).
    rewrite attackCooldown_updateFighter, no_activation in Hc by lia.
    unfold countDown in Hc. destruct (decide _) as [_|n]; [|lia].
    rewrite Hck in Hc.
    replace (30 - Z.of_nat (length inputs) - 1)
      with (29 - Z.of_nat (length inputs)) in Hc by lia.
    split; [exact Hc | exact Hh]. }
  assert (D : healthOf (updateGame env' keys' wk) j <> healthOf wk j ->
              inputs = []
              /\ stateOf (updateGame env' keys' wk) i = Some attacking
              /\ cooldownOf (updateGame env' keys' wk) i = Some 29
              /\ exists h, healthOf wk j = Some h
                   /\ healthOf (updateGame env' keys' wk) j
                      = Some (Z.max 0 (h - ATTACK_DAMAGE))).
  { intros Hd.
    destruct (decide (World.gameState wk = playing)) as [Hpl|Hpl];
      [|rewrite updateGame_not_playing in Hd by exact Hpl; contradiction].
    destruct (T Hpl) as [Hc [E|(C & S & X)]]; [contradiction|].
    rewrite Hc in C. injection C as C.
    split; [destruct inputs; [reflexivity | cbn [length] in C; lia]|].
    split; [exact S|]. split; [rewrite Hc; f_equal; exact C | exact X]. }
  split; [intros Hpl; exact (proj1 (T Hpl))|].
  split; [|exact D].
  intros Hne.
  destruct (decide (healthOf (updateGame env' keys' wk) j = healthOf wk j))
    as [E|N]; [exact E|].
  destruct (D N) as [E _]. contradiction.
Qed.

(** C1.  Let fighter [i] activate an attack on a tick (the attack key is
    read with a cooldown of 0, which sets the cooldown to 30).  On that
    tick the opponent [j] loses no health.  On each of the next 29 ticks,
    whatever keys are held, the attack cannot be activated again and the
    cooldown only counts down (it is [29 - k] after the tick that follows
    [k] other ticks); the opponent's health can change on the first of
    these ticks only, when the cooldown is 29 and the state is still
    [attacking], and then by one application of the melee damage.  However
    many ticks follow, it does not change again before fighter [i]
    activates another attack.  For any fighter, a cooldown that is still
    positive when the attack key is read (2 or more at the start of the
    tick) is decremented and never reset, whatever keys are held. *)
Theorem attack_damage_once_per_activation env keys w i j :
  length (World.fighters w) = 2%nat ->
  opponents i j ->
  activates keys w i = true ->
  let w1 := updateGame env keys w in
  cooldownOf w1 i = Some 30
  /\ healthOf w1 j = healthOf w j
  /\ (forall inputs env' keys',
        (length inputs <= 28)%nat ->
        let wk := run inputs w1 in
        let wk' := updateGame env' keys' wk in
        activates keys' wk i = false
        /\ (World.gameState wk = playing ->
            cooldownOf wk' i = Some (29 - Z.of_nat (length inputs)))
        /\ (inputs <> [] -> healthOf wk' j = healthOf wk j)
        /\ (healthOf wk' j <> healthOf wk j ->
            inputs = []
            /\ stateOf wk' i = Some attacking
            /\ cooldownOf wk' i = Some 29
            /\ exists h, healthOf wk j = Some h
                         /\ healthOf wk' j
                            = Some (Z.max 0 (h - ATTACK_DAMAGE))))
  /\ (forall inputs env' keys',
        inputs <> [] -> quiet i inputs w1 ->
        healthOf (updateGame env' keys' (run inputs w1)) j
        = healthOf (run inputs w1) j)
  /\ (forall env' keys' g,
        2 <= Fighter.attackCooldown g ->
        Fighter.attackCooldown (updateFighter env' keys' g).1
        = Fighter.attackCooldown g - 1).
Proof.
  intros Hl Ho Ha. cbv zeta.
  apply activates_spec in Ha as (Hp & f & Hi & Ha).
  destruct (tick_index env keys w i j f Hp Hl Ho Hi)
    as (Hl1 & Hc1 & Hh1 & _).
  rewrite attackCooldown_updateFighter, Ha in Hc1.
  split; [exact Hc1|]. split.
  { destruct Hh1 as [E|(C & _)]; [exact E|]. rewrite Hc1 in C. discriminate C. }
  split; [exact (hit_window_after_activation i j _ Hl1 Ho Hc1)|].
  split.
  - intros inputs env' keys' Hne Hq.
    exact (quiet_after_activation i j _ inputs env' keys' Hl1 Ho Hc1 Hne Hq).
  - intros env' keys' g Hg.
    rewrite attackCooldown_updateFighter, no_activation by exact Hg.
    unfold countDown. destruct (decide _); lia.
Qed.

Lemma attack_damage_once_per_activation_witness :
  (length (World.fighters duelWorld) = 2%nat
   /\ opponents 0 1
   /\ activates {["f"]} duelWorld 0 = true)
  /\ cooldownOf (updateGame env0 {["f"]} duelWorld) 0 = Some 30
  /\ healthOf (updateGame env0 {["f"]} duelWorld) 1 = healthOf duelWorld 1
  /\ activates {["f"]} (updateGame env0 {["f"]} duelWorld) 0 = false.
Proof.
  assert (H1 : length (World.fighters duelWorld) = 2%nat) by reflexivity.
  assert (H2 : opponents 0 1) by (left; split; reflexivity).
  assert (H3 : activates {["f"]} duelWorld 0 = true)
    by (vm_compute; reflexivity).
  destruct (attack_damage_once_per_activation env0 {["f"]} duelWorld 0 1
              H1 H2 H3) as (A & B & C & _ & _).
  destruct (C [] env0 {["f"]} (Nat.le_0_l 28)) as (C1 & _).
  split; [split; [exact H1 | split; [exact H2 | exact H3]]|].
  split; [exact A|]. split; [exact B | exact C1].
Defined.

(** The first scenario of the specification: the hit lands on the tick
    after the activation, once, and not again while the key is held. *)
Example scenario_melee_hit :
  let w2 := run [(env0, {["f"]}); (env0, {["f"]})] duelWorld in
  let w9 := run (repeat (env0, {["f"]}) 9) duelWorld in
  healthOf duelWorld 1 = Some 100
  /\ healthOf (updateGame env0 {["f"]} duelWorld) 1 = Some 100
  /\ healthOf w2 1 = Some 85
  /\ (Fighter.hitStun <$> World.fighters w2 !! 1%nat) = Some 20
  /\ stateOf w2 1 = Some hit
  /\ (Fighter.combo <$> World.fighters w2 !! 0%nat) = Some 1
  /\ healthOf w9 1 = Some 85.
Proof. vm_compute. repeat split; reflexivity. Qed.

(** The second scenario: the same attack against a fighter that blocks
    face to face costs it 5 energy and no health. *)
Example scenario_melee_blocked :
  let w2 := run [(env0, {["f"]}); (env0, {["f"]})] blockedDuel in
  healthOf w2 1 = Some 100
  /\ (Fighter.blockStun <$> World.fighters w2 !! 1%nat) = Some 15
  /\ (Fighter.energy <$> World.fighters w2 !! 1%nat) = Some 95%Q
  /\ stateOf w2 1 = Some blocking
  /\ (Fighter.combo <$> World.fighters w2 !! 0%nat) = Some 0.
Proof. vm_compute. repeat split; reflexivity. Qed.

(** The third scenario: a projectile created at x = 260 with velocity 8
    is at x = 340 after 10 ticks. *)
Example scenario_projectile_travel :
  map Projectile.x (World.projectiles (updateGame env0 {["g"]} roundStart))
  = [260%Q]
  /\ map Projectile.x
       (World.projectiles
          (run ((env0, {["g"]}) :: repeat (env0, ∅) 10) roundStart))
     = [340%Q].
Proof. vm_compute. split; reflexivity. Qed.

(** ** C10: fighter 1 is resolved first *)

(** C10.  When, after their updates, both fighters are in their hit
    window with the opponent in range, fighter 1 is resolved first: its
    hit is a full hit (an attacking fighter 2 does not block), fighter 2
    loses the melee damage and becomes [hit], and the test of fighter 2's
    attack then fails, so fighter 1 loses no health on that tick. *)
Theorem simultaneous_attacks_favour_first env keys w a b :
  World.gameState w = playing ->
  World.fighters w = [a; b] ->
  let ua := (updateFighter env keys a).1 in
  let ub := (updateFighter env keys b).1 in
  attackLands ua ub = true ->
  attackLands ub ua = true ->
  let w' := updateGame env keys w in
  healthOf w' 1 = Some (Z.max 0 (Fighter.health b - ATTACK_DAMAGE))
  /\ stateOf w' 1 = Some hit
  /\ healthOf w' 0 = Some (Fighter.health a)
  /\ stateOf w' 0 = Some attacking.
Proof.
  intros Hp Hf. cbv zeta. intros L1 L2.
  unfold healthOf, stateOf.
  rewrite (fighters_updateGame env keys w Hp).
  unfold updateFighters. cbv zeta. rewrite Hf. cbn [map].
  rewrite resolveMelee_pair. cbv zeta. rewrite L1.
  set (w0 := World.set_projectiles _ w).
  rewrite <- (updateFighter_health env keys a).
  rewrite <- (updateFighter_health env keys b).
  apply attackLands_window, inHitWindow_state in L1 as [S1 _].
  apply attackLands_window, inHitWindow_state in L2 as [S2 _].
  revert S1 S2.
  generalize (updateFighter env keys a).1 (updateFighter env keys b).1.
  intros ua ub S1 S2.
  assert (B : blocks ua ub = false).
  { unfold blocks. rewrite S2. reflexivity. }
  destruct (handleAttack_fighters env ua ub w0)
    as (_ & _ & T1 & H1 & T2 & H2).
  rewrite B in H2.
  assert (T3 : Fighter.state (handleAttack env ua ub w0).1.2 = hit).
  { unfold handleAttack. rewrite B. destruct (decide _); reflexivity. }
  set (r1 := handleAttack env ua ub w0) in *.
  rewrite (not_attacking_misses r1.1.2 r1.1.1 T2). cbn.
  rewrite H1, H2, T1, T3, S1. repeat split; reflexivity.
Qed.

Lemma simultaneous_attacks_favour_first_witness :
  (World.gameState clashWorld = playing
   /\ World.fighters clashWorld = [clashFirst; clashSecond]
   /\ attackLands (updateFighter env0 ∅ clashFirst).1
        (updateFighter env0 ∅ clashSecond).1 = true
   /\ attackLands (updateFighter env0 ∅ clashSecond).1
        (updateFighter env0 ∅ clashFirst).1 = true)
  /\ healthOf (updateGame env0 ∅ clashWorld) 1 = Some 85
  /\ stateOf (updateGame env0 ∅ clashWorld) 1 = Some hit
  /\ healthOf (updateGame env0 ∅ clashWorld) 0 = Some 100
  /\ stateOf (updateGame env0 ∅ clashWorld) 0 = Some attacking.
Proof.
  assert (H1 : World.gameState clashWorld = playing)
    by (vm_compute; reflexivity).
  assert (H2 : World.fighters clashWorld = [clashFirst; clashSecond])
    by (vm_compute; reflexivity).
  assert (H3 : attackLands (updateFighter env0 ∅ clashFirst).1
                 (updateFighter env0 ∅ clashSecond).1 = true)
    by (vm_compute; reflexivity).
  assert (H4 : attackLands (updateFighter env0 ∅ clashSecond).1
                 (updateFighter env0 ∅ clashFirst).1 = true)
    by (vm_compute; reflexivity).
  split; [repeat split; assumption|].
  exact (simultaneous_attacks_favour_first env0 ∅ clashWorld
           clashFirst clashSecond H1 H2 H3 H4).
Defined.

(** ** C9: block is read last *)

Lemma state_blockInput_held c keys f :
  has (keyBlock c) keys = true -> Fighter.state (blockInput c keys f) = blocking.
Proof. intros H. unfold blockInput. rewrite H. reflexivity. Qed.

Lemma updateFighter_blocking env keys f :
  notStunned (beforeInput f) = true ->
  has (keyBlock (controls (Fighter.id f))) keys = true ->
  Fighter.state (updateFighter env keys f).1 = blocking.
Proof.
  intros Hn Hb. rewrite (updateFighter_free env keys f Hn). cbv zeta.
  set (g := (specialInput _ _ _ _).1).
  assert (E : Fighter.state (blockInput (controls (Fighter.id f)) keys g)
              = blocking) by (apply state_blockInput_held, Hb).
  rewrite state_applyPhysics; rewrite E; [reflexivity | discriminate].
Qed.

Lemma calm_beforeInput f : calm f -> calm (beforeInput f).
Proof.
  unfold calm, beforeInput. generalize (kinematics_beforeHit f).
  generalize (regenerateEnergy (updateTimers (updateAnimation f))).
  intros g E H. unfold kinematics in E.
  assert (E' : Fighter.state g = Fighter.state f) by congruence.
  unfold resetHit. destruct (_ && _); simpl; congruence.
Qed.

Lemma calm_moveInput c keys f : calm f -> calm (moveInput c keys f).
Proof.
  unfold calm, moveInput, applyFriction. intros H.
  destruct (movesLeft c keys f); [simpl; discriminate|].
  destruct (movesRight c keys f); [simpl; discriminate|].
  cbv zeta. destruct (decide _); [|exact H].
  destruct (decide _); [simpl; discriminate | exact H].
Qed.

Lemma calm_jumpInput c keys f : calm f -> calm (jumpInput c keys f).
Proof.
  unfold calm, jumpInput. intros H.
  destruct (_ && _); [simpl; discriminate | exact H].
Qed.

Lemma calm_specialInput env c keys f :
  calm f -> calm (specialInput env c keys f).1.
Proof.
  unfold calm, specialInput. intros H.
  destruct (specialFires _ _ _); [simpl; discriminate | exact H].
Qed.

Lemma calm_blockInput c keys f : calm f -> calm (blockInput c keys f).
Proof.
  unfold calm, blockInput. intros H.
  destruct (has _ _); [simpl; discriminate | exact H].
Qed.

Lemma calm_applyPhysics f : calm f -> calm (applyPhysics f).
Proof.
  unfold calm. intros H.
  destruct (decide (Fighter.state f = jumping)) as [E|E].
  - unfold applyPhysics. cbv zeta.
    destruct (Fighter.isGrounded f);
      (destruct (decide (_ <= _)%Q); [|simpl; exact H];
       destruct (decide _); simpl; [discriminate | exact H]).
  - rewrite state_applyPhysics; assumption.
Qed.

Lemma calm_updateFighter env keys f :
  attackActivates keys f = false -> calm f ->
  calm (updateFighter env keys f).1.
Proof.
  intros Ha Hc. rewrite updateFighter_fst, handleInput_fst.
  apply calm_applyPhysics. apply calm_beforeInput in Hc.
  revert Ha Hc. unfold attackActivates. cbv zeta.
  generalize (beforeInput f). intros fb Ha Hc.
  destruct (notStunned fb); [|exact Hc].
  apply calm_blockInput, calm_specialInput.
  unfold attackInput.
  replace (attackFires (controls (Fighter.id fb)) keys
             (jumpInput (controls (Fighter.id fb)) keys
                (moveInput (controls (Fighter.id fb)) keys fb)))
    with false by (symmetry; exact Ha).
  apply calm_jumpInput, calm_moveInput, Hc.
Qed.

Lemma attackActivates_held keys f :
  notStunned (beforeInput f) = true ->
  has (keyAttack (controls (Fighter.id f))) keys = true ->
  Fighter.attackCooldown f = 0 ->
  attackActivates keys f = true.
Proof.
  intros Hn Hk Hc. unfold attackActivates. cbv zeta.
  rewrite Hn, id_beforeInput. cbn [andb]. unfold attackFires.
  rewrite Hk, attackCooldown_at_attack, Hc. reflexivity.
Qed.

Lemma regenerated_ready f :
  (30 <= Fighter.energy f)%Q -> (30 <= regenerated f)%Q.
Proof.
  intros H. unfold regenerated. destruct (decide _) as [L|]; [|exact H].
  apply Q.min_glb; lra.
Qed.

Lemma at_special keys f :
  let c := controls (Fighter.id f) in
  let g :=
    attackInput c keys (jumpInput c keys (moveInput c keys (beforeInput f))) in
  Fighter.energy g = regenerated f
  /\ Fighter.specialCooldown g = countDown (Fighter.specialCooldown f)
  /\ Fighter.id g = Fighter.id f.
Proof.
  cbv zeta. set (c := controls (Fighter.id f)).
  split; [|split].
  - rewrite energy_attackInput, energy_jumpInput, energy_moveInput.
    apply energy_beforeInput.
  - rewrite <- specialCooldown_beforeInput.
    assert (A : forall h, Fighter.specialCooldown (attackInput c keys h)
                          = Fighter.specialCooldown h).
    { intros h. unfold attackInput. destruct (attackFires _ _ _); reflexivity. }
    rewrite A.
    generalize (clocks_moveInput c keys (beforeInput f)).
    generalize (clocks_jumpInput c keys (moveInput c keys (beforeInput f))).
    generalize (jumpInput c keys (moveInput c keys (beforeInput f))).
    generalize (moveInput c keys (beforeInput f)).
    intros g1 g2 H1 H2. unfold clocks in *. congruence.
  - rewrite <- (id_beforeInput f).
    generalize (vitals_moveInput c keys (beforeInput f)).
    generalize (vitals_jumpInput c keys (moveInput c keys (beforeInput f))).
    generalize (vitals_attackInput c keys
                  (jumpInput c keys (moveInput c keys (beforeInput f)))).
    generalize (attackInput c keys
                  (jumpInput c keys (moveInput c keys (beforeInput f)))).
    generalize (jumpInput c keys (moveInput c keys (beforeInput f))).
    generalize (moveInput c keys (beforeInput f)).
    intros g1 g2 g3 H1 H2 H3. unfold vitals in *. congruence.
Qed.

(** The special branch, when its key is held with enough energy and no
    cooldown. *)
Lemma updateFighter_special env keys f :
  notStunned (beforeInput f) = true ->
  has (keySpecial (controls (Fighter.id f))) keys = true ->
  (30 <= Fighter.energy f)%Q ->
  Fighter.specialCooldown f = 0 ->
  Fighter.energy (updateFighter env keys f).1 = (regenerated f - 30)%Q
  /\ Fighter.specialCooldown (updateFighter env keys f).1 = 60
  /\ exists p,
       (updateFighter env keys f).2 = [p]
       /\ Projectile.owner p = Fighter.id f
       /\ Projectile.type p = signature (controls (Fighter.id f))
       /\ regularProjectile p.
Proof.
  intros Hn Hk He Hc.
  rewrite (updateFighter_free env keys f Hn), updateFighter_snd,
    handleInput_snd, Hn, id_beforeInput.
  cbv zeta. destruct (at_special keys f) as (E1 & E2 & E3).
  cbv zeta in E1, E2, E3. set (c := controls (Fighter.id f)) in *.
  revert E1 E2 E3.
  generalize (attackInput c keys
                (jumpInput c keys (moveInput c keys (beforeInput f)))).
  intros g E1 E2 E3.
  assert (F : specialFires c keys g = true).
  { unfold specialFires. rewrite Hk, E1, E2, Hc. cbn [andb].
    apply andb_true_iff. split; [|reflexivity].
    apply bool_decide_eq_true, regenerated_ready, He. }
  unfold specialInput. rewrite F. cbn [fst snd].
  split; [|split].
  - rewrite energy_applyPhysics, energy_blockInput. simpl. rewrite E1.
    reflexivity.
  - assert (P : forall h, Fighter.specialCooldown (applyPhysics h)
                          = Fighter.specialCooldown h).
    { intros h. generalize (clocks_applyPhysics h). generalize (applyPhysics h).
      intros h' H. unfold clocks in H. congruence. }
    assert (B : forall h, Fighter.specialCooldown (blockInput c keys h)
                          = Fighter.specialCooldown h).
    { intros h. unfold blockInput.
      destruct (has (keyBlock c) keys); reflexivity. }
    rewrite P, B. reflexivity.
  - eexists. split; [reflexivity|].
    split; [exact E3|]. split; [reflexivity|].
    apply regular_createProjectile.
Qed.

(** C9.  On a tick whose input block runs for a fighter that holds its
    block key, the state after the input block and after the update is
    [blocking].  If the attack key is held too, with a cooldown of 0, the
    cooldown is still set to 30, and this activation deals no damage: the
    opponent's health is the same after the tick, after each of the next
    29 ticks whatever keys are held, and after every later tick that
    comes before another activation.  If the special key is held
    too, with at least 30 energy and a cooldown of 0, the 30 energy is
    deducted, the cooldown is set to 60 and the projectile is created. *)
Theorem block_overrides_state_not_effects env keys w i j f :
  World.gameState w = playing ->
  length (World.fighters w) = 2%nat ->
  opponents i j ->
  World.fighters w !! i = Some f ->
  notStunned (beforeInput f) = true ->
  has (keyBlock (controls (Fighter.id f))) keys = true ->
  let c := controls (Fighter.id f) in
  let f' := (updateFighter env keys f).1 in
  let w1 := updateGame env keys w in
  Fighter.state f' = blocking
  /\ (has (keyAttack c) keys = true -> Fighter.attackCooldown f = 0 ->
      Fighter.attackCooldown f' = 30
      /\ cooldownOf w1 i = Some 30
      /\ healthOf w1 j = healthOf w j
      /\ (forall inputs env' keys',
            (length inputs <= 28)%nat ->
            healthOf (updateGame env' keys' (run inputs w1)) j
            = healthOf (run inputs w1) j)
      /\ (forall inputs env' keys',
            quiet i inputs w1 ->
            healthOf (updateGame env' keys' (run inputs w1)) j
            = healthOf (run inputs w1) j))
  /\ (has (keySpecial c) keys = true -> (30 <= Fighter.energy f)%Q ->
      Fighter.specialCooldown f = 0 ->
      Fighter.energy f' = (regenerated f - 30)%Q
      /\ Fighter.specialCooldown f' = 60
      /\ exists p,
           (updateFighter env keys f).2 = [p]
           /\ Projectile.owner p = Fighter.id f
           /\ Projectile.type p = signature c
           /\ regularProjectile p).
Proof.
  intros Hp Hl Ho Hi Hn Hb. cbv zeta.
  pose proof (updateFighter_blocking env keys f Hn Hb) as Hs.
  split; [exact Hs|]. split; [|apply updateFighter_special; assumption].
  intros Hk Hc.
  pose proof (attackActivates_held keys f Hn Hk Hc) as Ha.
  destruct (tick_index env keys w i j f Hp Hl Ho Hi)
    as (Hl1 & Hc1 & Hh1 & Hs1).
  rewrite attackCooldown_updateFighter, Ha in Hc1.
  split; [rewrite attackCooldown_updateFighter, Ha; reflexivity|].
  split; [exact Hc1|].
  split.
  { destruct Hh1 as [E|(C & _)]; [exact E|]. rewrite Hc1 in C. discriminate C. }
  set (w1 := updateGame env keys w) in *.
  assert (W : forall inputs env' keys',
             (length inputs <= 28)%nat ->
             healthOf (updateGame env' keys' (run inputs w1)) j
             = healthOf (run inputs w1) j);
    [|split; [exact W|];
      intros inputs env' keys' Hq;
      destruct inputs as [|x rest];
      [ exact (W [] env' keys' (Nat.le_0_l 28))
      | apply (quiet_after_activation i j _ (x :: rest) env' keys' Hl1 Ho Hc1);
        [discriminate | exact Hq] ]].
  intros inputs env' keys' Hk'.
  destruct (hit_window_after_activation i j _ Hl1 Ho Hc1 inputs env' keys' Hk')
    as (_ & _ & _ & D).
  cbv zeta in D.
  destruct (decide (healthOf (updateGame env' keys' (run inputs w1)) j
                    = healthOf (run inputs w1) j)) as [E|N]; [exact E|].
  exfalso. destruct (D N) as (-> & S & _). cbn [run] in *.
  destruct (decide (World.gameState w1 = playing)) as [Hp1|Hp1];
    [|rewrite updateGame_not_playing in N by exact Hp1; contradiction].
  unfold cooldownOf in Hc1.
  destruct (World.fighters w1 !! i) as [g|] eqn:Hg; [|discriminate Hc1].
  cbn in Hc1. injection Hc1 as Hc1.
  destruct (tick_index env' keys' w1 i j g Hp1 Hl1 Ho Hg) as (_ & _ & _ & Sg).
  specialize (Sg S).
  assert (Cg : calm g).
  { unfold calm. intros Eg. unfold stateOf in Hs1. rewrite Hg in Hs1.
    cbn in Hs1. rewrite Eg in Hs1. specialize (Hs1 eq_refl).
    rewrite Hs in Hs1. discriminate Hs1. }
  apply (calm_updateFighter env' keys' g) in Cg; [contradiction|].
  apply no_activation. lia.
Qed.

Lemma block_overrides_state_not_effects_witness :
  (World.gameState duelWorld = playing
   /\ length (World.fighters duelWorld) = 2%nat
   /\ opponents 0 1
   /\ World.fighters duelWorld !! 0%nat = Some fighter1
   /\ notStunned (beforeInput fighter1) = true
   /\ has (keyBlock (controls (Fighter.id fighter1))) {["s"; "f"; "g"]} = true
   /\ has (keyAttack (controls (Fighter.id fighter1))) {["s"; "f"; "g"]} = true
   /\ has (keySpecial (controls (Fighter.id fighter1))) {["s"; "f"; "g"]} = true
   /\ Fighter.attackCooldown fighter1 = 0
   /\ (30 <= Fighter.energy fighter1)%Q
   /\ Fighter.specialCooldown fighter1 = 0)
  /\ Fighter.state (updateFighter env0 {["s"; "f"; "g"]} fighter1).1 = blocking
  /\ Fighter.attackCooldown (updateFighter env0 {["s"; "f"; "g"]} fighter1).1
     = 30
  /\ healthOf (updateGame env0 {["s"; "f"; "g"]} duelWorld) 1
     = healthOf duelWorld 1
  /\ Fighter.energy (updateFighter env0 {["s"; "f"; "g"]} fighter1).1
     = (regenerated fighter1 - 30)%Q
  /\ Fighter.specialCooldown (updateFighter env0 {["s"; "f"; "g"]} fighter1).1
     = 60.
Proof.
  assert (H1 : World.gameState duelWorld = playing) by reflexivity.
  assert (H2 : length (World.fighters duelWorld) = 2%nat) by reflexivity.
  assert (H3 : opponents 0 1) by (left; split; reflexivity).
  assert (H4 : World.fighters duelWorld !! 0%nat = Some fighter1)
    by reflexivity.
  assert (H5 : notStunned (beforeInput fighter1) = true)
    by (vm_compute; reflexivity).
  assert (H6 : has (keyBlock (controls (Fighter.id fighter1)))
                 {["s"; "f"; "g"]} = true) by (vm_compute; reflexivity).
  assert (H7 : has (keyAttack (controls (Fighter.id fighter1)))
                 {["s"; "f"; "g"]} = true) by (vm_compute; reflexivity).
  assert (H8 : has (keySpecial (controls (Fighter.id fighter1)))
                 {["s"; "f"; "g"]} = true) by (vm_compute; reflexivity).
  assert (H9 : Fighter.attackCooldown fighter1 = 0) by reflexivity.
  assert (H10 : (30 <= Fighter.energy fighter1)%Q)
    by (vm_compute; discriminate).
  assert (H11 : Fighter.specialCooldown fighter1 = 0) by reflexivity.
  destruct (block_overrides_state_not_effects env0 {["s"; "f"; "g"]}
              duelWorld 0 1 fighter1 H1 H2 H3 H4 H5 H6) as (S & A & P).
  destruct (A H7 H9) as (A1 & _ & A3 & _ & _).
  destruct (P H8 H10 H11) as (P1 & P2 & _).
  split; [repeat split; assumption|].
  split; [exact S|]. split; [exact A1|]. split; [exact A3|].
  split; [exact P1 | exact P2].
Defined.

(** ** Projectiles against fighters *)

(** A projectile has no [width] and no [height]: both sums of
    [checkCollision] that read them are [NaN], and the test is false
    whatever the positions. *)
Lemma checkCollision_projectile p r :
  checkCollision (rectOfProjectile p) r = false.
Proof.
  unfold checkCollision, rectOfProjectile, jsAdd, jsGt; cbn [rx ry rwidth rheight].
  destruct (jsLt (Some (Projectile.x p)) _); reflexivity.
Qed.

Lemma filterProjectile_plain env p fs w :
  filterProjectile env p fs w = (onScreen p, fs, w).
Proof.
  unfold filterProjectile.
  destruct (list_find _ fs) as [[i t]|]; [|reflexivity].
  rewrite checkCollision_projectile. reflexivity.
Qed.

Lemma filterProjectiles_plain env ps : forall fs w,
  filterProjectiles env ps fs w
  = (List.filter onScreen (map moveProjectile ps), fs, w).
Proof.
  induction ps as [|p ps IH]; intros fs w; [reflexivity|].
  rewrite filterProjectiles_cons. cbv zeta.
  rewrite filterProjectile_plain. cbn [fst snd map List.filter].
  rewrite IH. cbn [fst snd]. destruct (onScreen (moveProjectile p)); reflexivity.
Qed.

(** The projectile pass never writes to the captured array. *)
Lemma capturedAfter_unchanged env keys w :
  capturedAfter env keys w = World.fighters w.
Proof.
  unfold capturedAfter. destruct (decide _); [reflexivity|]. cbv zeta.
  destruct (updateFighters env keys (emptyQueues w)) as [nf w1].
  rewrite filterProjectiles_plain. reflexivity.
Qed.

(** The live projectiles after a tick: those of the previous state,
    moved, that are still within 50 units of the canvas, followed by the
    ones created on this tick, as [createProjectile] has made them. *)
Lemma projectiles_updateGame env keys w :
  World.gameState w = playing ->
  World.projectiles (updateGame env keys w)
  = (List.filter onScreen (map moveProjectile (World.projectiles w))
     ++ concat (map snd (map (updateFighter env keys) (World.fighters w))))%list.
Proof.
  intros Hp. rewrite (updateGame_playing env keys w Hp). cbv zeta.
  rewrite filterProjectiles_plain. cbn [fst snd].
  change (World.projectiles (World.set_particles ?l (World.set_projectiles ?k ?b)))
    with k.
  f_equal.
  change (World.projectiles (World.set_fighters ?a ?b))
    with (World.projectiles b).
  unfold updateFighters. cbv zeta.
  rewrite projectiles_resolveMelee. reflexivity.
Qed.

Lemma onScreen_bounds p :
  onScreen p = true ->
  (-50 < Projectile.x p)%Q /\ (Projectile.x p < CANVAS_WIDTH + 50)%Q.
Proof.
  unfold onScreen. intros H. apply andb_true_iff in H as [H1 H2].
  apply bool_decide_eq_true in H1. apply bool_decide_eq_true in H2.
  split; assumption.
Qed.

(** The parts of C7 that hold: after a tick every live projectile is
    either one created on this tick, or one of the previous state moved
    by its velocity, and then it lies strictly between -50 and the canvas
    width plus 50. *)
Lemma live_projectiles_moved_and_on_screen env keys w p :
  World.gameState w = playing ->
  In p (World.projectiles (updateGame env keys w)) ->
  In p (concat (map snd (map (updateFighter env keys) (World.fighters w))))
  \/ (((-50 < Projectile.x p)%Q /\ (Projectile.x p < CANVAS_WIDTH + 50)%Q)
      /\ exists q,
           In q (World.projectiles w)
           /\ Projectile.x p = (Projectile.x q + Projectile.velocityX q)%Q
           /\ Projectile.y p = (Projectile.y q + Projectile.velocityY q)%Q).
Proof.
  intros Hp Hin. rewrite (projectiles_updateGame env keys w Hp) in Hin.
  apply in_app_or in Hin as [Hin|Hin]; [right | left; exact Hin].
  apply filter_In in Hin as [Hin Hs]. split; [apply onScreen_bounds, Hs|].
  apply in_map_iff in Hin as (q & <- & Hq).
  exists q. split; [exact Hq|]. split; reflexivity.
Qed.

Lemma reachable_run inputs : forall w, reachable w -> reachable (run inputs w).
Proof.
  induction inputs as [|[env keys] rest IH]; intros w H; [exact H|].
  cbn [run]. apply IH. exact (reachable_step _ _ H (step_tick env keys w)).
Qed.

(** C7 fails on the code.  [volleyWorld] is reachable; its one live
    projectile, of fighter 1, is at x = 940 and the next tick moves it to
    x = 948, y = 460, inside the rectangle of fighter 2 (940 to 1000 by
    420 to 500).  After that tick the projectile is still live and
    fighter 2 still has 100 health. *)
Theorem projectile_inside_fighter_stays_live :
  reachable volleyWorld
  /\ World.gameState volleyWorld = playing
  /\ (exists p t,
        World.projectiles volleyWorld = [p]
        /\ World.fighters volleyWorld !! 1%nat = Some t
        /\ Fighter.id t <> Projectile.owner p
        /\ (Projectile.x (moveProjectile p) == 948)%Q
        /\ (Projectile.y (moveProjectile p) == 460)%Q
        /\ (Fighter.x t == 940)%Q /\ (Fighter.width t == 60)%Q
        /\ (Fighter.y t == 420)%Q /\ (Fighter.height t == 80)%Q
        /\ reaches (moveProjectile p) t
        /\ World.projectiles (updateGame env0 ∅ volleyWorld)
           = [moveProjectile p])
  /\ healthOf volleyWorld 1 = Some 100
  /\ healthOf (updateGame env0 ∅ volleyWorld) 1 = Some 100.
Proof.
  split; [apply reachable_run, reachable_roundStart|].
  split; [vm_compute; reflexivity|].
  split; [|split; vm_compute; reflexivity].
  assert (E : exists p t, World.projectiles volleyWorld = [p]
                          /\ World.fighters volleyWorld !! 1%nat = Some t).
  { vm_compute. eexists _, _. split; reflexivity. }
  destruct E as (p & t & Ep & Et). exists p, t.
  split; [exact Ep|]. split; [exact Et|].
  revert Ep Et. vm_compute. intros Ep Et.
  injection Ep as <-. injection Et as <-.
  repeat split; try reflexivity; discriminate.
Qed.

(** ** C6: a kill ends the round *)

(** A full melee hit that brings the health to 0 ends the round in
    favour of the attacker. *)
Lemma melee_kill_ends_round env a d w :
  blocks a d = false -> Fighter.health d <= ATTACK_DAMAGE ->
  let r := handleAttack env a d w in
  Fighter.health r.1.2 = 0
  /\ World.gameState r.2 = gameOver
  /\ World.winner r.2 = Some (Fighter.name a)
  /\ World.scores r.2 =
     if decide (Fighter.id a = 1)
     then {| player1 := player1 (World.scores w) + 1;
             player2 := player2 (World.scores w) |}
     else {| player1 := player1 (World.scores w);
             player2 := player2 (World.scores w) + 1 |}.
Proof.
  intros B H. cbv zeta. unfold handleAttack. rewrite B. cbv zeta.
  destruct (decide _) as [_|n]; [|exfalso; apply n; simpl; lia].
  cbn [fst snd]. split; [simpl; lia|].
  unfold creditWin. cbv zeta.
  change (Fighter.id (Fighter.set_combo ?c a)) with (Fighter.id a).
  destruct (decide (Fighter.id a = 1)); repeat split; reflexivity.
Qed.

(** ** C5: what a hit does to the health *)

(** C5 as stated fails: a projectile that reaches a fighter which is
    blocking with its back to the attacker takes no health from it. *)
Lemma blocking_back_turned_counterexample :
  ~ (forall env keys w a t p,
       World.gameState w = playing ->
       World.fighters w = [a; t] ->
       World.projectiles w = [p] ->
       Projectile.owner p = Fighter.id a ->
       Fighter.id t <> Projectile.owner p ->
       reaches (moveProjectile p) t ->
       blocks a t = false ->
       healthOf (updateGame env keys w) 1
       = Some (Fighter.health t - Projectile.damage p)).
Proof.
  intros H.
  specialize (H env0 ∅ guardWorld fighter1 guard iceBolt
                eq_refl eq_refl eq_refl eq_refl).
  assert (E : healthOf (updateGame env0 ∅ guardWorld) 1
              = Some (Fighter.health guard - Projectile.damage iceBolt)).
  { apply H.
    - vm_compute. discriminate.
    - vm_compute. repeat split; reflexivity.
    - vm_compute. reflexivity. }
  vm_compute in E. discriminate E.
Qed.

(** C5, as amended.  A melee hit leaves the health of a defender that
    blocks with the two facings opposed, and otherwise sets it to
    [max 0 (health - 15)]; after an activation this can happen on the
    next tick only, not on the 28 ticks after it.  In the collision
    branch of the projectile pass a target that is [blocking] is left as
    it is whatever its facing, and any other target gets the health
    [max 0 (health - damage)], where the damage of every created
    projectile is 25. *)
Theorem hit_health_rules :
  (forall env a d w,
     Fighter.health (handleAttack env a d w).1.2
     = if blocks a d then Fighter.health d
       else Z.max 0 (Fighter.health d - ATTACK_DAMAGE))
  /\ (forall w1 i j inputs env' keys',
        length (World.fighters w1) = 2%nat -> opponents i j ->
        cooldownOf w1 i = Some 30 ->
        (length inputs <= 28)%nat -> inputs <> [] ->
        healthOf (updateGame env' keys' (run inputs w1)) j
        = healthOf (run inputs w1) j)
  /\ (forall env p i t fs w,
        fs !! i = Some t ->
        (projectileCollides env p i t fs w).1.2 !! i
        = Some (if decide (Fighter.state t = blocking) then t
                else projectileHit p t))
  /\ (forall p t,
        Fighter.health (projectileHit p t)
        = Z.max 0 (Fighter.health t - Projectile.damage p))
  /\ (forall env f type,
        Projectile.damage (createProjectile env f type) = SPECIAL_DAMAGE).
Proof.
  split; [|split; [|split; [|split]]].
  - intros env a d w. apply (handleAttack_fighters env a d w).
  - intros w1 i j inputs env' keys' Hl Ho Hc Hk Hne.
    destruct (hit_window_after_activation i j w1 Hl Ho Hc inputs env' keys' Hk)
      as (_ & _ & E & _).
    exact (E Hne).
  - intros env p i t fs w Hi. unfold projectileCollides.
    destruct (decide (Fighter.state t <> blocking)) as [n|n];
      destruct (decide (Fighter.state t = blocking)) as [e|e]; cbn [fst snd].
    + contradiction.
    + apply list_lookup_insert_eq. apply lookup_lt_Some in Hi. exact Hi.
    + exact Hi.
    + exfalso. apply n. exact e.
  - reflexivity.
  - reflexivity.
Qed.

Lemma hit_health_rules_witness :
  (length (World.fighters (updateGame env0 {["f"]} duelWorld)) = 2%nat
   /\ opponents 0 1
   /\ cooldownOf (updateGame env0 {["f"]} duelWorld) 0 = Some 30
   /\ (length [(env0, {["f"]} : Keys)] <= 28)%nat
   /\ [(env0, {["f"]} : Keys)] <> []
   /\ [fighter1; guard] !! 1%nat = Some guard)
  /\ healthOf
       (updateGame env0 {["f"]}
          (run [(env0, {["f"]})] (updateGame env0 {["f"]} duelWorld))) 1
     = healthOf (run [(env0, {["f"]})] (updateGame env0 {["f"]} duelWorld)) 1
  /\ (projectileCollides env0 iceBolt 1 guard [fighter1; guard] guardWorld).1.2
       !! 1%nat
     = Some (if decide (Fighter.state guard = blocking) then guard
             else projectileHit iceBolt guard).
Proof.
  assert (H1 : length (World.fighters (updateGame env0 {["f"]} duelWorld))
               = 2%nat) by (vm_compute; reflexivity).
  assert (H2 : opponents 0 1) by (left; split; reflexivity).
  assert (H3 : cooldownOf (updateGame env0 {["f"]} duelWorld) 0 = Some 30)
    by (vm_compute; reflexivity).
  assert (H4 : (length [(env0, {["f"]} : Keys)] <= 28)%nat)
    by (cbn; lia).
  assert (H5 : [(env0, {["f"]} : Keys)] <> []) by discriminate.
  assert (H6 : [fighter1; guard] !! 1%nat = Some guard) by reflexivity.
  destruct hit_health_rules as (_ & A & B & _).
  split; [repeat split; assumption|].
  split.
  - exact (A _ 0%nat 1%nat _ env0 {["f"]} H1 H2 H3 H4 H5).
  - exact (B env0 iceBolt 1%nat guard _ guardWorld H6).
Defined.

(** * Further properties *)

#[global] Arguments struck : simpl never.
#[global] Arguments striker : simpl never.

(** ** Invariants of the fighters of a reachable world *)

Lemma handleAttack_result env a d w :
  (handleAttack env a d w).1 = (striker a d, struck a d).
Proof.
  unfold handleAttack, striker, struck.
  destruct (blocks a d); [reflexivity|].
  destruct (decide _); reflexivity.
Qed.

(** A property of single fighters that the update and the melee keep
    holds of every fighter of every reachable world. *)
Lemma Forall_resolveMelee (P : Fighter.t -> Prop) env fs w :
  (forall a d, P a -> P d -> P (striker a d) /\ P (struck a d)) ->
  Forall P fs -> Forall P (resolveMelee env fs w).1.
Proof.
  intros HP H.
  destruct fs as [|f1 [|f2 [|f3 fs]]]; try exact H.
  rewrite resolveMelee_pair. cbv zeta.
  apply Forall_cons in H as [H1 H]. apply Forall_cons in H as [H2 _].
  set (r1 := if attackLands f1 f2 then _ else _).
  assert (B1 : P r1.1.1 /\ P r1.1.2).
  { subst r1. destruct (attackLands f1 f2); [|split; assumption].
    rewrite handleAttack_result. cbn [fst snd]. apply HP; assumption. }
  destruct B1 as [Ba Bb]. clearbody r1.
  set (r2 := if attackLands _ _ then _ else _).
  assert (B2 : P r2.1.1 /\ P r2.1.2).
  { subst r2. destruct (attackLands _ _); [|split; assumption].
    rewrite handleAttack_result. cbn [fst snd]. apply HP; assumption. }
  destruct B2. cbn [fst snd].
  constructor; [assumption|]. constructor; [assumption|]. constructor.
Qed.

Lemma fighters_updateGame_any env keys w :
  World.fighters (updateGame env keys w)
  = if decide (World.gameState w = playing) then (updateFighters env keys w).1
    else World.fighters w.
Proof.
  destruct (decide _) as [Hp|Hp].
  - apply fighters_updateGame, Hp.
  - rewrite updateGame_not_playing by exact Hp. reflexivity.
Qed.

Lemma fighters_invariant (P : Fighter.t -> Prop) :
  P fighter1 -> P fighter2 ->
  (forall env keys f, P f -> P (updateFighter env keys f).1) ->
  (forall a d, P a -> P d -> P (striker a d) /\ P (struck a d)) ->
  forall w, reachable w -> Forall P (World.fighters w).
Proof.
  intros P1 P2 PU PA w R.
  induction R as [|w w' _ IH Hs]; [constructor|].
  destruct Hs.
  - rewrite fighters_updateGame_any. destruct (decide _); [|exact IH].
    unfold updateFighters. cbv zeta.
    apply Forall_resolveMelee; [exact PA|].
    clear -IH PU. induction IH as [|f fs Hf _ IHf]; [constructor|].
    cbn [map]. constructor; [apply PU, Hf | exact IHf].
  - cbn. constructor; [exact P1|]. constructor; [exact P2|constructor].
  - cbn. constructor; [exact P1|]. constructor; [exact P2|constructor].
  - cbn. constructor; [exact P1|]. constructor; [exact P2|constructor].
  - exact IH.
Qed.

(** *** The build *)

Lemma standardBuild_updateFighter env keys f :
  standardBuild f -> standardBuild (updateFighter env keys f).1.
Proof.
  generalize (vitals_updateFighter env keys f).
  generalize (updateFighter env keys f).1. intros g E H.
  unfold vitals in E. injection E as E1 E2 E3 E4 E5 E6 E7.
  unfold standardBuild in *. rewrite E1, E3, E4, E5, E6, E7. exact H.
Qed.

Lemma standardBuild_melee a d :
  standardBuild a -> standardBuild d ->
  standardBuild (striker a d) /\ standardBuild (struck a d).
Proof.
  intros Ha Hd. unfold striker, struck.
  destruct (blocks a d); split; assumption.
Qed.

(** *** The timers *)

Lemma timerStep_refl g : timerStep g g.
Proof. unfold timerStep. auto. Qed.

Lemma timerStep_trans g1 g2 g3 :
  timerStep g1 g2 -> timerStep g2 g3 -> timerStep g1 g3.
Proof.
  unfold timerStep. intros (S1 & A1 & C1) (S2 & A2 & C2).
  split; [congruence|].
  split; [destruct A2; [left; assumption | destruct A1; [left|right]; congruence]|].
  destruct C2; [left; assumption | destruct C1; [left|right]; congruence].
Qed.

Lemma timerStep_clocks g g' : clocks g' = clocks g -> timerStep g g'.
Proof.
  unfold clocks, timerStep, stuns. intros E. injection E as E1 E2 E3 E4.
  split; [congruence|]. split; right; assumption.
Qed.

Lemma timerStep_attackInput c keys g : timerStep g (attackInput c keys g).
Proof.
  unfold attackInput. destruct (attackFires c keys g); [|apply timerStep_refl].
  unfold timerStep. split; [reflexivity|]. split; [left|right]; reflexivity.
Qed.

Lemma timerStep_specialInput env c keys g :
  timerStep g (specialInput env c keys g).1.
Proof.
  unfold specialInput.
  destruct (specialFires c keys g); [|apply timerStep_refl].
  unfold timerStep. split; [reflexivity|]. split; [right|left]; reflexivity.
Qed.

Lemma timerStep_handleInput env keys g :
  timerStep g (handleInput env keys g).1.
Proof.
  rewrite handleInput_fst. destruct (notStunned g); [|apply timerStep_refl].
  cbv zeta. set (c := controls (Fighter.id g)).
  eapply timerStep_trans; [apply timerStep_clocks, clocks_moveInput|].
  eapply timerStep_trans; [apply timerStep_clocks, clocks_jumpInput|].
  eapply timerStep_trans; [apply timerStep_attackInput|].
  eapply timerStep_trans; [apply timerStep_specialInput|].
  apply timerStep_clocks, clocks_blockInput.
Qed.

Lemma timerStep_updateFighter env keys f :
  timerStep (beforeInput f) (updateFighter env keys f).1.
Proof.
  rewrite updateFighter_fst.
  eapply timerStep_trans; [apply timerStep_handleInput|].
  apply timerStep_clocks, clocks_applyPhysics.
Qed.

Lemma countDown_range n m : 0 <= n <= m -> 0 <= countDown n <= m.
Proof. unfold countDown. destruct (decide _); lia. Qed.

Lemma timersInRange_updateFighter env keys f :
  timersInRange f -> timersInRange (updateFighter env keys f).1.
Proof.
  intros (Ha & Hs & Hh & Hb).
  generalize (timerStep_updateFighter env keys f).
  generalize (clocks_beforeInput f).
  generalize (updateFighter env keys f).1 (beforeInput f).
  intros g' g E (S & A & C). unfold clocks in E. unfold stuns in S.
  injection E as E1 E2 E3 E4. injection S as S1 S2.
  apply (countDown_range _ 30) in Ha. apply (countDown_range _ 60) in Hs.
  apply (countDown_range _ 25) in Hh. apply (countDown_range _ 15) in Hb.
  unfold timersInRange. repeat split; destruct A, C; lia.
Qed.

Lemma timersInRange_melee a d :
  timersInRange a -> timersInRange d ->
  timersInRange (striker a d) /\ timersInRange (struck a d).
Proof.
  intros Ha Hd. unfold striker, struck.
  destruct (blocks a d); (split; [exact Ha|]);
    destruct Hd as (H1 & H2 & H3 & H4);
    unfold timersInRange; simpl; repeat split; lia.
Qed.

(** *** Position *)

Lemma vertical_beforeInput f : vertical (beforeInput f) = vertical f.
Proof.
  unfold beforeInput.
  generalize (kinematics_beforeHit f) (vitals_resetHit
    (regenerateEnergy (updateTimers (updateAnimation f)))).
  rewrite vitals_regenerateEnergy, vitals_updateTimers, vitals_updateAnimation.
  generalize (regenerateEnergy (updateTimers (updateAnimation f))).
  intros g K V. unfold resetHit in *.
  destruct (_ && _); unfold kinematics, vitals, vertical in *; simpl in *;
    congruence.
Qed.

Lemma vertical_moveInput c keys f : vertical (moveInput c keys f) = vertical f.
Proof.
  unfold moveInput, applyFriction.
  destruct (movesLeft c keys f); [reflexivity|].
  destruct (movesRight c keys f); [reflexivity|].
  cbv zeta. destruct (decide _); [|reflexivity].
  destruct (decide _); reflexivity.
Qed.

Lemma vertical_attackInput c keys f :
  vertical (attackInput c keys f) = vertical f.
Proof. unfold attackInput; destruct (attackFires _ _ _); reflexivity. Qed.

Lemma vertical_specialInput env c keys f :
  vertical (specialInput env c keys f).1 = vertical f.
Proof. unfold specialInput; destruct (specialFires _ _ _); reflexivity. Qed.

Lemma vertical_blockInput c keys f :
  vertical (blockInput c keys f) = vertical f.
Proof. unfold blockInput; destruct (has _ _); reflexivity. Qed.

(** A fighter that is grounded when the input block ends has not
    jumped. *)
Lemma grounded_after_input env keys f :
  Fighter.isGrounded (handleInput env keys f).1 = true ->
  vertical (handleInput env keys f).1 = vertical f.
Proof.
  rewrite handleInput_fst. destruct (notStunned f); [|reflexivity].
  cbv zeta. set (c := controls (Fighter.id f)).
  generalize (vertical_moveInput c keys f).
  generalize (moveInput c keys f). intros g1 E1.
  assert (J : Fighter.isGrounded (jumpInput c keys g1) = true ->
              vertical (jumpInput c keys g1) = vertical g1).
  { unfold jumpInput. destruct (_ && _); [discriminate | reflexivity]. }
  revert J. generalize (jumpInput c keys g1). intros g2 J.
  generalize (vertical_attackInput c keys g2).
  generalize (attackInput c keys g2). intros g3 E3.
  generalize (vertical_specialInput env c keys g3).
  generalize (specialInput env c keys g3).1. intros g4 E4.
  generalize (vertical_blockInput c keys g4).
  generalize (blockInput c keys g4). intros g5 E5 G.
  assert (G2 : Fighter.isGrounded g2 = true).
  { unfold vertical in *. congruence. }
  specialize (J G2). congruence.
Qed.

Lemma height_handleInput env keys f :
  Fighter.height (handleInput env keys f).1 = Fighter.height f
  /\ Fighter.width (handleInput env keys f).1 = Fighter.width f.
Proof.
  generalize (vitals_handleInput env keys f).
  generalize (handleInput env keys f).1. intros g E.
  unfold vitals in E. split; congruence.
Qed.

Lemma inArena_applyPhysics g :
  (Fighter.width g <= CANVAS_WIDTH)%Q -> inArena (applyPhysics g).
Proof.
  intros Hw. unfold inArena, applyPhysics. cbv zeta.
  destruct (Fighter.isGrounded g);
    (destruct (decide (_ <= _)%Q) as [L|L];
     [ destruct (decide _) | ]; simpl in *;
     (split; [apply Q.le_max_l|]);
     (split; [apply Q.max_lub; [lra | apply Q.le_min_l] | lra])).
Qed.

Lemma groundedIffOnGround_applyPhysics g :
  (Fighter.isGrounded g = true ->
   (Fighter.y g == GROUND_Y - Fighter.height g)%Q
   /\ (Fighter.velocityY g == 0)%Q) ->
  groundedIffOnGround (applyPhysics g).
Proof.
  intros H. unfold groundedIffOnGround, applyPhysics. cbv zeta.
  destruct (Fighter.isGrounded g) eqn:G.
  - destruct (H eq_refl) as [Hy Hv].
    destruct (decide (_ <= _)%Q) as [L|L].
    + destruct (decide _); simpl; (split; [intros _; split; reflexivity|]);
        discriminate.
    + exfalso. apply L. simpl. rewrite Hy, Hv. lra.
  - destruct (decide (_ <= _)%Q) as [L|L].
    + destruct (decide _); simpl; (split; [intros _; split; reflexivity|]);
        discriminate.
    + simpl. rewrite G. split; [discriminate|]. intros _.
      simpl in L. lra.
Qed.

(** *** The state [hit] *)

Lemma stuns_updateFighter env keys f :
  stuns (updateFighter env keys f).1
  = (countDown (Fighter.hitStun f), countDown (Fighter.blockStun f)).
Proof.
  destruct (timerStep_updateFighter env keys f) as (S & _).
  rewrite S. unfold stuns.
  rewrite hitStun_beforeInput, blockStun_beforeInput. reflexivity.
Qed.

Lemma beforeInput_state_cases f :
  (notStunned (beforeInput f) = false ->
   Fighter.state (beforeInput f) = Fighter.state f)
  /\ (notStunned (beforeInput f) = true ->
      Fighter.state (beforeInput f) <> hit).
Proof.
  unfold beforeInput. generalize (kinematics_beforeHit f).
  generalize (regenerateEnergy (updateTimers (updateAnimation f))).
  intros g E. unfold kinematics in E.
  assert (E' : Fighter.state g = Fighter.state f) by congruence. clear E.
  unfold resetHit. destruct (notStunned g) eqn:N; cbn [andb].
  - destruct (bool_decide (Fighter.state g = hit)) eqn:B.
    + split; [|simpl; discriminate].
      unfold notStunned in *. simpl. rewrite N. discriminate.
    + apply bool_decide_eq_false in B. split; [|intros _; exact B].
      rewrite N. discriminate.
  - split; [intros _; exact E'|]. rewrite N. discriminate.
Qed.

Lemma nothit_moveInput c keys f :
  Fighter.state f <> hit -> Fighter.state (moveInput c keys f) <> hit.
Proof.
  unfold moveInput, applyFriction. intros H.
  destruct (movesLeft c keys f); [simpl; discriminate|].
  destruct (movesRight c keys f); [simpl; discriminate|].
  cbv zeta. destruct (decide _); [|exact H].
  destruct (decide _); [simpl; discriminate | exact H].
Qed.

Lemma nothit_jumpInput c keys f :
  Fighter.state f <> hit -> Fighter.state (jumpInput c keys f) <> hit.
Proof.
  unfold jumpInput. intros H.
  destruct (_ && _); [simpl; discriminate | exact H].
Qed.

Lemma nothit_attackInput c keys f :
  Fighter.state f <> hit -> Fighter.state (attackInput c keys f) <> hit.
Proof.
  unfold attackInput. intros H.
  destruct (attackFires _ _ _); [simpl; discriminate | exact H].
Qed.

Lemma nothit_specialInput env c keys f :
  Fighter.state f <> hit ->
  Fighter.state (specialInput env c keys f).1 <> hit.
Proof.
  unfold specialInput. intros H.
  destruct (specialFires _ _ _); [simpl; discriminate | exact H].
Qed.

Lemma nothit_blockInput c keys f :
  Fighter.state f <> hit -> Fighter.state (blockInput c keys f) <> hit.
Proof.
  unfold blockInput. intros H.
  destruct (has _ _); [simpl; discriminate | exact H].
Qed.

(** The physics step writes no state but [idle]. *)
Lemma state_applyPhysics_cases f :
  Fighter.state (applyPhysics f) = Fighter.state f
  \/ (Fighter.state f = jumping /\ Fighter.state (applyPhysics f) = idle).
Proof.
  destruct (decide (Fighter.state f = jumping)) as [E|E].
  - unfold applyPhysics. cbv zeta.
    destruct (Fighter.isGrounded f);
      (destruct (decide (_ <= _)%Q); [|left; reflexivity];
       destruct (decide _); simpl; [right; split; [exact E|reflexivity]
                                   | left; reflexivity]).
  - left. apply state_applyPhysics, E.
Qed.

Lemma free_update_not_hit env keys f :
  notStunned (beforeInput f) = true ->
  Fighter.state (updateFighter env keys f).1 <> hit.
Proof.
  intros N. rewrite (updateFighter_free env keys f N). cbv zeta.
  destruct (beforeInput_state_cases f) as [_ H]. specialize (H N).
  revert H. generalize (beforeInput f). intros fb H.
  set (c := controls (Fighter.id f)).
  apply (nothit_moveInput c keys) in H. apply (nothit_jumpInput c keys) in H.
  apply (nothit_attackInput c keys) in H.
  apply (nothit_specialInput env c keys) in H.
  apply (nothit_blockInput c keys) in H.
  revert H. generalize (blockInput c keys
    (specialInput env c keys
       (attackInput c keys (jumpInput c keys (moveInput c keys fb)))).1).
  intros g H.
  destruct (state_applyPhysics_cases g) as [E|[_ E]]; rewrite E;
    [exact H | discriminate].
Qed.

Lemma stunned_update_state env keys f :
  notStunned (beforeInput f) = false ->
  Fighter.state (updateFighter env keys f).1 = Fighter.state f
  \/ (Fighter.state f = jumping
      /\ Fighter.state (updateFighter env keys f).1 = idle).
Proof.
  intros N. rewrite (updateFighter_stunned env keys f N).
  destruct (beforeInput_state_cases f) as [H _]. specialize (H N).
  revert H. generalize (beforeInput f). intros fb H.
  destruct (state_applyPhysics_cases fb) as [E|[E1 E2]].
  - left. congruence.
  - right. split; congruence.
Qed.

Lemma hitWhileStunned_updateFighter env keys f :
  timersInRange f -> hitWhileStunned f ->
  hitWhileStunned (updateFighter env keys f).1.
Proof.
  intros (_ & _ & Hh & Hb) [P1 P2].
  pose proof (stuns_updateFighter env keys f) as S.
  pose proof (notStunned_beforeInput f) as N.
  apply (countDown_range _ 25) in Hh as Ch.
  apply (countDown_range _ 15) in Hb as Cb.
  destruct (notStunned (beforeInput f)) eqn:Nb.
  - pose proof (free_update_not_hit env keys f Nb) as F.
    symmetry in N. apply andb_true_iff in N as [N1 N2].
    apply bool_decide_eq_true in N1. apply bool_decide_eq_true in N2.
    revert S F. generalize (updateFighter env keys f).1. intros g S F.
    unfold stuns in S. injection S as S1 S2.
    split; [intros L; lia | intros E; contradiction].
  - pose proof (stunned_update_state env keys f Nb) as T.
    symmetry in N. apply andb_false_iff in N.
    revert S T. generalize (updateFighter env keys f).1. intros g S T.
    unfold stuns in S. injection S as S1 S2.
    split.
    + intros L. rewrite S1 in L.
      assert (L' : 0 < Fighter.hitStun f)
        by (unfold countDown in L; destruct (decide _); lia).
      specialize (P1 L'). destruct T as [T|[T _]]; congruence.
    + intros E. rewrite S1, S2.
      destruct N as [N|N]; apply bool_decide_eq_false in N; [left|right]; lia.
Qed.

Lemma hitWhileStunned_melee a d :
  hitWhileStunned a -> hitWhileStunned d ->
  hitWhileStunned (striker a d) /\ hitWhileStunned (struck a d).
Proof.
  intros Ha [D1 D2]. unfold striker, struck.
  destruct (blocks a d) eqn:B.
  - split; [exact Ha|]. unfold hitWhileStunned. simpl.
    split; [exact D1 | intros _; right; lia].
  - split; [exact Ha|]. unfold hitWhileStunned. simpl.
    split; [reflexivity | intros _; left; lia].
Qed.

(** *** All of them together *)

Lemma sound_updateFighter env keys f :
  sound f -> sound (updateFighter env keys f).1.
Proof.
  intros (B & T & A & G & H).
  split; [apply standardBuild_updateFighter, B|].
  split; [apply timersInRange_updateFighter, T|].
  split; [|split; [|apply hitWhileStunned_updateFighter; assumption]].
  - rewrite updateFighter_fst. apply inArena_applyPhysics.
    destruct (height_handleInput env keys (beforeInput f)) as [_ W].
    rewrite W.
    generalize (vitals_beforeInput f). generalize (beforeInput f).
    intros g E. unfold vitals in E. injection E as _ _ _ _ E _ _.
    rewrite E. destruct B as (Bw & _). rewrite Bw.
    unfold CANVAS_WIDTH. lra.
  - rewrite updateFighter_fst. apply groundedIffOnGround_applyPhysics.
    intros Gr. apply grounded_after_input in Gr as V.
    rewrite vertical_beforeInput in V.
    revert Gr V. generalize (handleInput env keys (beforeInput f)).1.
    intros g Gr V. unfold vertical in V. injection V as V1 V2 V3 V4.
    rewrite V1, V2, V4. apply G. congruence.
Qed.

Lemma sound_melee a d :
  sound a -> sound d -> sound (striker a d) /\ sound (struck a d).
Proof.
  intros (B1 & T1 & A1 & G1 & H1) (B2 & T2 & A2 & G2 & H2).
  destruct (standardBuild_melee a d B1 B2).
  destruct (timersInRange_melee a d T1 T2).
  destruct (hitWhileStunned_melee a d H1 H2).
  assert (K : (inArena (striker a d) /\ groundedIffOnGround (striker a d))
              /\ inArena (struck a d) /\ groundedIffOnGround (struck a d)).
  { unfold striker, struck.
    destruct (blocks a d);
      (split; [split; [exact A1 | exact G1] | split; [exact A2 | exact G2]]). }
  destruct K as ((? & ?) & ? & ?).
  split;
    (split; [assumption|]; split; [assumption|]; split; [assumption|];
     split; assumption).
Qed.

Lemma sound_fighter1 : sound fighter1.
Proof.
  unfold sound, standardBuild, timersInRange, inArena, groundedIffOnGround,
    hitWhileStunned. cbn.
  repeat split; try lia; try reflexivity; try discriminate;
    try (vm_compute; discriminate); try (left; split; reflexivity).
Qed.

Lemma sound_fighter2 : sound fighter2.
Proof.
  unfold sound, standardBuild, timersInRange, inArena, groundedIffOnGround,
    hitWhileStunned. cbn.
  repeat split; try lia; try reflexivity; try discriminate;
    try (vm_compute; discriminate); try (right; split; reflexivity).
Qed.

Lemma reachable_sound w : reachable w -> Forall sound (World.fighters w).
Proof.
  apply fighters_invariant.
  - exact sound_fighter1.
  - exact sound_fighter2.
  - exact sound_updateFighter.
  - exact sound_melee.
Qed.

Lemma reachable_skirmishWorld : reachable skirmishWorld.
Proof. exact (reachable_run skirmish roundStart reachable_roundStart). Defined.

(** X1.  In every reachable world the four timers of every fighter are
    never negative and never above the value the code sets them to: 30
    for the attack cooldown, 60 for the special cooldown, 25 for the hit
    stun and 15 for the block stun. *)
Theorem timers_stay_in_range w :
  reachable w -> Forall timersInRange (World.fighters w).
Proof.
  intros R. apply reachable_sound in R.
  eapply Forall_impl; [exact R|]. intros f H. apply H.
Qed.

Lemma timers_stay_in_range_witness :
  reachable skirmishWorld
  /\ Forall timersInRange (World.fighters skirmishWorld).
Proof.
  split; [exact reachable_skirmishWorld|].
  exact (timers_stay_in_range _ reachable_skirmishWorld).
Defined.

(** X2.  In every reachable world every fighter is inside the canvas,
    [0 <= x <= CANVAS_WIDTH - width], and its feet are not below the
    ground line, [y + height <= GROUND_Y]. *)
Theorem fighters_stay_in_arena w :
  reachable w -> Forall inArena (World.fighters w).
Proof.
  intros R. apply reachable_sound in R.
  eapply Forall_impl; [exact R|]. intros f H. apply H.
Qed.

Lemma fighters_stay_in_arena_witness :
  reachable skirmishWorld /\ Forall inArena (World.fighters skirmishWorld).
Proof.
  split; [exact reachable_skirmishWorld|].
  exact (fighters_stay_in_arena _ reachable_skirmishWorld).
Defined.

(** X3.  In every reachable world the flag [isGrounded] of a fighter is
    accurate: when it is set the fighter stands on the ground line with
    no vertical velocity, and when it is not set the fighter is above the
    ground line. *)
Theorem grounded_flag_is_accurate w :
  reachable w -> Forall groundedIffOnGround (World.fighters w).
Proof.
  intros R. apply reachable_sound in R.
  eapply Forall_impl; [exact R|]. intros f H. apply H.
Qed.

Lemma grounded_flag_is_accurate_witness :
  reachable skirmishWorld
  /\ Forall groundedIffOnGround (World.fighters skirmishWorld).
Proof.
  split; [exact reachable_skirmishWorld|].
  exact (grounded_flag_is_accurate _ reachable_skirmishWorld).
Defined.

(** X4.  In every reachable world a fighter with a positive hit stun is
    in state [hit], and a fighter in state [hit] has a positive hit stun
    or block stun: the state is kept for as long as the stun lasts and
    left on the tick on which the stun ends. *)
Theorem hit_state_goes_with_stun w :
  reachable w -> Forall hitWhileStunned (World.fighters w).
Proof.
  intros R. apply reachable_sound in R.
  eapply Forall_impl; [exact R|]. intros f H. apply H.
Qed.

Lemma hit_state_goes_with_stun_witness :
  reachable skirmishWorld
  /\ Forall hitWhileStunned (World.fighters skirmishWorld).
Proof.
  split; [exact reachable_skirmishWorld|].
  exact (hit_state_goes_with_stun _ reachable_skirmishWorld).
Defined.

(** ** States that no tick ends *)

Lemma state_applyFriction_other f :
  Fighter.state f <> walking ->
  Fighter.state (applyFriction f) = Fighter.state f.
Proof.
  intros H. unfold applyFriction. cbv zeta.
  destruct (decide _); [|reflexivity].
  destruct (decide _) as [E|_]; [|reflexivity].
  exfalso. apply H. exact E.
Qed.

(** X5.  The update never ends the states [attacking], [blocking] and
    [special] by itself: a fighter in one of them that holds none of its
    six keys is in the same state after the update, stunned or not.  So
    a block lasts after the block key is released, until another key or a
    hit writes the state. *)
Theorem action_states_persist env keys f :
  allReleased (controls (Fighter.id f)) keys ->
  Fighter.state f = attacking \/ Fighter.state f = blocking
  \/ Fighter.state f = special ->
  Fighter.state (updateFighter env keys f).1 = Fighter.state f.
Proof.
  intros (Kl & Kr & Kj & Ka & Ks & Kb) Hs.
  assert (Nh : Fighter.state f <> hit) by (destruct Hs as [E|[E|E]]; congruence).
  assert (Nj : Fighter.state f <> jumping)
    by (destruct Hs as [E|[E|E]]; congruence).
  assert (Nw : Fighter.state f <> walking)
    by (destruct Hs as [E|[E|E]]; congruence).
  pose proof (state_beforeInput f Nh) as Eb.
  destruct (notStunned (beforeInput f)) eqn:N.
  - rewrite (updateFighter_free env keys f N). cbv zeta.
    set (c := controls (Fighter.id f)) in *.
    rewrite moveInput_idle_keys
      by (unfold movesLeft, movesRight; rewrite ?Kl, ?Kr; reflexivity).
    rewrite (jumpInput_released _ _ _ Kj), (attackInput_released _ _ _ Ka),
      (specialInput_released _ _ _ _ Ks), (blockInput_released _ _ _ Kb).
    cbn [fst].
    assert (E : Fighter.state (applyFriction (beforeInput f))
                = Fighter.state f).
    { rewrite state_applyFriction_other; congruence. }
    rewrite state_applyPhysics; congruence.
  - rewrite (updateFighter_stunned env keys f N).
    rewrite state_applyPhysics; congruence.
Qed.

Lemma action_states_persist_witness :
  (allReleased (controls (Fighter.id guard)) {["q"; "f"; "g"]}
   /\ (Fighter.state guard = attacking \/ Fighter.state guard = blocking
       \/ Fighter.state guard = special))
  /\ Fighter.state
       (updateFighter env0 {["q"; "f"; "g"]} guard).1
     = Fighter.state guard.
Proof.
  assert (H1 : allReleased (controls (Fighter.id guard))
                 {["q"; "f"; "g"]})
    by (vm_compute; repeat split; reflexivity).
  assert (H2 : Fighter.state guard = attacking \/ Fighter.state guard = blocking
               \/ Fighter.state guard = special)
    by (right; left; reflexivity).
  split; [split; assumption|].
  exact (action_states_persist env0 _ guard H1 H2).
Defined.

(** ** The keys of the other player *)

Lemma moveInput_sameControls c keys1 keys2 g :
  sameControls c keys1 keys2 -> moveInput c keys1 g = moveInput c keys2 g.
Proof.
  intros (Kl & Kr & _). unfold moveInput, movesLeft, movesRight.
  rewrite Kl, Kr. reflexivity.
Qed.

Lemma jumpInput_sameControls c keys1 keys2 g :
  sameControls c keys1 keys2 -> jumpInput c keys1 g = jumpInput c keys2 g.
Proof.
  intros (_ & _ & Kj & _). unfold jumpInput. rewrite Kj. reflexivity.
Qed.

Lemma attackInput_sameControls c keys1 keys2 g :
  sameControls c keys1 keys2 -> attackInput c keys1 g = attackInput c keys2 g.
Proof.
  intros (_ & _ & _ & Ka & _). unfold attackInput, attackFires.
  rewrite Ka. reflexivity.
Qed.

Lemma specialInput_sameControls env c keys1 keys2 g :
  sameControls c keys1 keys2 ->
  specialInput env c keys1 g = specialInput env c keys2 g.
Proof.
  intros (_ & _ & _ & _ & Ks & _). unfold specialInput, specialFires.
  rewrite Ks. reflexivity.
Qed.

Lemma blockInput_sameControls c keys1 keys2 g :
  sameControls c keys1 keys2 -> blockInput c keys1 g = blockInput c keys2 g.
Proof.
  intros (_ & _ & _ & _ & _ & Kb). unfold blockInput. rewrite Kb. reflexivity.
Qed.

(** X6.  The update of a fighter reads no key but its own six: for two
    key sets that agree on them, the new fighter and the projectiles it
    creates are the same.  The keys of the other player, and any other
    key, have no effect on it. *)
Theorem update_reads_own_keys_only env keys1 keys2 f :
  sameControls (controls (Fighter.id f)) keys1 keys2 ->
  updateFighter env keys1 f = updateFighter env keys2 f.
Proof.
  intros H. unfold updateFighter, handleInput.
  rewrite id_beforeInput. generalize (beforeInput f). intros g.
  destruct (notStunned g); [|reflexivity]. cbv zeta.
  rewrite (moveInput_sameControls _ _ _ _ H).
  rewrite (jumpInput_sameControls _ _ _ _ H).
  rewrite (attackInput_sameControls _ _ _ _ H).
  rewrite (specialInput_sameControls _ _ _ _ _ H).
  destruct (specialInput _ _ _ _) as [g' spawned].
  rewrite (blockInput_sameControls _ _ _ _ H). reflexivity.
Qed.

Lemma update_reads_own_keys_only_witness :
  sameControls (controls (Fighter.id fighter1))
    {["d"; "f"; "arrowleft"; "n"; "m"]} {["d"; "f"; "arrowdown"; "escape"]}
  /\ updateFighter env0 {["d"; "f"; "arrowleft"; "n"; "m"]} fighter1
     = updateFighter env0 {["d"; "f"; "arrowdown"; "escape"]} fighter1.
Proof.
  assert (H : sameControls (controls (Fighter.id fighter1))
                {["d"; "f"; "arrowleft"; "n"; "m"]}
                {["d"; "f"; "arrowdown"; "escape"]})
    by (vm_compute; repeat split; reflexivity).
  split; [exact H | exact (update_reads_own_keys_only env0 _ _ fighter1 H)].
Defined.

(** ** The life of a particle *)

Lemma updateParticles_app l1 l2 :
  updateParticles (l1 ++ l2)%list
  = (updateParticles l1 ++ updateParticles l2)%list.
Proof. unfold updateParticles. rewrite map_app, filter_app. reflexivity. Qed.

Lemma iter_updateParticles_app k : forall l1 l2,
  Nat.iter k updateParticles (l1 ++ l2)%list
  = (Nat.iter k updateParticles l1 ++ Nat.iter k updateParticles l2)%list.
Proof.
  induction k as [|k IH]; intros l1 l2; [reflexivity|].
  rewrite !Nat.iter_succ, IH. apply updateParticles_app.
Qed.

Lemma life_iter_moveParticle k p :
  Particle.life (Nat.iter k moveParticle p) = Particle.life p - Z.of_nat k.
Proof.
  induction k as [|k IH]; [cbn; lia|].
  rewrite Nat.iter_succ.
  change (Particle.life (moveParticle ?q)) with (Particle.life q - 1).
  rewrite IH. lia.
Qed.

Lemma iter_updateParticles_one k p :
  Nat.iter (S k) updateParticles [p]
  = if decide (Z.of_nat (S k) < Particle.life p)
    then [Nat.iter (S k) moveParticle p] else [].
Proof.
  induction k as [|k IH].
  - cbn [Nat.iter nat_rect]. unfold updateParticles. cbn [map].
    rewrite filter_cons, filter_nil.
    change (Particle.life (moveParticle ?q)) with (Particle.life q - 1).
    destruct (decide (0 < _)); destruct (decide (Z.of_nat 1 < _));
      try reflexivity; lia.
  - rewrite (Nat.iter_succ (S k)), IH.
    destruct (decide (Z.of_nat (S k) < Particle.life p)) as [L|L].
    + unfold updateParticles. cbn [map].
      rewrite filter_cons, filter_nil.
      change (Nat.iter (S (S k)) moveParticle p)
        with (moveParticle (Nat.iter (S k) moveParticle p)).
      change (Particle.life (moveParticle ?q)) with (Particle.life q - 1).
      rewrite life_iter_moveParticle.
      destruct (decide (0 < _)); destruct (decide (Z.of_nat (S (S k)) < _));
        try reflexivity; lia.
    + destruct (decide (Z.of_nat (S (S k)) < _)); [lia | reflexivity].
Qed.

Lemma iter_updateParticles k ps :
  Nat.iter (S k) updateParticles ps
  = map (Nat.iter (S k) moveParticle)
      (filter (fun p => Z.of_nat (S k) < Particle.life p) ps).
Proof.
  induction ps as [|p ps IH].
  - rewrite filter_nil. cbn [map].
    generalize (S k). intros n. induction n as [|n IHn]; [reflexivity|].
    rewrite Nat.iter_succ, IHn. reflexivity.
  - change (p :: ps) with ([p] ++ ps)%list at 1.
    rewrite iter_updateParticles_app, IH, iter_updateParticles_one.
    rewrite filter_cons.
    destruct (decide (Z.of_nat (S k) < Particle.life p)); reflexivity.
Qed.

Lemma particleLoop_spec env x y color n : forall i d,
  length (particleLoop env x y color n i d) = n /\
  Forall (fun p => Particle.life p = 30) (particleLoop env x y color n i d).
Proof.
  induction n as [|n IH]; intros i d; cbn [particleLoop].
  - split; [reflexivity | constructor].
  - destruct (IH (S i) (d + 5)%nat) as [IH1 IH2].
    split; [cbn [length]; now rewrite IH1 | constructor; [reflexivity | exact IH2]].
Qed.

Lemma filter_all {A} (P : A -> Prop) `{forall x, Decision (P x)} (l : list A) :
  Forall P l -> filter P l = l.
Proof.
  induction 1 as [|x l Hx _ IH]; [reflexivity|].
  rewrite filter_cons, IH. destruct (decide (P x)); [reflexivity | contradiction].
Qed.

Lemma filter_none {A} (P : A -> Prop) `{forall x, Decision (P x)} (l : list A) :
  Forall (fun x => ~ P x) l -> filter P l = [].
Proof.
  induction 1 as [|x l Hx _ IH]; [reflexivity|].
  rewrite filter_cons, IH. destruct (decide (P x)); [contradiction | reflexivity].
Qed.

(** X7.  A particle lives for exactly as many particle passes as its
    [life] says: after [k] passes, with [k] at least one, the list holds
    the particles whose life was above [k], in their order, each moved [k]
    times, and no others. *)
Theorem particles_live_as_long_as_their_life (k : nat)
    (prevParticles : list Particle.t) :
  Nat.iter (S k) updateParticles prevParticles
  = map (Nat.iter (S k) moveParticle)
      (filter (fun p => Z.of_nat (S k) < Particle.life p) prevParticles).
Proof. apply iter_updateParticles. Qed.

(** X8.  A burst made by [createParticles] adds [count] particles to the
    list, all of them are drawn for the next 29 passes, and the 30th pass
    removes them all: from then on the list is what it would have been
    without the burst. *)
Theorem particle_burst_lasts_30_passes (env : Env.t) (x y : Q)
    (color : string) (count : nat) (w : World.t) :
  let burst := World.particles (createParticles env x y color count w) in
  (forall k, (1 <= k < 30)%nat ->
     length (Nat.iter k updateParticles burst)
     = (length (Nat.iter k updateParticles (World.particles w)) + count)%nat) /\
  (forall k, (30 <= k)%nat ->
     Nat.iter k updateParticles burst
     = Nat.iter k updateParticles (World.particles w)).
Proof.
  cbn zeta. unfold createParticles. cbn [World.particles World.set_draws
    World.set_particles].
  destruct (particleLoop_spec env x y color count 0 (World.draws w)) as [Hn Hl].
  set (new := particleLoop env x y color count 0 (World.draws w)) in *.
  split; intros k Hk; (destruct k as [|k]; [lia|]);
    rewrite iter_updateParticles_app, (iter_updateParticles k new).
  - rewrite filter_all.
    + rewrite length_app, length_map, Hn. reflexivity.
    + eapply Forall_impl; [exact Hl|]. cbn beta. intros p Hp. rewrite Hp. lia.
  - rewrite filter_none.
    + cbn [map]. apply app_nil_r.
    + eapply Forall_impl; [exact Hl|]. cbn beta. intros p Hp. rewrite Hp. lia.
Qed.

Lemma particle_burst_lasts_30_passes_witness :
  (1 <= 29 < 30)%nat /\ (30 <= 30)%nat /\
  length (Nat.iter 29 updateParticles
            (World.particles (createParticles env0 100 200 "#FF0000" 8 roundStart)))
  = (length (Nat.iter 29 updateParticles (World.particles roundStart)) + 8)%nat /\
  Nat.iter 30 updateParticles
    (World.particles (createParticles env0 100 200 "#FF0000" 8 roundStart))
  = Nat.iter 30 updateParticles (World.particles roundStart).
Proof.
  split; [lia|]. split; [lia|]. split.
  - apply (particle_burst_lasts_30_passes env0 100 200 "#FF0000" 8 roundStart).
    lia.
  - apply (particle_burst_lasts_30_passes env0 100 200 "#FF0000" 8 roundStart).
    lia.
Defined.

(** ** Projectiles in flight *)

Lemma projectilePass_plain env fs w ps :
  projectilePass env fs w ps = List.filter onScreen (map moveProjectile ps).
Proof. unfold projectilePass. rewrite filterProjectiles_plain. reflexivity. Qed.

Lemma fold_projectilePass (ctxs : list (Env.t * list Fighter.t * World.t)) :
  forall ps,
  fold_left (fun l c => projectilePass c.1.1 c.1.2 c.2 l) ctxs ps
  = Nat.iter (length ctxs)
      (fun l => List.filter onScreen (map moveProjectile l)) ps.
Proof.
  induction ctxs as [|c ctxs IH]; intros ps; [reflexivity|].
  cbn [fold_left length]. rewrite IH, projectilePass_plain, Nat.iter_succ_r.
  reflexivity.
Qed.

Lemma flight_moveProjectile n p :
  (Projectile.x (Nat.iter n moveProjectile p)
   == Projectile.x p + inject_Z (Z.of_nat n) * Projectile.velocityX p)%Q
  /\ Projectile.velocityX (Nat.iter n moveProjectile p) = Projectile.velocityX p.
Proof.
  induction n as [|n [IHx IHv]].
  - split; [|reflexivity]. cbn [Nat.iter nat_rect Z.of_nat].
    change (inject_Z 0) with 0%Q. ring.
  - rewrite Nat.iter_succ. split; [|exact IHv].
    change (Projectile.x (moveProjectile ?q))
      with (Projectile.x q + Projectile.velocityX q)%Q.
    rewrite IHx, IHv, Nat2Z.inj_succ. unfold Z.succ.
    rewrite inject_Z_plus. change (inject_Z 1) with 1%Q. ring.
Qed.

Lemma In_iter_pass n : forall l x,
  In x (Nat.iter n (fun l => List.filter onScreen (map moveProjectile l)) l) ->
  exists q, In q l /\ x = Nat.iter n moveProjectile q
            /\ (n <> 0%nat -> onScreen x = true).
Proof.
  induction n as [|n IH]; intros l x Hx.
  - exists x. split; [exact Hx|]. split; [reflexivity | congruence].
  - rewrite Nat.iter_succ in Hx. apply filter_In in Hx as [Hx Hs].
    apply in_map_iff in Hx as (y & <- & Hy).
    destruct (IH l y Hy) as (q & Hq & -> & _).
    exists q. split; [exact Hq|]. split; [reflexivity | intros _; exact Hs].
Qed.

Lemma pass_164_empty ps :
  Forall regularProjectile ps ->
  Nat.iter 164 (fun l => List.filter onScreen (map moveProjectile l)) ps = [].
Proof.
  intros Hr.
  destruct (Nat.iter 164 _ ps) as [|x l] eqn:E; [reflexivity|]. exfalso.
  assert (Hx : In x (Nat.iter 164
                (fun l => List.filter onScreen (map moveProjectile l)) ps))
    by (rewrite E; left; reflexivity).
  clear E. change 164%nat with (S 163) in Hx. rewrite Nat.iter_succ_r in Hx.
  apply In_iter_pass in Hx as (q & Hq & -> & Hs).
  apply filter_In in Hq as [Hq Hs1].
  apply in_map_iff in Hq as (p & <- & Hp).
  rewrite List.Forall_forall in Hr. destruct (Hr p Hp) as (_ & Hv & _).
  specialize (Hs ltac:(discriminate)).
  apply onScreen_bounds in Hs as [L1 U1].
  apply onScreen_bounds in Hs1 as [L0 U0].
  destruct (flight_moveProjectile 163 (moveProjectile p)) as [Hx _].
  change (Projectile.velocityX (moveProjectile p))
    with (Projectile.velocityX p) in Hx.
  change (inject_Z (Z.of_nat 163)) with 163%Q in Hx.
  rewrite Hx in L1, U1. unfold CANVAS_WIDTH in *.
  destruct Hv as [Hv|Hv]; rewrite Hv in L1, U1; lra.
Qed.

(** X9.  No projectile stays in the list for more than 163 projectile
    passes: starting from projectiles with a horizontal speed of 8 either
    way, the list is empty after 164 passes, whatever the fighters, the
    world and the clock of each pass. *)
Theorem projectiles_leave_within_164_passes
    (ctxs : list (Env.t * list Fighter.t * World.t))
    (prevProjectiles : list Projectile.t) :
  Forall regularProjectile prevProjectiles ->
  length ctxs = 164%nat ->
  fold_left (fun l c => projectilePass c.1.1 c.1.2 c.2 l) ctxs prevProjectiles
  = [].
Proof.
  intros Hr Hl. rewrite fold_projectilePass, Hl. apply pass_164_empty, Hr.
Qed.

Lemma projectiles_leave_within_164_passes_witness :
  fold_left (fun l c => projectilePass c.1.1 c.1.2 c.2 l)
    (repeat (env0, [lastStand], lastStandWorld) 164) [iceBolt]
  = [].
Proof.
  apply projectiles_leave_within_164_passes.
  - constructor; [|constructor]. apply regular_createProjectile.
  - apply repeat_length.
Defined.

Lemma set_projectiles_createParticles env x y color count ps w :
  World.set_projectiles ps (createParticles env x y color count w)
  = createParticles env x y color count (World.set_projectiles ps w).
Proof. reflexivity. Qed.

Lemma set_projectiles_handleAttack env a d ps w :
  World.set_projectiles ps (handleAttack env a d w).2
  = (handleAttack env a d (World.set_projectiles ps w)).2.
Proof.
  unfold handleAttack, creditWin. destruct (blocks a d); [reflexivity|].
  repeat match goal with
         | |- context [decide ?P] => destruct (decide P)
         end; reflexivity.
Qed.

Lemma handleAttack_fst_any env a d w w' :
  (handleAttack env a d w).1 = (handleAttack env a d w').1.
Proof. rewrite !handleAttack_result. reflexivity. Qed.

Lemma set_projectiles_resolveMelee env fs ps w :
  (resolveMelee env fs (World.set_projectiles ps w)).1
  = (resolveMelee env fs w).1
  /\ (resolveMelee env fs (World.set_projectiles ps w)).2
     = World.set_projectiles ps (resolveMelee env fs w).2.
Proof.
  destruct fs as [|f1 [|f2 [|f3 fs]]]; try (split; reflexivity).
  rewrite !resolveMelee_pair. cbv zeta.
  destruct (attackLands f1 f2).
  - rewrite (handleAttack_fst_any env f1 f2 (World.set_projectiles ps w) w).
    rewrite <- set_projectiles_handleAttack.
    generalize (handleAttack env f1 f2 w). intros [[a b] w1]. cbn [fst snd].
    destruct (attackLands b a); cbn [fst snd]; [|split; reflexivity].
    rewrite (handleAttack_fst_any env b a (World.set_projectiles ps w1) w1).
    rewrite <- set_projectiles_handleAttack. split; reflexivity.
  - cbn [fst snd]. destruct (attackLands f2 f1); cbn [fst snd];
      [|split; reflexivity].
    rewrite (handleAttack_fst_any env f2 f1 (World.set_projectiles ps w) w).
    rewrite <- set_projectiles_handleAttack. split; reflexivity.
Qed.

(** X10.  The projectiles in flight have no effect on the fighters or on
    the round: a tick leaves the same fighters, game state, winner, scores
    and round number whatever the list of projectiles it starts with. *)
Theorem projectiles_never_affect_fighters (env : Env.t) (keys : Keys)
    (projectiles : list Projectile.t) (w : World.t) :
  outcome (updateGame env keys (World.set_projectiles projectiles w))
  = outcome (updateGame env keys w).
Proof.
  destruct (decide (World.gameState w = playing)) as [Hp|Hp].
  - rewrite !outcome_updateGame by exact Hp.
    unfold updateFighters. cbv zeta.
    change (World.fighters (World.set_projectiles projectiles w))
      with (World.fighters w).
    set (U := map (updateFighter env keys) (World.fighters w)).
    change (World.projectiles (World.set_projectiles projectiles w))
      with projectiles.
    change (World.set_projectiles ?l (World.set_projectiles projectiles w))
      with (World.set_projectiles l w).
    destruct (set_projectiles_resolveMelee env (map fst U)
                (projectiles ++ concat (map snd U)) w) as [E1 E2].
    destruct (set_projectiles_resolveMelee env (map fst U)
                (World.projectiles w ++ concat (map snd U)) w) as [E3 E4].
    rewrite E1, E2, E3, E4.
    generalize (resolveMelee env (map fst U) w). intros [fs w1]. reflexivity.
  - rewrite !updateGame_not_playing by exact Hp. reflexivity.
Qed.

(** ** The reach of a melee attack *)

(** X11.  A melee attack between two fighters of the standard build lands
    only on a defender that is in front of the attacker and less than 100
    pixels away, left edge to left edge, with less than a fighter's height
    between them vertically.  A defender at the same [x] or behind the
    attacker is never hit. *)
Theorem melee_reaches_only_in_front (attacker defender : Fighter.t) :
  standardBuild attacker -> standardBuild defender ->
  attackLands attacker defender = true ->
  (Fighter.facing attacker = Facing.right ->
   (Fighter.x attacker < Fighter.x defender)%Q
   /\ (Fighter.x defender < Fighter.x attacker + 100)%Q)
  /\ (Fighter.facing attacker = Facing.left ->
      (Fighter.x attacker - 100 < Fighter.x defender)%Q
      /\ (Fighter.x defender < Fighter.x attacker)%Q)
  /\ (Fighter.y attacker - 80 < Fighter.y defender)%Q
  /\ (Fighter.y defender < Fighter.y attacker + 80)%Q.
Proof.
  intros (Wa & Ha & _) (Wd & Hd & _) L.
  unfold attackLands in L. apply andb_true_iff in L as [_ L].
  unfold checkCollision, attackRange, rectOfFighter, jsGt, jsLt, jsAdd in L.
  cbn [rx ry rwidth rheight] in L.
  rewrite Wa, Ha, Wd, Hd in L.
  apply andb_true_iff in L as [L L4]. apply andb_true_iff in L as [L L3].
  apply andb_true_iff in L as [L1 L2].
  apply bool_decide_eq_true in L1, L2, L3, L4.
  destruct (decide (Fighter.facing attacker = Facing.right)) as [F|F].
  - split; [intros _; split; lra|].
    split; [intros F'; rewrite F in F'; discriminate|]. split; lra.
  - split; [intros F'; contradiction|].
    split; [intros _; split; lra|]. split; lra.
Qed.

Lemma melee_reaches_only_in_front_witness :
  attackLands (Fighter.set_attackCooldown 29 clashFirst) clashSecond = true
  /\ (Fighter.x (Fighter.set_attackCooldown 29 clashFirst)
      < Fighter.x clashSecond)%Q
  /\ (Fighter.x clashSecond
      < Fighter.x (Fighter.set_attackCooldown 29 clashFirst) + 100)%Q.
Proof.
  assert (B1 : standardBuild (Fighter.set_attackCooldown 29 clashFirst)).
  { unfold standardBuild. repeat split; try reflexivity. left. split; reflexivity. }
  assert (B2 : standardBuild clashSecond).
  { unfold standardBuild. repeat split; try reflexivity. right. split; reflexivity. }
  assert (L : attackLands (Fighter.set_attackCooldown 29 clashFirst)
                clashSecond = true)
    by (vm_compute; reflexivity).
  split; [exact L|].
  destruct (melee_reaches_only_in_front _ _ B1 B2 L) as [R _].
  exact (R eq_refl).
Defined.

(** ** How a round ends *)

(** The melee stage calls [handleAttack] at most once: a fighter that has
    just been struck is not [attacking]. *)
Lemma resolveMelee_once env ua ub w :
  resolveMelee env [ua; ub] w
  = if attackLands ua ub
    then ([striker ua ub; struck ua ub], (handleAttack env ua ub w).2)
    else if attackLands ub ua
    then ([struck ub ua; striker ub ua], (handleAttack env ub ua w).2)
    else ([ua; ub], w).
Proof.
  rewrite resolveMelee_pair. cbv zeta.
  destruct (attackLands ua ub) eqn:L1.
  - destruct (handleAttack_fighters env ua ub w) as (_ & _ & _ & _ & S2 & _).
    generalize (handleAttack_result env ua ub w).
    revert S2. generalize (handleAttack env ua ub w).
    intros [[a' d'] w1] S2 E. cbn [fst snd] in *.
    rewrite (not_attacking_misses d' a' S2). cbn [fst snd].
    injection E as -> ->. reflexivity.
  - cbn [fst snd]. destruct (attackLands ub ua) eqn:L2; [|reflexivity].
    generalize (handleAttack_result env ub ua w).
    generalize (handleAttack env ub ua w).
    intros [[a' d'] w1] E. cbn [fst snd] in *.
    injection E as -> ->. reflexivity.
Qed.

Lemma verdict_handleAttack env a d w :
  (verdict (handleAttack env a d w).2 = verdict w
   /\ (Fighter.health (struck a d) = Fighter.health d
       \/ 0 < Fighter.health (struck a d)))
  \/ (Fighter.health d <= ATTACK_DAMAGE
      /\ Fighter.health (struck a d) = 0
      /\ knockedOut a w (handleAttack env a d w).2).
Proof.
  unfold handleAttack, struck. destruct (blocks a d).
  - left. split; [reflexivity | left; reflexivity].
  - cbn [Fighter.health Fighter.set_velocityX Fighter.set_state
         Fighter.set_hitStun Fighter.set_health].
    destruct (decide (Z.max 0 (Fighter.health d - ATTACK_DAMAGE) <= 0))
      as [K|K].
    + right. split; [lia|]. split; [lia|].
      cbn [snd]. unfold knockedOut, creditWin, credit.
      change (Fighter.id (Fighter.set_combo _ a)) with (Fighter.id a).
      destruct (decide (Fighter.id a = 1)); repeat split; reflexivity.
    + left. split; [reflexivity | right; lia].
Qed.

Lemma health_striker a d : Fighter.health (striker a d) = Fighter.health a.
Proof. unfold striker. destruct (blocks a d); reflexivity. Qed.

Lemma verdict_updateGame env keys w :
  World.gameState w = playing ->
  verdict (updateGame env keys w) = verdict (updateFighters env keys w).2.
Proof.
  intros Hp. generalize (outcome_updateGame env keys w Hp).
  generalize (updateGame env keys w). intros w'.
  generalize (updateFighters env keys w). intros [fs w1] E.
  unfold outcome in E. unfold verdict. cbn in E |- *. congruence.
Qed.

Lemma knockedOut_transfer a ua w w0 w1 w' :
  Fighter.id ua = Fighter.id a -> Fighter.name ua = Fighter.name a ->
  verdict w0 = verdict w -> verdict w' = verdict w1 ->
  knockedOut ua w0 w1 -> knockedOut a w w'.
Proof.
  intros I N V0 V1 (K1 & K2 & K3 & K4).
  unfold verdict in V0, V1. injection V0 as _ _ S0 R0.
  injection V1 as G1 W1 S1 R1.
  unfold knockedOut, credit in *. rewrite I, N, S0, R0 in *.
  repeat split; congruence.
Qed.

(** What one tick does to the round, on a world with two fighters. *)
Lemma tick_verdict env keys w a b :
  World.gameState w = playing -> World.fighters w = [a; b] ->
  let w' := updateGame env keys w in
  (verdict w' = verdict w
   /\ exists a' b', World.fighters w' = [a'; b']
        /\ (Fighter.health a' = Fighter.health a \/ 0 < Fighter.health a')
        /\ (Fighter.health b' = Fighter.health b \/ 0 < Fighter.health b'))
  \/ ((exists a' b', World.fighters w' = [a'; b']
         /\ Fighter.health a' = Fighter.health a /\ Fighter.health b' = 0
         /\ Fighter.health b <= ATTACK_DAMAGE)
      /\ knockedOut a w w')
  \/ ((exists a' b', World.fighters w' = [a'; b']
         /\ Fighter.health b' = Fighter.health b /\ Fighter.health a' = 0
         /\ Fighter.health a <= ATTACK_DAMAGE)
      /\ knockedOut b w w').
Proof.
  intros Hp Hf. cbv zeta.
  rewrite (fighters_updateGame env keys w Hp).
  generalize (verdict_updateGame env keys w Hp).
  generalize (updateGame env keys w). intros w'.
  unfold updateFighters. cbv zeta. rewrite Hf.
  cbn [map]. rewrite resolveMelee_once.
  generalize (vitals_updateFighter env keys a).
  generalize (vitals_updateFighter env keys b).
  set (w0 := World.set_projectiles _ w).
  assert (E0 : verdict w0 = verdict w) by reflexivity.
  clearbody w0. revert w0 E0.
  generalize (updateFighter env keys a).1 as ua.
  generalize (updateFighter env keys b).1 as ub.
  intros ub ua w0 E0 Vb Va.
  unfold vitals in Va, Vb.
  injection Va as Ia Ha _ _ _ _ Na. injection Vb as Ib Hb _ _ _ _ Nb.
  destruct (attackLands ua ub).
  - cbn [fst snd]. intros V.
    destruct (verdict_handleAttack env ua ub w0) as [[V1 Hh]|(Hd & Hz & K)].
    + left. split; [congruence|].
      exists (striker ua ub), (struck ua ub). split; [reflexivity|].
      rewrite health_striker, Ha, <- Hb. split; [left; reflexivity | exact Hh].
    + right; left. split.
      * exists (striker ua ub), (struck ua ub). split; [reflexivity|].
        rewrite health_striker, Ha, <- Hb. repeat split; assumption.
      * exact (knockedOut_transfer a ua w w0 _ w' Ia Na E0 V K).
  - destruct (attackLands ub ua).
    + cbn [fst snd]. intros V.
      destruct (verdict_handleAttack env ub ua w0) as [[V1 Hh]|(Hd & Hz & K)].
      * left. split; [congruence|].
        exists (struck ub ua), (striker ub ua). split; [reflexivity|].
        rewrite health_striker, Hb, <- Ha.
        split; [exact Hh | left; reflexivity].
      * right; right. split.
        -- exists (struck ub ua), (striker ub ua). split; [reflexivity|].
           rewrite health_striker, Hb, <- Ha. repeat split; assumption.
        -- exact (knockedOut_transfer b ub w w0 _ w' Ib Nb E0 V K).
    + cbn [fst snd]. intros V. left. split; [congruence|].
      exists ua, ub. split; [reflexivity|]. split; left; assumption.
Qed.

(** C6.  Whenever a tick brings the health of a fighter from above 0 to
    0, by whatever hit, the round ends on that tick: the game state is
    [gameOver], the winner is the name of the other fighter, the attacker,
    whose score, and only that, goes up by one, and whose health is
    untouched.  No projectile takes part in this: the collision test of
    the projectile pass is false for every projectile, so every kill that
    the code makes is a melee kill, and [handleAttack] ends the round. *)
Theorem kill_ends_round (env : Env.t) (keys : Keys) (w : World.t)
    (a b : Fighter.t) (i : nat) (h : Z) :
  World.gameState w = playing -> World.fighters w = [a; b] ->
  healthOf w i = Some h -> 0 < h ->
  healthOf (updateGame env keys w) i = Some 0 ->
  let w' := updateGame env keys w in
  (i = 1%nat /\ knockedOut a w w' /\ healthOf w' 0 = Some (Fighter.health a))
  \/ (i = 0%nat /\ knockedOut b w w'
      /\ healthOf w' 1 = Some (Fighter.health b)).
Proof.
  intros Hp Hf Hi Hh Hz. cbv zeta.
  unfold healthOf in Hi. rewrite Hf in Hi.
  destruct (tick_verdict env keys w a b Hp Hf)
    as [[_ (a' & b' & E & Ha & Hb)]
       |[[(a' & b' & E & Ha & Hb & _) K]|[(a' & b' & E & Hb & Ha & _) K]]];
    unfold healthOf in *; rewrite E in *;
    destruct i as [|[|i]]; cbn in Hi, Hz |- *;
    try discriminate Hi; injection Hi as Hi; injection Hz as Hz.
  - exfalso. lia.
  - exfalso. lia.
  - exfalso. lia.
  - left. split; [reflexivity|]. split; [exact K | congruence].
  - right. split; [reflexivity|]. split; [exact K | congruence].
  - exfalso. lia.
Qed.

Lemma kill_ends_round_witness :
  healthOf finishingWorld 1 = Some 10
  /\ healthOf (updateGame env0 ∅ finishingWorld) 1 = Some 0
  /\ knockedOut clashFirst finishingWorld (updateGame env0 ∅ finishingWorld)
  /\ healthOf (updateGame env0 ∅ finishingWorld) 0 = Some 100.
Proof.
  assert (Hz : healthOf (updateGame env0 ∅ finishingWorld) 1 = Some 0)
    by (vm_compute; reflexivity).
  split; [reflexivity|]. split; [exact Hz|].
  destruct (kill_ends_round env0 ∅ finishingWorld clashFirst
              (Fighter.set_health 10 (Fighter.set_x 270 fighter2)) 1 10
              eq_refl eq_refl eq_refl ltac:(lia) Hz)
    as [(_ & K & H)|(N & _)]; [|discriminate N].
  split; [exact K | exact H].
Defined.

(** X12.  A tick of a round in play either leaves the game state, the
    winner, the scores and the round number as they were, and then no
    fighter has newly reached health 0, or it ends the round: a fighter
    with at most 15 health is brought to 0 by a melee hit, the game is
    over, the winner is the name of the attacker, whose health is
    untouched, and the attacker's score, and only that, goes up by one. *)
Theorem tick_ends_round_only_by_knockout (env : Env.t) (keys : Keys)
    (w : World.t) (a b : Fighter.t) :
  World.gameState w = playing -> World.fighters w = [a; b] ->
  let w' := updateGame env keys w in
  (verdict w' = verdict w
   /\ exists a' b', World.fighters w' = [a'; b']
        /\ (Fighter.health a' = Fighter.health a \/ 0 < Fighter.health a')
        /\ (Fighter.health b' = Fighter.health b \/ 0 < Fighter.health b'))
  \/ ((exists a' b', World.fighters w' = [a'; b']
         /\ Fighter.health a' = Fighter.health a /\ Fighter.health b' = 0
         /\ Fighter.health b <= ATTACK_DAMAGE)
      /\ knockedOut a w w')
  \/ ((exists a' b', World.fighters w' = [a'; b']
         /\ Fighter.health b' = Fighter.health b /\ Fighter.health a' = 0
         /\ Fighter.health a <= ATTACK_DAMAGE)
      /\ knockedOut b w w').
Proof. apply tick_verdict. Qed.

Lemma tick_ends_round_only_by_knockout_witness :
  World.gameState duelWorld = playing
  /\ World.fighters duelWorld = [fighter1; Fighter.set_x 270 fighter2]
  /\ (verdict (updateGame env0 {["f"; "n"]} duelWorld) = verdict duelWorld
      \/ knockedOut fighter1 duelWorld (updateGame env0 {["f"; "n"]} duelWorld)
      \/ knockedOut (Fighter.set_x 270 fighter2) duelWorld
           (updateGame env0 {["f"; "n"]} duelWorld)).
Proof.
  split; [reflexivity|]. split; [reflexivity|].
  destruct (tick_ends_round_only_by_knockout env0 {["f"; "n"]} duelWorld
              fighter1 (Fighter.set_x 270 fighter2) eq_refl eq_refl)
    as [[V _]|[[_ K]|[_ K]]].
  - left. exact V.
  - right; left. exact K.
  - right; right. exact K.
Defined.

Lemma id_striker a d : Fighter.id (striker a d) = Fighter.id a.
Proof. unfold striker. destruct (blocks a d); reflexivity. Qed.

Lemma id_struck a d : Fighter.id (struck a d) = Fighter.id d.
Proof. unfold struck. destruct (blocks a d); reflexivity. Qed.

Lemma lineup_updateGame env keys w : lineup w -> lineup (updateGame env keys w).
Proof.
  intros L. unfold lineup. rewrite fighters_updateGame_any.
  destruct (decide _) as [_|_]; [|exact L].
  unfold updateFighters. cbv zeta.
  destruct L as [E|(a & b & E & Ia & Ib)]; rewrite E; [left; reflexivity|].
  right. cbn [map]. rewrite resolveMelee_once.
  rewrite <- (updateFighter_id env keys a) in Ia.
  rewrite <- (updateFighter_id env keys b) in Ib.
  revert Ia Ib.
  generalize (updateFighter env keys a).1 as ua.
  generalize (updateFighter env keys b).1 as ub.
  intros ub ua Ia Ib.
  destruct (attackLands ua ub); [|destruct (attackLands ub ua)]; cbn [fst].
  - exists (striker ua ub), (struck ua ub).
    rewrite id_striker, id_struck. auto.
  - exists (struck ub ua), (striker ub ua).
    rewrite id_striker, id_struck. auto.
  - exists ua, ub. auto.
Qed.

Lemma reachable_lineup w : reachable w -> lineup w.
Proof.
  induction 1 as [|w w' _ IH Hs]; [left; reflexivity|].
  destruct Hs.
  - apply lineup_updateGame, IH.
  - right. exists fighter1, fighter2. auto.
  - right. exists fighter1, fighter2. auto.
  - right. exists fighter1, fighter2. auto.
  - exact IH.
Qed.

Lemma verdict_no_fighters env keys w :
  World.gameState w = playing -> World.fighters w = [] ->
  verdict (updateGame env keys w) = verdict w.
Proof.
  intros Hp Hf. rewrite (verdict_updateGame env keys w Hp).
  unfold updateFighters. cbv zeta. rewrite Hf. reflexivity.
Qed.

Lemma roundRecord_same w w' :
  verdict w' = verdict w -> World.gameState w <> gameOver ->
  roundRecord w -> roundRecord w'.
Proof.
  intros V G (S1 & S2 & R & _). unfold verdict in V.
  injection V as VG _ VS VR. unfold roundRecord.
  rewrite VS, VR, VG. repeat split; try assumption.
  intros X. contradiction.
Qed.

Lemma reachable_roundRecord w : reachable w -> roundRecord w.
Proof.
  intros R. induction R as [|w w' R IH Hs].
  - unfold roundRecord. cbn. repeat split; try lia. discriminate.
  - destruct Hs.
    + destruct (decide (World.gameState w = playing)) as [Hp|Hp];
        [|rewrite updateGame_not_playing by exact Hp; exact IH].
      assert (G : World.gameState w <> gameOver) by congruence.
      destruct (reachable_lineup w R) as [Hf|(a & b & Hf & Ia & Ib)].
      * exact (roundRecord_same _ _ (verdict_no_fighters env keys w Hp Hf) G IH).
      * pose proof (reachable_sound w R) as Hs. rewrite Hf in Hs.
        apply Forall_cons in Hs as [[Ba _] Hs].
        apply Forall_cons in Hs as [[Bb _] _].
        destruct Ba as (_ & _ & _ & _ & Na). destruct Bb as (_ & _ & _ & _ & Nb).
        assert (Na' : Fighter.name a = "Sub-Zero")
          by (destruct Na as [[_ N]|[N _]]; [exact N | lia]).
        assert (Nb' : Fighter.name b = "Scorpion")
          by (destruct Nb as [[N _]|[_ N]]; [lia | exact N]).
        destruct IH as (S1 & S2 & Rd & _).
        destruct (tick_verdict env keys w a b Hp Hf)
          as [[V _]|[[(a' & b' & E & _ & Hz & _) K]|[(a' & b' & E & _ & Hz & _) K]]].
        -- apply (roundRecord_same _ _ V G). repeat split; try assumption.
           intros X; contradiction.
        -- destruct K as (K1 & K2 & K3 & K4). unfold roundRecord, healthOf.
           rewrite K3, K4, K2, E, Na'. unfold credit. rewrite Ia.
           destruct (decide (1 = 1)) as [_|n]; [|contradiction].
           cbn. repeat split; try lia.
           intros _. left. repeat split; [congruence | lia].
        -- destruct K as (K1 & K2 & K3 & K4). unfold roundRecord, healthOf.
           rewrite K3, K4, K2, E, Nb'. unfold credit. rewrite Ib.
           destruct (decide (2 = 1)) as [n|_]; [discriminate|].
           cbn. repeat split; try lia.
           intros _. right. repeat split; [congruence | lia].
    + destruct IH as (S1 & S2 & Rd & _). unfold roundRecord. cbn.
      repeat split; try assumption. discriminate.
    + unfold roundRecord. cbn. repeat split; try lia. discriminate.
    + destruct IH as (S1 & S2 & Rd & _). unfold roundRecord. cbn.
      repeat split; try assumption; try lia. discriminate.
    + destruct IH as (S1 & S2 & Rd & _). unfold roundRecord, togglePause.
      cbn. repeat split; try assumption.
      destruct (decide _); discriminate.
Qed.

Lemma reachable_knockoutWorld : reachable knockoutWorld.
Proof. apply reachable_run, reachable_roundStart. Defined.

Lemma gameOver_knockoutWorld : World.gameState knockoutWorld = gameOver.
Proof. vm_compute. reflexivity. Qed.

(** X13.  In every world that the application can reach, a game that is
    over has a winner, Sub-Zero or Scorpion: the other fighter is at
    health 0 and the winner has at least one point. *)
Theorem game_over_names_the_winner (w : World.t) :
  reachable w -> World.gameState w = gameOver ->
  (World.winner w = Some "Sub-Zero" /\ healthOf w 1 = Some 0
   /\ 1 <= player1 (World.scores w))
  \/ (World.winner w = Some "Scorpion" /\ healthOf w 0 = Some 0
      /\ 1 <= player2 (World.scores w)).
Proof.
  intros R G. destruct (reachable_roundRecord w R) as (_ & _ & _ & H).
  exact (H G).
Qed.

Lemma game_over_names_the_winner_witness :
  reachable knockoutWorld /\ World.gameState knockoutWorld = gameOver
  /\ ((World.winner knockoutWorld = Some "Sub-Zero"
       /\ healthOf knockoutWorld 1 = Some 0
       /\ 1 <= player1 (World.scores knockoutWorld))
      \/ (World.winner knockoutWorld = Some "Scorpion"
          /\ healthOf knockoutWorld 0 = Some 0
          /\ 1 <= player2 (World.scores knockoutWorld))).
Proof.
  split; [exact reachable_knockoutWorld|].
  split; [exact gameOver_knockoutWorld|].
  exact (game_over_names_the_winner knockoutWorld reachable_knockoutWorld
           gameOver_knockoutWorld).
Defined.

(** X14.  The scores never go below 0 and the round number never below 1
    in a world that the application can reach. *)
Theorem scores_and_round_are_counts (w : World.t) :
  reachable w ->
  0 <= player1 (World.scores w) /\ 0 <= player2 (World.scores w)
  /\ 1 <= World.round w.
Proof.
  intros R. destruct (reachable_roundRecord w R) as (S1 & S2 & Rd & _).
  auto.
Qed.

Lemma scores_and_round_are_counts_witness :
  reachable skirmishWorld
  /\ 0 <= player1 (World.scores skirmishWorld)
  /\ 0 <= player2 (World.scores skirmishWorld)
  /\ 1 <= World.round skirmishWorld.
Proof.
  split; [exact reachable_skirmishWorld|].
  exact (scores_and_round_are_counts skirmishWorld reachable_skirmishWorld).
Defined.

(** ** The keyboard *)

(** X15.  Releasing a key undoes its press, whatever the case of the two
    key names: after [handleKeyDown] the key is held, after [handleKeyUp]
    of a name with the same lower-case form it is not, and every other key
    is held exactly when it was held before the press. *)
Theorem key_release_undoes_press (toLowerCase : string -> string)
    (pressed released : string) (keys : Keys) (w : World.t) :
  toLowerCase released = toLowerCase pressed ->
  let down := (handleKeyDown toLowerCase pressed keys w).1 in
  let up := handleKeyUp toLowerCase released down in
  has (toLowerCase pressed) down = true
  /\ has (toLowerCase pressed) up = false
  /\ (forall k, k <> toLowerCase pressed -> has k up = has k keys).
Proof.
  intros E. cbv zeta. unfold handleKeyDown, handleKeyUp, has. cbn [fst].
  rewrite E. split; [|split].
  - apply bool_decide_eq_true, elem_of_union_l, elem_of_singleton.
    reflexivity.
  - apply bool_decide_eq_false. rewrite elem_of_difference, elem_of_singleton.
    tauto.
  - intros k Hk. apply bool_decide_ext.
    rewrite elem_of_difference, elem_of_union, !elem_of_singleton. tauto.
Qed.

Lemma key_release_undoes_press_witness :
  has "f" (handleKeyUp (fun s => s) "f"
             (handleKeyDown (fun s => s) "f" {["d"]} roundStart).1) = false
  /\ has "d" (handleKeyUp (fun s => s) "f"
                (handleKeyDown (fun s => s) "f" {["d"]} roundStart).1)
     = has "d" {["d"]}.
Proof.
  destruct (key_release_undoes_press (fun s => s) "f" "f" {["d"]} roundStart
              eq_refl) as (_ & U & O).
  split; [exact U|]. apply O. discriminate.
Defined.

(** ** The bars of the screen *)

Lemma reachable_fighter w i f :
  reachable w -> World.fighters w !! i = Some f -> inBounds f /\ sound f.
Proof.
  intros R Hi. destruct (worldOk_reachable w R) as [B _].
  pose proof (reachable_sound w R) as S.
  rewrite Forall_lookup in B. rewrite Forall_lookup in S.
  split; [exact (B i f Hi) | exact (S i f Hi)].
Qed.

(** X16.  In every world that the application can reach, the width of a
    health bar and of an energy bar is a finite number between 0 and 100
    per cent, also when the fighter is missing, where it is 0. *)
Theorem bars_between_0_and_100 (w : World.t) (i : nat) :
  reachable w ->
  exists h e,
    healthBar w i = Percent h /\ (0 <= h)%Q /\ (h <= 100)%Q
    /\ energyBar w i = Percent e /\ (0 <= e)%Q /\ (e <= 100)%Q.
Proof.
  intros R. unfold healthBar, energyBar.
  destruct (World.fighters w !! i) as [f|] eqn:Hi; cbn [fmap option_fmap option_map].
  - destruct (reachable_fighter w i f R Hi)
      as [[Bh Be] [(_ & _ & Mh & Me & _) _]].
    rewrite Mh in *. rewrite Me in *.
    exists (inject_Z (Fighter.health f) / inject_Z 100 * 100)%Q,
           (Fighter.energy f / 100 * 100)%Q.
    assert (H0 : (inject_Z 0 <= inject_Z (Fighter.health f))%Q)
      by (rewrite <- Zle_Qle; lia).
    assert (H1 : (inject_Z (Fighter.health f) <= inject_Z 100)%Q)
      by (rewrite <- Zle_Qle; lia).
    change (inject_Z 0) with 0%Q in H0. change (inject_Z 100) with 100%Q in *.
    unfold barWidth.
    change (Qeq_bool 100 0) with false. cbv iota.
    assert (P : forall q : Q, (q / 100 * 100 == q)%Q) by (intros q; field).
    destruct Be as [E0 E1].
    repeat split; try reflexivity; rewrite P; assumption.
  - exists 0%Q, 0%Q. repeat split; try reflexivity; lra.
Qed.

Lemma bars_between_0_and_100_witness :
  reachable skirmishWorld
  /\ exists h e,
       healthBar skirmishWorld 1 = Percent h /\ (0 <= h)%Q /\ (h <= 100)%Q
       /\ energyBar skirmishWorld 1 = Percent e /\ (0 <= e)%Q /\ (e <= 100)%Q.
Proof.
  split; [exact reachable_skirmishWorld|].
  exact (bars_between_0_and_100 skirmishWorld 1 reachable_skirmishWorld).
Defined.

(** ** The rate of fire *)

(** A field that the melee leaves alone is, after a tick, what the update
    of the fighter made of it. *)
Lemma tick_fighter {A} (obs : Fighter.t -> A) env keys w i g :
  (forall a d, obs (striker a d) = obs a /\ obs (struck a d) = obs d) ->
  World.gameState w = playing ->
  World.fighters (updateGame env keys w) !! i = Some g ->
  exists f, World.fighters w !! i = Some f
            /\ obs g = obs (updateFighter env keys f).1.
Proof.
  intros Hobs Hp. rewrite (fighters_updateGame env keys w Hp).
  unfold updateFighters. cbv zeta.
  generalize (World.set_projectiles
                (World.projectiles w
                 ++ concat (map snd (map (updateFighter env keys)
                                       (World.fighters w)))) w).
  intros w0.
  assert (K : forall fs : list Fighter.t,
             map fst (map (updateFighter env keys) fs) !! i = Some g ->
             exists f, fs !! i = Some f /\ obs g = obs (updateFighter env keys f).1).
  { intros fs H. rewrite map_map in H.
    change (map (fun x => (updateFighter env keys x).1) fs)
      with ((fun x => (updateFighter env keys x).1) <$> fs) in H.
    rewrite list_lookup_fmap in H.
    destruct (fs !! i) as [f|]; [|discriminate H].
    exists f. split; [reflexivity|]. cbn in H.
    revert H. generalize (updateFighter env keys f).1. intros u H.
    congruence. }
  destruct (World.fighters w) as [|a [|b [|c l]]] eqn:Hf;
    try (intros H; apply K; exact H).
  cbn [map]. rewrite resolveMelee_once.
  remember (updateFighter env keys a).1 as ua eqn:Ea.
  remember (updateFighter env keys b).1 as ub eqn:Eb.
  destruct (Hobs ua ub) as [O1 O2]. destruct (Hobs ub ua) as [O3 O4].
  assert (R : forall a' b' : Fighter.t, obs a' = obs ua -> obs b' = obs ub ->
              [a'; b'] !! i = Some g ->
              exists f, [a; b] !! i = Some f
                        /\ obs g = obs (updateFighter env keys f).1).
  { intros a' b' Ha' Hb' H. destruct i as [|[|i]]; cbn in H.
    - exists a. split; [reflexivity|]. rewrite <- Ea. congruence.
    - exists b. split; [reflexivity|]. rewrite <- Eb. congruence.
    - discriminate H. }
  clear Ea Eb.
  destruct (attackLands ua ub); [|destruct (attackLands ub ua)]; cbn [fst];
    apply R; auto.
Qed.

Lemma specialCooldown_melee a d :
  Fighter.specialCooldown (striker a d) = Fighter.specialCooldown a
  /\ Fighter.specialCooldown (struck a d) = Fighter.specialCooldown d.
Proof. unfold striker, struck. destruct (blocks a d); split; reflexivity. Qed.

(** A fighter creates a projectile only with its special cooldown at 0
    after the count-down of the tick, and the cooldown is then 60;
    otherwise the cooldown counts down. *)
Lemma special_step env keys f :
  ((updateFighter env keys f).2 = []
   /\ Fighter.specialCooldown (updateFighter env keys f).1
      = countDown (Fighter.specialCooldown f))
  \/ (Fighter.specialCooldown f <= 1
      /\ Fighter.specialCooldown (updateFighter env keys f).1 = 60
      /\ exists p, (updateFighter env keys f).2 = [p]).
Proof.
  rewrite updateFighter_fst, updateFighter_snd, handleInput_fst, handleInput_snd.
  assert (P : forall g, Fighter.specialCooldown (applyPhysics g)
                        = Fighter.specialCooldown g).
  { intros g. generalize (clocks_applyPhysics g). generalize (applyPhysics g).
    intros g' H. unfold clocks in H. congruence. }
  assert (B : forall c g, Fighter.specialCooldown (blockInput c keys g)
                          = Fighter.specialCooldown g).
  { intros c g. generalize (clocks_blockInput c keys g).
    generalize (blockInput c keys g). intros g' H. unfold clocks in H.
    congruence. }
  rewrite P. destruct (notStunned (beforeInput f)).
  - cbv zeta. rewrite B.
    destruct (at_special keys f) as (_ & C & I). cbv zeta in C, I.
    set (c := controls (Fighter.id (beforeInput f))).
    assert (Ec : controls (Fighter.id f) = c).
    { subst c. f_equal. symmetry. apply id_beforeInput. }
    rewrite Ec in C. revert C.
    generalize (attackInput c keys
                  (jumpInput c keys (moveInput c keys (beforeInput f)))).
    intros g C. unfold specialInput.
    destruct (specialFires c keys g) eqn:F; cbn [fst snd].
    + right. unfold specialFires in F.
      apply andb_true_iff in F as [_ F]. apply bool_decide_eq_true in F.
      rewrite C in F. split.
      * unfold countDown in F. destruct (decide _); lia.
      * split; [reflexivity | eexists; reflexivity].
    + left. split; [reflexivity | exact C].
  - left. split; [reflexivity | apply specialCooldown_beforeInput].
Qed.

Lemma specialCooldown_run i inputs : forall w c,
  (forall f, World.fighters w !! i = Some f -> c <= Fighter.specialCooldown f) ->
  Z.of_nat (length inputs) + 1 <= c ->
  forall g, World.fighters (run inputs w) !! i = Some g ->
            c - Z.of_nat (length inputs) <= Fighter.specialCooldown g.
Proof.
  induction inputs as [|[env keys] rest IH]; intros w c Hc Hk g Hg.
  - cbn in *. specialize (Hc g Hg). lia.
  - cbn [run length] in *.
    assert (Hc' : forall f, World.fighters (updateGame env keys w) !! i = Some f ->
                   c - 1 <= Fighter.specialCooldown f).
    { intros f' Hf'.
      destruct (decide (World.gameState w = playing)) as [Hp|Hp].
      - destruct (tick_fighter Fighter.specialCooldown env keys w i f'
                    specialCooldown_melee Hp Hf') as (f & Hf & E).
        specialize (Hc f Hf). rewrite E.
        destruct (special_step env keys f) as [[_ S]|(S & _)]; [|lia].
        rewrite S. unfold countDown. destruct (decide _); lia.
      - rewrite updateGame_not_playing in Hf' by exact Hp.
        specialize (Hc f' Hf'). lia. }
    specialize (IH _ (c - 1) Hc' ltac:(lia) g Hg). lia.
Qed.

Lemma special_rate env keys w i f inputs env' keys' g :
  World.gameState w = playing ->
  World.fighters w !! i = Some f ->
  (updateFighter env keys f).2 <> [] ->
  (length inputs < 59)%nat ->
  World.fighters (run inputs (updateGame env keys w)) !! i = Some g ->
  (updateFighter env' keys' g).2 = [].
Proof.
  intros Hp Hf Hs Hl Hg.
  assert (H60 : forall f', World.fighters (updateGame env keys w) !! i = Some f' ->
                  60 <= Fighter.specialCooldown f').
  { intros f' Hf'.
    destruct (tick_fighter Fighter.specialCooldown env keys w i f'
                specialCooldown_melee Hp Hf') as (f0 & Hf0 & E).
    rewrite Hf in Hf0. injection Hf0 as <-. rewrite E.
    destruct (special_step env keys f) as [[S _]|(_ & S & _)];
      [contradiction | lia]. }
  pose proof (specialCooldown_run i inputs _ 60 H60 ltac:(lia) g Hg) as C.
  destruct (special_step env' keys' g) as [[S _]|(S & _)]; [exact S | lia].
Qed.

(** X17.  A fighter fires at most one projectile in 60 ticks: after a
    tick on which fighter [i] has created a projectile, it creates none on
    any of the next 59 ticks, whatever keys are held and whatever happens
    in the melee. *)
Theorem special_fires_at_most_once_in_60_ticks (env : Env.t) (keys : Keys)
    (w : World.t) (i : nat) (f : Fighter.t) (inputs : list (Env.t * Keys))
    (env' : Env.t) (keys' : Keys) (g : Fighter.t) :
  World.gameState w = playing ->
  World.fighters w !! i = Some f ->
  (updateFighter env keys f).2 <> [] ->
  (length inputs < 59)%nat ->
  World.fighters (run inputs (updateGame env keys w)) !! i = Some g ->
  (updateFighter env' keys' g).2 = [].
Proof. apply special_rate. Qed.

Lemma special_fires_at_most_once_in_60_ticks_witness :
  (updateFighter env0 {["g"]} fighter1).2 <> []
  /\ exists g,
       World.fighters
         (run (repeat (env0, {["g"]}) 58) (updateGame env0 {["g"]} roundStart))
       !! 0%nat = Some g
       /\ (updateFighter env0 {["g"]} g).2 = [].
Proof.
  assert (S : (updateFighter env0 {["g"]} fighter1).2 <> [])
    by (intros H; vm_compute in H; discriminate H).
  split; [exact S|].
  destruct (World.fighters
              (run (repeat (env0, {["g"]}) 58)
                 (updateGame env0 {["g"]} roundStart)) !! 0%nat)
    as [g|] eqn:E; [|vm_compute in E; discriminate E].
  exists g. split; [reflexivity|].
  apply (special_fires_at_most_once_in_60_ticks env0 {["g"]} roundStart 0
           fighter1 (repeat (env0, {["g"]}) 58) env0 {["g"]} g).
  - reflexivity.
  - reflexivity.
  - exact S.
  - rewrite repeat_length. lia.
  - exact E.
Defined.

(** ** Jumps *)

Lemma vertical_applyPhysics g : vertical (applyPhysics g) = fall (vertical g).
Proof.
  unfold applyPhysics, fall, vertical. cbv zeta.
  destruct (Fighter.isGrounded g) eqn:G; simpl;
    (destruct (decide (_ <= _)%Q); [destruct (decide _)|]); simpl;
    rewrite ?G; reflexivity.
Qed.

Lemma vertical_after_jump env keys f g :
  vertical g = vertical f ->
  vertical (blockInput (controls (Fighter.id f)) keys
              (specialInput env (controls (Fighter.id f)) keys
                 (attackInput (controls (Fighter.id f)) keys g)).1)
  = vertical f.
Proof.
  intros E.
  rewrite vertical_blockInput, vertical_specialInput, vertical_attackInput.
  exact E.
Qed.

(** In the air the keys have no part in the vertical motion. *)
Lemma vertical_airborne env keys f :
  Fighter.isGrounded f = false ->
  vertical (updateFighter env keys f).1 = fall (vertical f).
Proof.
  intros G. rewrite updateFighter_fst, vertical_applyPhysics. f_equal.
  rewrite <- (vertical_beforeInput f).
  assert (G' : Fighter.isGrounded (beforeInput f) = false).
  { generalize (vertical_beforeInput f). generalize (beforeInput f).
    intros g E. unfold vertical in E. congruence. }
  revert G'. generalize (beforeInput f). clear f G. intros f G.
  rewrite handleInput_fst. destruct (notStunned f); [|reflexivity].
  cbv zeta. set (c := controls (Fighter.id f)).
  rewrite vertical_blockInput, vertical_specialInput, vertical_attackInput.
  assert (Gm : Fighter.isGrounded (moveInput c keys f) = false).
  { generalize (vertical_moveInput c keys f). generalize (moveInput c keys f).
    intros g E. unfold vertical in E. congruence. }
  unfold jumpInput. rewrite Gm, andb_false_r. apply vertical_moveInput.
Qed.

(** The tick of the jump. *)
Lemma vertical_jump env keys f :
  Fighter.isGrounded f = true -> notStunned (beforeInput f) = true ->
  has (keyJump (controls (Fighter.id f))) keys = true ->
  vertical (updateFighter env keys f).1
  = fall (Fighter.y f, JUMP_FORCE, false, Fighter.height f).
Proof.
  intros G N J. rewrite updateFighter_fst, vertical_applyPhysics. f_equal.
  rewrite <- (id_beforeInput f) in J.
  assert (V : vertical (beforeInput f) = vertical f)
    by apply vertical_beforeInput.
  revert N J V. generalize (beforeInput f). intros b N J V.
  rewrite handleInput_fst, N. cbv zeta. set (c := controls (Fighter.id b)) in *.
  rewrite vertical_blockInput, vertical_specialInput, vertical_attackInput.
  generalize (vertical_moveInput c keys b). generalize (moveInput c keys b).
  intros g E. rewrite V in E. unfold vertical in E.
  injection E as E1 E2 E3 E4.
  unfold jumpInput. rewrite J, E3, G. cbn [andb]. unfold vertical. cbn.
  rewrite E1, E4. reflexivity.
Qed.

Lemma arc_step m v : 1 <= m <= 43 -> arc m v -> jumpPhase (m + 1) (fall v).
Proof.
  intros Hm. destruct v as [[[y vy] gr] h]. intros (-> & -> & Hv & Hy).
  unfold fall, jumpPhase, arc, landed. unfold GROUND_Y, GRAVITY, JUMP_FORCE in *.
  assert (C : (inject_Z ((m + 1) * (m + 1 - 44))
               == inject_Z (m * (m - 44)) + 2 * inject_Z m - 43)%Q).
  { replace ((m + 1) * (m + 1 - 44)) with (m * (m - 44) + 2 * m + -43) by ring.
    rewrite !inject_Z_plus, (inject_Z_mult 2 m).
    change (inject_Z 2) with 2%Q. change (inject_Z (-43)) with (-43)%Q.
    ring. }
  assert (A : (inject_Z (m + 1) == inject_Z m + 1)%Q).
  { rewrite inject_Z_plus. reflexivity. }
  destruct (decide (m = 43)) as [->|Hn].
  - right. split; [reflexivity|].
    assert (Z0 : (inject_Z ((43 + 1) * (43 + 1 - 44)) == 0)%Q) by reflexivity.
    destruct (decide _) as [L|L]; [split; [reflexivity | lra]|].
    exfalso. apply L. rewrite Hy, Hv.
    change (inject_Z (43 * (43 - 44))) with (-43)%Q.
    change (inject_Z 43) with 43%Q. lra.
  - left. split; [lia|].
    assert (S : (inject_Z ((m + 1) * (m + 1 - 44)) < inject_Z 0)%Q)
      by (rewrite <- Zlt_Qlt; nia).
    change (inject_Z 0) with 0%Q in S.
    destruct (decide _) as [L|L].
    + exfalso. rewrite Hy, Hv in L. lra.
    + split; [reflexivity|]. split; [reflexivity|].
      split; [rewrite Hv, A; lra | rewrite Hy, Hv, C; lra].
Qed.

Lemma vertical_melee a d :
  vertical (striker a d) = vertical a /\ vertical (struck a d) = vertical d.
Proof. unfold striker, struck. destruct (blocks a d); split; reflexivity. Qed.

Lemma flight_run i inputs : forall w m,
  1 <= m -> m + Z.of_nat (length inputs) <= 44 ->
  (forall f, World.fighters w !! i = Some f -> jumpPhase m (vertical f)) ->
  forall g, World.fighters (run inputs w) !! i = Some g ->
  exists m', m <= m' <= m + Z.of_nat (length inputs)
             /\ jumpPhase m' (vertical g)
             /\ (World.gameState (run inputs w) = playing ->
                 m' = m + Z.of_nat (length inputs)).
Proof.
  induction inputs as [|[env keys] rest IH]; intros w m Hm Hl Hw g Hg.
  - cbn in *. exists m. split; [lia|]. split; [apply Hw, Hg | lia].
  - cbn [run length] in *.
    destruct (decide (World.gameState w = playing)) as [Hp|Hp].
    + assert (Hw' : forall f, World.fighters (updateGame env keys w) !! i = Some f ->
                      jumpPhase (m + 1) (vertical f)).
      { intros f' Hf'.
        destruct (tick_fighter vertical env keys w i f' vertical_melee Hp Hf')
          as (f & Hf & E).
        rewrite E. destruct (Hw f Hf) as [[M A]|[M _]]; [|lia].
        assert (G : Fighter.isGrounded f = false).
        { unfold arc, vertical in A. tauto. }
        rewrite (vertical_airborne env keys f G).
        apply arc_step; [lia | exact A]. }
      destruct (IH _ (m + 1) ltac:(lia) ltac:(lia) Hw' g Hg)
        as (m' & R & P & E).
      exists m'. split; [lia|]. split; [exact P|]. intros X. rewrite (E X). lia.
    + rewrite updateGame_not_playing in Hg |- * by exact Hp.
      rewrite run_not_playing in Hg |- * by exact Hp.
      exists m. split; [lia|]. split; [apply Hw, Hg|]. intros X. contradiction.
Qed.

Lemma jump_flight env keys w i f inputs g :
  reachable w -> World.gameState w = playing ->
  World.fighters w !! i = Some f ->
  Fighter.isGrounded f = true -> notStunned (beforeInput f) = true ->
  has (keyJump (controls (Fighter.id f))) keys = true ->
  (length inputs <= 43)%nat ->
  World.fighters (run inputs (updateGame env keys w)) !! i = Some g ->
  ((length inputs < 43)%nat -> Fighter.isGrounded g = false)
  /\ (length inputs = 43%nat ->
      World.gameState (run inputs (updateGame env keys w)) = playing ->
      Fighter.isGrounded g = true /\ (Fighter.y g == GROUND_Y - 80)%Q).
Proof.
  intros R Hp Hf G N J Hl Hg.
  destruct (reachable_fighter w i f R Hf) as [_ ((_ & Hh & _) & _ & _ & [Gr _] & _)].
  destruct (Gr G) as [Hy _].
  assert (H1 : forall f', World.fighters (updateGame env keys w) !! i = Some f' ->
                 jumpPhase 1 (vertical f')).
  { intros f' Hf'.
    destruct (tick_fighter vertical env keys w i f' vertical_melee Hp Hf')
      as (f0 & Hf0 & E).
    rewrite Hf in Hf0. injection Hf0 as <-.
    rewrite E, (vertical_jump env keys f G N J), Hh.
    left. split; [lia|]. unfold fall, arc.
    rewrite Hh in Hy. unfold GROUND_Y, GRAVITY, JUMP_FORCE in *.
    destruct (decide _) as [L|L].
    - exfalso. rewrite Hy in L. lra.
    - split; [reflexivity|]. split; [reflexivity|]. split.
      + change (inject_Z 1) with 1%Q. lra.
      + rewrite Hy. change (inject_Z (1 * (1 - 44))) with (-43)%Q. lra. }
  destruct (flight_run i inputs _ 1 ltac:(lia) ltac:(lia) H1 g Hg)
    as (m' & Rm & P & E).
  split.
  - intros L. destruct P as [[_ A]|[M _]]; [|lia].
    unfold arc, vertical in A. tauto.
  - intros L X. specialize (E X).
    destruct P as [[M _]|[_ A]]; [lia|].
    unfold landed, vertical in A. exact A.
Qed.

(** X18.  A jump lasts 44 ticks.  When a fighter of a reachable world
    jumps from the ground, it is in the air after the tick of the jump and
    after each of the next 42 ticks, and it is back on the ground, at the
    height it left, after the 43rd, provided the game is still being
    played then; no key and no hit shortens or prolongs the jump. *)
Theorem jump_lasts_44_ticks (env : Env.t) (keys : Keys) (w : World.t)
    (i : nat) (f : Fighter.t) (inputs : list (Env.t * Keys)) (g : Fighter.t) :
  reachable w -> World.gameState w = playing ->
  World.fighters w !! i = Some f ->
  Fighter.isGrounded f = true -> notStunned (beforeInput f) = true ->
  has (keyJump (controls (Fighter.id f))) keys = true ->
  (length inputs <= 43)%nat ->
  World.fighters (run inputs (updateGame env keys w)) !! i = Some g ->
  ((length inputs < 43)%nat -> Fighter.isGrounded g = false)
  /\ (length inputs = 43%nat ->
      World.gameState (run inputs (updateGame env keys w)) = playing ->
      Fighter.isGrounded g = true /\ (Fighter.y g == GROUND_Y - 80)%Q).
Proof. apply jump_flight. Qed.

Lemma jump_lasts_44_ticks_witness :
  exists g,
    World.fighters
      (run (repeat (env0, ∅) 43) (updateGame env0 {["z"]} roundStart))
    !! 0%nat = Some g
    /\ Fighter.isGrounded g = true /\ (Fighter.y g == GROUND_Y - 80)%Q.
Proof.
  destruct (World.fighters
              (run (repeat (env0, ∅) 43) (updateGame env0 {["z"]} roundStart))
            !! 0%nat) as [g|] eqn:E; [|vm_compute in E; discriminate E].
  exists g. split; [reflexivity|].
  apply (jump_lasts_44_ticks env0 {["z"]} roundStart 0 fighter1
           (repeat (env0, ∅) 43) g).
  - exact reachable_roundStart.
  - reflexivity.
  - reflexivity.
  - reflexivity.
  - vm_compute. reflexivity.
  - vm_compute. reflexivity.
  - rewrite repeat_length. lia.
  - exact E.
  - apply repeat_length.
  - vm_compute. reflexivity.
Defined.

(** X19.  In the air a fighter has no control over its vertical motion:
    the height, the vertical speed and the grounded flag after the update
    depend only on what they were before it, not on the keys, the clock,
    the state, the stuns or any other field. *)
Theorem no_air_control (env1 env2 : Env.t) (keys1 keys2 : Keys)
    (f1 f2 : Fighter.t) :
  Fighter.isGrounded f1 = false -> vertical f1 = vertical f2 ->
  vertical (updateFighter env1 keys1 f1).1
  = vertical (updateFighter env2 keys2 f2).1.
Proof.
  intros G E.
  assert (G2 : Fighter.isGrounded f2 = false)
    by (unfold vertical in E; congruence).
  rewrite (vertical_airborne env1 keys1 f1 G),
    (vertical_airborne env2 keys2 f2 G2), E.
  reflexivity.
Qed.

Lemma no_air_control_witness :
  vertical (updateFighter env0 {["z"; "q"]}
              (updateFighter env0 {["z"]} fighter1).1).1
  = vertical (updateFighter env0 ∅
                (Fighter.set_hitStun 20
                   (updateFighter env0 {["z"]} fighter1).1)).1.
Proof.
  apply no_air_control.
  - vm_compute. reflexivity.
  - reflexivity.
Defined.
